(** * fio_str.h: the dynamic string of facil.io, embedded in Rocq

    The header [lib/facil/core/types/fiobj/fio_str.h] implements a binary
    safe string with a small-string optimisation.  The container
    [fio_str_s] is read through two overlapping struct types
    ([fio_str_s] and [fio_str__small_s]), so the embedding keeps the bytes
    of the container and decodes the heap fields from them.

    Data layout: LP64, little endian (x86-64, AArch64).  [uint8_t small]
    sits at offset 0, [frozen] at 1, [reserved[6]] at 2, [size_t capa] at 8,
    [size_t len] at 16 and [data] at 24; [sizeof(fio_str_s)] is 32 and
    the [data] member of [fio_str__small_s] starts at offset 2.

    The C functions are written in a state and error monad over a memory
    that holds one container and the blocks of the allocator.  A call
    returns, ends the process (a failed [FIO_ASSERT_ALLOC] or
    [TEST_ASSERT]), or has undefined behaviour: a null or out-of-bounds
    access, a field read from bytes that do not hold its type.

    What the model fixes where C leaves a choice: [realloc] always returns
    a new block; the allocator grants a request of at least one byte when
    it is within the [alloc_limit] of the memory and returns [NULL] for an
    empty one; freshly allocated bytes are [Undef].  The
    source container of [fio_str_concat] lives in a memory of its own, so
    a container is never concatenated to itself. *)

From Stdlib Require Import ZArith List Lia Strings.Byte Strings.String.
From stdpp Require Import base option list gmap.

Local Open Scope Z_scope.

(** ** Machine integers *)

Module Int.

Definition size_modulus : Z := 2 ^ 64.

(** Conversion to [size_t]. *)
Definition to_size_t (z : Z) : Z := z mod size_modulus.

(** Conversion to [intptr_t] (two's complement). *)
Definition to_intptr_t (z : Z) : Z :=
  (z + 2 ^ 63) mod size_modulus - 2 ^ 63.

(** Conversion to [uint8_t]. *)
Definition to_uint8_t (z : Z) : Z := z mod 2 ^ 8.

(** [size_t] arithmetic wraps around. *)
Definition size_add (a b : Z) : Z := to_size_t (a + b).
Definition size_sub (a b : Z) : Z := to_size_t (a - b).
Definition size_shl (a n : Z) : Z := to_size_t (Z.shiftl a n).

End Int.
Export Int.

(** ** Pointers and memory cells *)

(** A pointer to [char] is null, points into the container's own storage
    (the [data] member of [fio_str__small_s], plus [ofs]) or into a block
    obtained from [malloc]/[realloc]. *)
Inductive pointer : Type :=
| NULL
| small_data (ofs : Z)
| heap_ptr (b : nat) (ofs : Z).

(** A byte of memory: indeterminate, a value, or the [k]-th byte of a stored
    pointer. *)
Inductive cell : Type :=
| Undef
| Byte (b : byte)
| Frag (p : pointer) (k : nat).

#[global] Instance byte_eq_dec : EqDecision byte := Byte.byte_eq_dec.
#[global] Instance pointer_eq_dec : EqDecision pointer.
Proof. solve_decision. Defined.
#[global] Instance cell_eq_dec : EqDecision cell.
Proof. solve_decision. Defined.

Definition ptr_add (p : pointer) (z : Z) : pointer :=
  match p with
  | NULL => NULL
  | small_data o => small_data (o + z)
  | heap_ptr b o => heap_ptr b (o + z)
  end.

Definition is_null (p : pointer) : bool :=
  match p with NULL => true | _ => false end.

Definition byte_of_Z (z : Z) : byte :=
  default x00 (Byte.of_N (Z.to_N (z mod 256))).

Definition Z_of_byte (b : byte) : Z := Z.of_N (Byte.to_N b).

Definition zero : cell := Byte x00.

(** Little-endian image of an unsigned integer of [n] bytes. *)
Fixpoint encode_le (n : nat) (v : Z) : list cell :=
  match n with
  | O => []
  | S n' => Byte (byte_of_Z v) :: encode_le n' (Z.shiftr v 8)
  end.

Definition encode_size (v : Z) : list cell := encode_le 8 v.

Fixpoint decode_le (cs : list cell) : option Z :=
  match cs with
  | [] => Some 0
  | Byte b :: cs' => z ← decode_le cs'; Some (Z_of_byte b + 256 * z)
  | _ :: _ => None
  end.

Definition decode_size (cs : list cell) : option Z :=
  if decide (length cs = 8%nat) then decode_le cs else None.

(** Image of a pointer: the null pointer is all-bits-zero. *)
Definition encode_ptr (p : pointer) : list cell :=
  match p with
  | NULL => replicate 8 zero
  | _ => map (Frag p) (seq 0 8)
  end.

Definition decode_ptr (cs : list cell) : option pointer :=
  if decide (cs = replicate 8 zero) then Some NULL
  else match cs with
       | Frag p 0 :: _ =>
           if decide (is_null p = false ∧ cs = map (Frag p) (seq 0 8))
           then Some p else None
       | _ => None
       end.

(** [cs] written over [l] from index [i] on. *)
Definition splice {A} (i : nat) (cs l : list A) : list A :=
  take i l ++ cs ++ drop (i + length cs) l.

(** ** The container *)

Definition sizeof_fio_str_s : Z := 32.
Definition offsetof_reserved : Z := 2.

(** [FIO_STR_SMALL_CAPA]: [sizeof(fio_str_s)] minus the offset of
    [reserved]. *)
Definition FIO_STR_SMALL_CAPA : Z := sizeof_fio_str_s - offsetof_reserved.

(** The container as the code addresses it: the two header bytes and the
    [FIO_STR_SMALL_CAPA] bytes behind them, which are [reserved], [capa],
    [len] and [data] for [fio_str_s] and [data] for [fio_str__small_s]. *)
Record fio_str_s : Type := mk_str {
  small : Z;
  frozen : Z;
  body : list cell
}.

(** Offsets of the heap fields inside [body]. *)
Definition capa_at : nat := 6.
Definition len_at : nat := 14.
Definition data_at : nat := 22.

Definition field (at_ : nat) (s : fio_str_s) : list cell :=
  take 8 (drop at_ (body s)).

Definition with_field (at_ : nat) (cs : list cell) (s : fio_str_s) : fio_str_s :=
  mk_str (small s) (frozen s) (splice at_ cs (body s)).

(** The compound literal
    [(fio_str_s){.small = .., .frozen = .., .capa = .., .len = .., .data = ..}]:
    members that are not named are zero. *)
Definition fio_str_lit (sm fr c l : Z) (d : pointer) : fio_str_s :=
  mk_str sm fr (replicate 6 zero ++ encode_size c ++ encode_size l ++ encode_ptr d).

(** [#define FIO_STR_INIT ((fio_str_s){.data = NULL, .small = 1})] *)
Definition FIO_STR_INIT : fio_str_s := fio_str_lit 1 0 0 0 NULL.

(** [#define FIO_STR_INIT_EXISTING(buffer, length, capacity)
      ((fio_str_s){.data = (buffer), .len = (length), .capa = (capacity)})] *)
Definition FIO_STR_INIT_EXISTING (buffer : pointer) (length capacity : Z)
  : fio_str_s :=
  fio_str_lit 0 0 capacity length buffer.

(** [typedef struct { size_t capa; size_t len; char *data; } fio_str_state_s;] *)
Record fio_str_state_s : Type := mk_state {
  capa : Z;
  len : Z;
  data : pointer
}.

(** ** The world: one container and the C heap *)

Record world : Type := mk_world {
  str : fio_str_s;
  heap : gmap nat (list cell);
  next_block : nat;
  (** the largest request the allocator grants; larger ones return [NULL] *)
  alloc_limit : Z
}.

Inductive fault : Type :=
| NullDeref       (* a null container or source is dereferenced *)
| OutOfBounds     (* access outside the object a pointer refers to *)
| BadRead         (* a field is read from bytes that do not hold its type *)
| InvalidFree     (* free/realloc of a pointer that malloc did not return *)
| Overlap.        (* memcpy on overlapping ranges *)

(** A call returns, terminates the process ([FIO_ASSERT_ALLOC]) or has
    undefined behaviour. *)
Inductive outcome (A : Type) : Type :=
| Ok (a : A) (w : world)
| Exit
| Fault (f : fault).
Arguments Ok {A} a w.
Arguments Exit {A}.
Arguments Fault {A} f.

Definition M (A : Type) : Type := world → outcome A.

Definition ret {A} (a : A) : M A := fun w => Ok a w.

Definition bind {A B} (m : M A) (k : A → M B) : M B :=
  fun w => match m w with
           | Ok a w' => k a w'
           | Exit => Exit
           | Fault f => Fault f
           end.

Definition fail {A} (f : fault) : M A := fun _ => Fault f.
Definition exit {A} : M A := fun _ => Exit.

Notation "'let*' x ':=' m 'in' k" := (bind m (fun x => k))
  (at level 10, x name, m at level 100, k at level 200).
Notation "m ';;' k" := (bind m (fun _ => k))
  (at level 100, k at level 200, right associativity).

Definition of_option {A} (f : fault) (o : option A) : M A :=
  match o with Some a => ret a | None => fail f end.

Definition get_str : M fio_str_s := fun w => Ok (str w) w.

Definition put_str (s : fio_str_s) : M unit :=
  fun w => Ok tt (mk_world s (heap w) (next_block w) (alloc_limit w)).

(** *** Field accesses through a pointer to [fio_str_s] *)

Definition get_small : M Z := let* s := get_str in ret (small s).
Definition get_frozen : M Z := let* s := get_str in ret (frozen s).
Definition get_capa : M Z :=
  let* s := get_str in of_option BadRead (decode_size (field capa_at s)).
Definition get_len : M Z :=
  let* s := get_str in of_option BadRead (decode_size (field len_at s)).
Definition get_data : M pointer :=
  let* s := get_str in of_option BadRead (decode_ptr (field data_at s)).

Definition set_small (v : Z) : M unit :=
  let* s := get_str in put_str (mk_str v (frozen s) (body s)).
Definition set_frozen (v : Z) : M unit :=
  let* s := get_str in put_str (mk_str (small s) v (body s)).
Definition set_capa (v : Z) : M unit :=
  let* s := get_str in put_str (with_field capa_at (encode_size v) s).
Definition set_len (v : Z) : M unit :=
  let* s := get_str in put_str (with_field len_at (encode_size v) s).
Definition set_data (p : pointer) : M unit :=
  let* s := get_str in put_str (with_field data_at (encode_ptr p) s).

(** *** Byte accesses through a pointer to [char] *)

Definition in_range (ofs n : Z) (l : list cell) : bool :=
  (0 <=? ofs) && (0 <=? n) && (ofs + n <=? Z.of_nat (length l)).

Definition slice (ofs n : Z) (l : list cell) : list cell :=
  take (Z.to_nat n) (drop (Z.to_nat ofs) l).

Definition load_cells (p : pointer) (n : Z) : M (list cell) :=
  fun w =>
    match p with
    | NULL => Fault NullDeref
    | small_data o =>
        if in_range o n (body (str w)) then Ok (slice o n (body (str w))) w
        else Fault OutOfBounds
    | heap_ptr b o =>
        match heap w !! b with
        | Some blk =>
            if in_range o n blk then Ok (slice o n blk) w else Fault OutOfBounds
        | None => Fault OutOfBounds
        end
    end.

Definition store_cells (p : pointer) (cs : list cell) : M unit :=
  fun w =>
    let n := Z.of_nat (length cs) in
    match p with
    | NULL => Fault NullDeref
    | small_data o =>
        if in_range o n (body (str w)) then
          Ok tt (mk_world
                   (mk_str (small (str w)) (frozen (str w))
                      (splice (Z.to_nat o) cs (body (str w))))
                   (heap w) (next_block w) (alloc_limit w))
        else Fault OutOfBounds
    | heap_ptr b o =>
        match heap w !! b with
        | Some blk =>
            if in_range o n blk then
              Ok tt (mk_world (str w)
                       (<[b := splice (Z.to_nat o) cs blk]> (heap w))
                       (next_block w) (alloc_limit w))
            else Fault OutOfBounds
        | None => Fault OutOfBounds
        end
    end.

(** [p[0] = v] *)
Definition store_byte (p : pointer) (v : Z) : M unit :=
  store_cells p [Byte (byte_of_Z v)].

Definition overlaps (p q : pointer) (n : Z) : bool :=
  match p, q with
  | small_data o1, small_data o2 => (o1 <? o2 + n) && (o2 <? o1 + n)
  | heap_ptr b1 o1, heap_ptr b2 o2 =>
      bool_decide (b1 = b2) && (o1 <? o2 + n) && (o2 <? o1 + n)
  | _, _ => false
  end.

(** [memmove(dst, src, n)]: the source is read before anything is written. *)
Definition memmove (dst src : pointer) (n : Z) : M unit :=
  let* cs := load_cells src n in store_cells dst cs.

(** [memcpy(dst, src, n)] between two places of this memory. *)
Definition memcpy (dst src : pointer) (n : Z) : M unit :=
  if overlaps dst src n then fail Overlap else memmove dst src n.

(** [memcpy(dst, src, n)] from a caller's buffer [src] ([None] is a null
    pointer); the buffer may be longer than [n]. *)
Definition memcpy_from (dst : pointer) (src : option (list byte)) (n : Z) : M unit :=
  match src with
  | None => fail NullDeref
  | Some bs =>
      if (0 <=? n) && (n <=? Z.of_nat (length bs))
      then store_cells dst (map Byte (take (Z.to_nat n) bs))
      else fail OutOfBounds
  end.

(** *** The allocator *)

(** A request is granted when it is not empty and within [alloc_limit]; a
    refused request returns [NULL].  For an empty request the C standard
    leaves the choice between [NULL] and a block of no bytes; the functions
    of the header make one only when [needed + 1] wraps to 0, which the
    statements about a refused request below exclude
    ([needed + 1 < size_modulus]). *)

Definition grants (n : Z) (w : world) : bool :=
  (0 <? n) && (n <=? alloc_limit w).

Definition malloc (n : Z) : M pointer :=
  fun w =>
    if grants n w then
      Ok (heap_ptr (next_block w) 0)
         (mk_world (str w)
            (<[next_block w := replicate (Z.to_nat n) Undef]> (heap w))
            (S (next_block w)) (alloc_limit w))
    else Ok NULL w.

(** [realloc] keeps the leading bytes; the model always hands out a new
    block, which the C standard allows. *)
Definition realloc (p : pointer) (n : Z) : M pointer :=
  fun w =>
    match p with
    | NULL => malloc n w
    | heap_ptr b 0 =>
        match heap w !! b with
        | Some blk =>
            if grants n w then
              Ok (heap_ptr (next_block w) 0)
                 (mk_world (str w)
                    (<[next_block w :=
                         take (Z.to_nat n) blk
                           ++ replicate (Z.to_nat n - length blk) Undef]>
                       (delete b (heap w)))
                    (S (next_block w)) (alloc_limit w))
            else Ok NULL w
        | None => Fault InvalidFree
        end
    | _ => Fault InvalidFree
    end.

Definition free (p : pointer) : M unit :=
  fun w =>
    match p with
    | NULL => Ok tt w
    | heap_ptr b 0 =>
        match heap w !! b with
        | Some _ =>
            Ok tt (mk_world (str w) (delete b (heap w)) (next_block w) (alloc_limit w))
        | None => Fault InvalidFree
        end
    | _ => Fault InvalidFree
    end.

(** [#define FIO_ASSERT_ALLOC(ptr) if (!(ptr)) { perror(..); exit(errno); }] *)
Definition FIO_ASSERT_ALLOC (p : pointer) : M unit :=
  if is_null p then exit else ret tt.

(** ** The functions of fio_str.h *)

(** A [fio_str_s] pointer argument: null, or the container of the world. *)
Inductive sref : Type := null | self.

(** An unguarded [s->...] *)
Definition deref (s : sref) : M unit :=
  match s with null => fail NullDeref | self => ret tt end.

(** [s->small || !s->data], evaluated left to right *)
Definition small_or_nodata : M bool :=
  let* sm := get_small in
  if sm =? 0 then (let* d := get_data in ret (is_null d)) else ret true.

(** [(fio_str_state_s){.capa = (FIO_STR_SMALL_CAPA - 1),
      .len = (size_t)(s->small >> 1), .data = the small data}] *)
Definition small_state : M fio_str_state_s :=
  let* sm := get_small in
  ret (mk_state (FIO_STR_SMALL_CAPA - 1) (Z.shiftr sm 1) (small_data 0)).

(** [(fio_str_state_s){.capa = s->capa, .len = s->len, .data = s->data}] *)
Definition heap_state : M fio_str_state_s :=
  let* c := get_capa in
  let* l := get_len in
  let* d := get_data in
  ret (mk_state c l d).

Definition fio_str_state (s : sref) : M fio_str_state_s :=
  match s with
  | null => ret (mk_state 0 0 NULL)
  | self =>
      let* sm := small_or_nodata in
      if sm then small_state else heap_state
  end.

Definition fio_str_free (s : sref) : M unit :=
  deref s ;;
  let* sm := get_small in
  (if sm =? 0 then (let* d := get_data in free d) else ret tt) ;;
  put_str FIO_STR_INIT.

Definition fio_str_len (s : sref) : M Z :=
  deref s ;;
  let* sm := small_or_nodata in
  if sm then (let* v := get_small in ret (Z.shiftr v 1)) else get_len.

Definition fio_str_data (s : sref) : M pointer :=
  deref s ;;
  let* sm := small_or_nodata in
  if sm then ret (small_data 0) else get_data.

Definition fio_str_bytes (s : sref) : M pointer := fio_str_data s.

Definition fio_str_capa (s : sref) : M Z :=
  deref s ;;
  let* sm := small_or_nodata in
  if sm then ret (FIO_STR_SMALL_CAPA - 1) else get_capa.

(** [(uint8_t)(((n << 1) | 1) & 0xFF)] *)
Definition small_tag (n : Z) : Z :=
  to_uint8_t (Z.land (Z.lor (size_shl n 1) 1) 255).

Definition fio_str_compact (s : sref) : M unit :=
  match s with
  | null => ret tt
  | self =>
      let* sm := small_or_nodata in
      if sm then ret tt else
      let* l := get_len in
      if l <? FIO_STR_SMALL_CAPA then
        (* shrink2small *)
        let* tmp := get_data in
        let* len := get_len in
        let* fr := get_frozen in
        put_str (fio_str_lit (small_tag len) fr 0 0 NULL) ;;
        (if len =? 0 then ret tt
         else memcpy (small_data 0) tmp (size_add len 1)) ;;
        free tmp
      else
        let* d := get_data in
        let* p := realloc d (size_add l 1) in
        set_data p ;;
        FIO_ASSERT_ALLOC p ;;
        let* l := get_len in
        set_capa l
  end.

Definition fio_str_capa_assert (s : sref) (needed : Z) : M fio_str_state_s :=
  match s with
  | null => ret (mk_state 0 0 NULL)
  | self =>
      let* sm := small_or_nodata in
      if sm then
        (* is_small *)
        if needed <? FIO_STR_SMALL_CAPA then small_state
        else
          let* tmp := malloc (size_add needed 1) in
          FIO_ASSERT_ALLOC tmp ;;
          let* v := get_small in
          (if Z.shiftr v 1 =? 0 then store_byte tmp 0
           else memcpy tmp (small_data 0) (size_add (Z.shiftr v 1) 1)) ;;
          let* v := get_small in
          put_str (fio_str_lit 0 0 needed (Z.shiftr v 1) tmp) ;;
          let* l := get_len in
          let* d := get_data in
          ret (mk_state needed l d)
      else
        let* c := get_capa in
        (if c <? needed then
           set_capa needed ;;
           let* d := get_data in
           let* c := get_capa in
           let* p := realloc d (size_add c 1) in
           set_data p ;;
           FIO_ASSERT_ALLOC p ;;
           let* d := get_data in
           let* c := get_capa in
           store_byte (ptr_add d c) 0
         else ret tt) ;;
        heap_state
  end.

Definition fio_str_resize (s : sref) (size : Z) : M fio_str_state_s :=
  match s with
  | null => fio_str_state s
  | self =>
      let* fr := get_frozen in
      if negb (fr =? 0) then fio_str_state s else
      fio_str_capa_assert s size ;;
      let* sm := small_or_nodata in
      if sm then
        set_small (small_tag size) ;;
        store_byte (small_data size) 0 ;;
        ret (mk_state (FIO_STR_SMALL_CAPA - 1) size (small_data 0))
      else
        set_len size ;;
        let* d := get_data in
        store_byte (ptr_add d size) 0 ;;
        let* c := get_capa in
        let* d := get_data in
        ret (mk_state c size d)
  end.

(** [fio_str_clear(s)] is [fio_str_resize((s), 0)]. *)
Definition fio_str_clear (s : sref) : M fio_str_state_s := fio_str_resize s 0.

(** [!s || !src_len || !src || s->frozen], evaluated left to right *)
Definition refuses (s : sref) (src : option (list byte)) (src_len : Z) : M bool :=
  match s with
  | null => ret true
  | self =>
      if src_len =? 0 then ret true
      else match src with
           | None => ret true
           | Some _ => let* fr := get_frozen in ret (negb (fr =? 0))
           end
  end.

Definition fio_str_write (s : sref) (src : option (list byte)) (src_len : Z)
  : M fio_str_state_s :=
  let* no := refuses s src src_len in
  if no then fio_str_state s else
  let* l := fio_str_len s in
  let* state := fio_str_resize s (size_add src_len l) in
  memcpy_from (ptr_add (data state) (size_sub (len state) src_len)) src src_len ;;
  ret state.

(** The source container of [fio_str_concat] lives in a memory of its own
    ([None] is a null pointer); it is only read. *)
Definition read_in {A} (src : world) (m : M A) : M A :=
  fun w => match m src with
           | Ok a _ => Ok a w
           | Exit => Exit
           | Fault f => Fault f
           end.

Definition fio_str_concat (dest : sref) (src : option world) : M fio_str_state_s :=
  match dest, src with
  | null, _ => fio_str_state dest
  | self, None => fio_str_state dest
  | self, Some srcw =>
      let* fr := get_frozen in
      if negb (fr =? 0) then fio_str_state dest else
      let* src_state := read_in srcw (fio_str_state self) in
      if len src_state =? 0 then fio_str_state dest else
      let* l := fio_str_len dest in
      let* state := fio_str_resize dest (size_add (len src_state) l) in
      let* cs := read_in srcw (load_cells (data src_state) (len src_state)) in
      store_cells
        (ptr_add (ptr_add (data state) (len state)) (- len src_state)) cs ;;
      ret state
  end.

(** [if (pos < 0) { pos += s->len + 1; if (pos < 0) pos = 0; }] *)
Definition resolve_pos (pos : Z) : M Z :=
  if pos <? 0 then
    let* l := get_len in
    let pos := to_intptr_t (size_add (to_size_t pos) (size_add l 1)) in
    ret (if pos <? 0 then 0 else pos)
  else ret pos.

Definition fio_str_overwrite (s : sref) (src : option (list byte)) (src_len : Z)
    (pos : Z) : M fio_str_state_s :=
  let* no := refuses s src src_len in
  if no then fio_str_state s else
  let* pos := resolve_pos pos in
  let* state := fio_str_state s in
  let pos := if len state <? to_size_t pos then to_intptr_t (len state) else pos in
  let* state :=
    (if len state <? size_add (to_size_t pos) src_len
     then fio_str_resize s (size_add (to_size_t pos) src_len)
     else ret state) in
  memcpy_from (ptr_add (data state) pos) src src_len ;;
  let* l := get_len in
  (if l <? size_add (to_size_t pos) src_len
   then set_len (size_add (to_size_t pos) src_len)
   else ret tt) ;;
  ret state.

Definition fio_str_insert (s : sref) (src : option (list byte)) (src_len : Z)
    (pos : Z) : M fio_str_state_s :=
  let* no := refuses s src src_len in
  if no then fio_str_state s else
  let* pos := resolve_pos pos in
  let* l := fio_str_len s in
  let* state := fio_str_resize s (size_add src_len l) in
  let pos :=
    if size_sub (len state) src_len <? to_size_t pos
    then to_intptr_t (size_sub (len state) src_len) else pos in
  (if negb (to_size_t pos =? len state)
   then memmove (ptr_add (ptr_add (data state) pos) src_len)
                (ptr_add (data state) pos) src_len
   else ret tt) ;;
  memcpy_from (ptr_add (data state) pos) src src_len ;;
  ret state.

Definition fio_str_freeze (s : sref) : M unit :=
  match s with
  | null => ret tt
  | self => set_frozen 1
  end.

(** ** Sequences of public operations *)

Inductive op : Type :=
| Initialize                       (* *s = FIO_STR_INIT *)
| Destroy                          (* fio_str_free *)
| EnsureCapacity (needed : Z)      (* fio_str_capa_assert *)
| Resize (size : Z)
| Write (src : option (list byte)) (src_len : Z)
| Concat (src : option world)
| Overwrite (src : option (list byte)) (src_len : Z) (pos : Z)
| Insert (src : option (list byte)) (src_len : Z) (pos : Z)
| Compact
| Freeze.

(** A call of a public operation; the snapshot it returns, if it returns
    one. *)
Definition call (s : sref) (o : op) : M (option fio_str_state_s) :=
  match o with
  | Initialize => deref s ;; put_str FIO_STR_INIT ;; ret None
  | Destroy => fio_str_free s ;; ret None
  | EnsureCapacity needed =>
      let* st := fio_str_capa_assert s needed in ret (Some st)
  | Resize size => let* st := fio_str_resize s size in ret (Some st)
  | Write src src_len => let* st := fio_str_write s src src_len in ret (Some st)
  | Concat src => let* st := fio_str_concat s src in ret (Some st)
  | Overwrite src src_len pos =>
      let* st := fio_str_overwrite s src src_len pos in ret (Some st)
  | Insert src src_len pos =>
      let* st := fio_str_insert s src src_len pos in ret (Some st)
  | Compact => fio_str_compact s ;; ret None
  | Freeze => fio_str_freeze s ;; ret None
  end.

Definition run_op (s : sref) (o : op) : M unit := call s o ;; ret tt.

Fixpoint run (s : sref) (os : list op) : M unit :=
  match os with
  | [] => ret tt
  | o :: os' => run_op s o ;; run s os'
  end.

(** A caller's buffer holding the bytes of a string literal. *)
Definition lit (s : string) : option (list byte) := Some (list_byte_of_string s).

(** A memory holding a just initialised container and nothing else. *)
Definition boot (limit : Z) : world := mk_world FIO_STR_INIT ∅ 0 limit.

(** The content [pointer[0 .. length - 1]] a snapshot refers to. *)
Definition contents (st : fio_str_state_s) : M (list cell) :=
  load_cells (data st) (len st).

(** The bytes [pointer[0 .. length]], terminator included. *)
Definition c_string (st : fio_str_state_s) : M (list cell) :=
  load_cells (data st) (len st + 1).

(** The representation a snapshot shows: its pointer refers to the
    container's own storage or to the heap. *)
Definition is_embedded (st : fio_str_state_s) : bool :=
  match data st with small_data _ => true | _ => false end.

(** The state up to the address of the buffer: representation, capacity,
    length and the bytes. *)
Definition view : M (bool * Z * Z * list cell) :=
  let* st := fio_str_state self in
  let* cs := c_string st in
  ret (is_embedded st, capa st, len st, cs).

(** The operations that test [s->frozen] before they touch the container. *)
Definition gated (o : op) : Prop :=
  match o with
  | Resize _ | Write _ _ | Concat _ | Overwrite _ _ _ | Insert _ _ _ | Freeze => True
  | _ => False
  end.

(** [fio_str_write], [fio_str_insert] and [fio_str_overwrite]. *)
Definition writes_content (o : op) : Prop :=
  match o with
  | Write _ _ | Overwrite _ _ _ | Insert _ _ _ => True
  | _ => False
  end.

(** The arguments have the values of their C types: sizes are [size_t],
    positions are [intptr_t]. *)
Definition well_typed (o : op) : Prop :=
  match o with
  | EnsureCapacity n | Resize n | Write _ n => 0 <= n < size_modulus
  | Overwrite _ n pos | Insert _ n pos =>
      0 <= n < size_modulus ∧ - 2 ^ 63 <= pos < 2 ^ 63
  | _ => True
  end.

(** The memory with the [frozen] byte of the container set to [v]. *)
Definition set_frozen_world (v : Z) (w : world) : world :=
  mk_world (mk_str (small (str w)) v (body (str w)))
    (heap w) (next_block w) (alloc_limit w).

(** ** Containers with a clear tag and a null [data] *)

Definition blank (w : world) : Prop :=
  small (str w) = 0 ∧ decode_ptr (field data_at (str w)) = Some NULL.

#[global] Instance blank_dec w : Decision (blank w).
Proof. unfold blank. apply _. Defined.

(** The same memory with the tag of the empty embedded string ([small = 1]). *)
Definition tagged (w : world) : world :=
  mk_world (mk_str 1 (frozen (str w)) (body (str w)))
    (heap w) (next_block w) (alloc_limit w).

Definition retag (w : world) : world :=
  if decide (blank w) then tagged w else w.

(** Two calls agree: both return the same value and leave the same memory up
    to the tag of a blank container, or both end in the same way. *)
Definition agree {A} (x y : outcome A) : Prop :=
  match x, y with
  | Ok a w, Ok a' w' => a = a' ∧ retag w = retag w'
  | Exit, Exit => True
  | Fault f, Fault f' => f = f'
  | _, _ => False
  end.

(** A call either returns without touching the memory, [w] or [tagged w],
    or goes the same way from both. *)
Definition tag_blind {A} (w : world) (f : M A) : Prop :=
  (∃ a, f w = Ok a w ∧ f (tagged w) = Ok a (tagged w)) ∨ f w = f (tagged w).

(** A container that was zero-initialised and never assigned
    [FIO_STR_INIT]. *)
Definition zeroed (limit : Z) : world :=
  mk_world (mk_str 0 0 (replicate 30 zero)) ∅ 0 limit.

(** ** Well-formed containers *)

(** The three ways [fio_str_state] reads a container: embedded with a tag,
    all-zero header with a null [data] (read as embedded and empty), or a
    heap buffer of at least [capa + 1] bytes (exactly that many when the
    functions of the header allocated it; [FIO_STR_INIT_EXISTING] takes any
    buffer from [malloc]). *)
Inductive shape (w : world) : Prop :=
| shape_small :
    small (str w) ≠ 0 →
    0 <= Z.shiftr (small (str w)) 1 < FIO_STR_SMALL_CAPA →
    shape w
| shape_blank :
    small (str w) = 0 →
    decode_ptr (field data_at (str w)) = Some NULL →
    shape w
| shape_heap (b : nat) (c l : Z) (blk : list cell) :
    small (str w) = 0 →
    decode_ptr (field data_at (str w)) = Some (heap_ptr b 0) →
    decode_size (field capa_at (str w)) = Some c →
    decode_size (field len_at (str w)) = Some l →
    heap w !! b = Some blk →
    c + 1 <= Z.of_nat (length blk) →
    0 <= l <= c →
    c + 1 < size_modulus →
    shape w.

Definition wf (w : world) : Prop :=
  Z.of_nat (length (body (str w))) = FIO_STR_SMALL_CAPA ∧ shape w.

Definition text (s : string) : list cell := map Byte (list_byte_of_string s).

(** The whole buffer a snapshot refers to: [capacity + 1] bytes. *)
Definition buffer (st : fio_str_state_s) : M (list cell) :=
  load_cells (data st) (capa st + 1).

(** A well-formed container shows the snapshot [st], and [B] is the buffer
    behind it. *)
Definition reads (w : world) (st : fio_str_state_s) (B : list cell) : Prop :=
  wf w ∧ fio_str_state self w = Ok st w ∧ buffer st w = Ok B w.

(** The block of the allocator a snapshot points into, if it does. *)
Definition block_of (st : fio_str_state_s) : gset nat :=
  match data st with
  | heap_ptr b _ => {[b]}
  | _ => ∅
  end.

(** ** The invariant of the container *)

(** A container in order: it is well formed, the byte at [pointer[length]]
    is 0, and its buffer, if it has one, is the only block of the heap. *)
Definition sound (w : world) : Prop :=
  ∃ st B,
    reads w st B
    ∧ B !! Z.to_nat (len st) = Some zero
    ∧ dom (heap w) = block_of st.

(** The calls that keep a container in order, with arguments of their C
    types: all but [fio_str_overwrite] and [fio_str_insert], and the
    assignment of [FIO_STR_INIT] to a container in use, which drops its
    buffer. *)
Definition orderly (o : op) : Prop :=
  match o with
  | Initialize | Overwrite _ _ _ | Insert _ _ _ => False
  | _ => well_typed o
  end.

(** The arguments of a call fit the container that shows [st]: a source
    buffer holds the bytes the call asks for, a source container is well
    formed, and the new length is below [SIZE_MAX], so that the
    [new length + 1] bytes the call may ask the allocator for are at least
    one. *)
Definition fits (st : fio_str_state_s) (o : op) : Prop :=
  match o with
  | EnsureCapacity n | Resize n => n + 1 < size_modulus
  | Write (Some bs) n =>
      n <= Z.of_nat (length bs) ∧ len st + n + 1 < size_modulus
  | Concat (Some srcw) =>
      wf srcw
      ∧ ∀ sst, fio_str_state self srcw = Ok sst srcw →
               len st + len sst + 1 < size_modulus
  | _ => True
  end.

(** ** The header's self test ([fio_str_test], under [DEBUG]) *)

(** [TEST_ASSERT(cond, ...)]: a failed assertion ends the process. *)
Definition TEST_ASSERT (cond : bool) : M unit :=
  if cond then ret tt else exit.

(** The cells from [p] to the end of the object it points into. *)
Definition load_tail (p : pointer) : M (list cell) :=
  fun w =>
    match p with
    | NULL => Fault NullDeref
    | small_data o =>
        if in_range o 0 (body (str w)) then Ok (drop (Z.to_nat o) (body (str w))) w
        else Fault OutOfBounds
    | heap_ptr b o =>
        match heap w !! b with
        | Some blk =>
            if in_range o 0 blk then Ok (drop (Z.to_nat o) blk) w
            else Fault OutOfBounds
        | None => Fault OutOfBounds
        end
    end.

(** The bytes before the first NUL. *)
Fixpoint until_nul (cs : list cell) : option (list byte) :=
  match cs with
  | [] => None
  | Byte b :: cs' =>
      if decide (b = x00) then Some [] else bs ← until_nul cs'; Some (b :: bs)
  | _ :: _ => None
  end.

(** The C string at [p], as [strlen] and [strcmp] read it. *)
Definition c_str (p : pointer) : M (list byte) :=
  let* cs := load_tail p in of_option OutOfBounds (until_nul cs).

Definition strlen (p : pointer) : M Z :=
  let* bs := c_str p in ret (Z.of_nat (length bs)).

(** [!strcmp(p, s)] for a literal [s] *)
Definition streq (p : pointer) (s : string) : M bool :=
  let* bs := c_str p in ret (bool_decide (bs = list_byte_of_string s)).

Definition fio_str_test : M unit :=
  put_str FIO_STR_INIT ;;
  let* c := fio_str_capa self in
  TEST_ASSERT (c =? FIO_STR_SMALL_CAPA - 1) ;;
  let* l := fio_str_len self in
  TEST_ASSERT (l =? 0) ;;
  let* d := fio_str_data self in
  TEST_ASSERT (bool_decide (d = small_data 0)) ;;
  fio_str_write self (lit "World") 4 ;;
  let* sm := get_small in
  TEST_ASSERT (negb (sm =? 0)) ;;
  let* c := fio_str_capa self in
  TEST_ASSERT (c =? FIO_STR_SMALL_CAPA - 1) ;;
  let* l := fio_str_len self in
  TEST_ASSERT (l =? 4) ;;
  let* d := fio_str_data self in
  TEST_ASSERT (bool_decide (d = small_data 0)) ;;
  let* n := strlen d in
  TEST_ASSERT (n =? 4) ;;
  let* e := streq d "Worl" in
  TEST_ASSERT e ;;

  fio_str_capa_assert self sizeof_fio_str_s ;;
  let* sm := get_small in
  TEST_ASSERT (sm =? 0) ;;
  let* c := fio_str_capa self in
  TEST_ASSERT (c =? sizeof_fio_str_s) ;;
  let* l := fio_str_len self in
  TEST_ASSERT (l =? 4) ;;
  let* d := fio_str_data self in
  let* sd := get_data in
  TEST_ASSERT (bool_decide (d = sd)) ;;
  let* n := strlen d in
  TEST_ASSERT (n =? 4) ;;
  let* e := streq d "Worl" in
  TEST_ASSERT e ;;

  fio_str_write self (lit "d!") 2 ;;
  let* d := fio_str_data self in
  let* e := streq d "World!" in
  TEST_ASSERT e ;;

  fio_str_insert self (lit "Hello ") 6 0 ;;
  let* d := fio_str_data self in
  let* e := streq d "Hello World!" in
  TEST_ASSERT e ;;

  (* str.capa = str.len; *)
  let* l := get_len in
  set_capa l ;;
  fio_str_overwrite self (lit "Big World!") 10 6 ;;
  let* d := fio_str_data self in
  let* e := streq d "Hello Big World!" in
  TEST_ASSERT e ;;
  let* c := fio_str_capa self in
  TEST_ASSERT (c =? 16) ;;
  let* l := get_len in
  (if l <? FIO_STR_SMALL_CAPA then
     fio_str_compact self ;;
     let* sm := get_small in
     TEST_ASSERT (negb (sm =? 0)) ;;
     let* l := fio_str_len self in
     TEST_ASSERT (l =? 16) ;;
     let* d := fio_str_data self in
     let* e := streq d "Hello Big World!" in
     TEST_ASSERT e ;;
     let* c := fio_str_capa self in
     TEST_ASSERT (c =? FIO_STR_SMALL_CAPA - 1)
   else ret tt) ;;

  fio_str_freeze self ;;
  let* old_state := fio_str_state self in
  fio_str_write self (lit "more data to be written here") 28 ;;
  fio_str_insert self (lit "more data to be written here") 28 (-1) ;;
  fio_str_overwrite self (lit "more data to be written here") 28 (-1) ;;
  let* new_state := fio_str_state self in
  TEST_ASSERT (len old_state =? len new_state) ;;
  TEST_ASSERT (bool_decide (data old_state = data new_state)) ;;
  TEST_ASSERT (capa old_state =? capa new_state) ;;

  fio_str_free self.

(** ** Sample memories *)

Definition after (os : list op) (w : world) : world :=
  match run self os w with
  | Ok _ w' => w'
  | _ => w
  end.

(** The embedded string ["Worl"] of the header's test. *)
Definition worl : world :=
  Eval vm_compute in after [Initialize; Write (lit "World") 4] (boot 64).

(** A frozen heap string ["abc"] with room for 100 bytes. *)
Definition frozen_abc : world :=
  Eval vm_compute in
    after [Initialize; EnsureCapacity 100; Write (lit "abc") 3; Freeze] (boot 256).

(** A heap string of 40 bytes with room for 100. *)
Definition forty : world :=
  Eval vm_compute in
    after [Initialize; EnsureCapacity 100;
           Write (lit "0123456789012345678901234567890123456789") 40] (boot 256).

(** The embedded string ["Worl"], frozen. *)
Definition frozen_worl : world :=
  Eval vm_compute in
    after [Initialize; Write (lit "World") 4; Freeze] (boot 64).

(** A buffer from [malloc] holding ["abc"], its terminator and four more
    bytes, in an otherwise empty heap. *)
Definition abc_buffer : list cell := text "abc" ++ [zero] ++ replicate 4 Undef.

Definition adopted : world :=
  mk_world (FIO_STR_INIT_EXISTING (heap_ptr 0 0) 3 7) {[0%nat := abc_buffer]} 1 64.

(** * Properties of the encoding *)

Lemma Z_of_byte_of_Z z : Z_of_byte (byte_of_Z z) = z mod 256.
Proof.
  unfold Z_of_byte, byte_of_Z.
  assert (H : 0 <= z mod 256 < 256) by (apply Z.mod_pos_bound; lia).
  destruct (Byte.of_N (Z.to_N (z mod 256))) as [b|] eqn:E.
  - apply Byte.to_of_N in E. simpl. rewrite E. lia.
  - apply Byte.of_N_None_iff in E. lia.
Qed.

Lemma decode_encode_le n v :
  decode_le (encode_le n v) = Some (v mod 2 ^ (8 * Z.of_nat n)).
Proof.
  revert v. induction n as [|n IH]; intros v.
  - simpl. rewrite Z.mod_1_r. reflexivity.
  - cbn [encode_le decode_le]. rewrite IH. cbn [mbind option_bind].
    f_equal. rewrite Z_of_byte_of_Z, Z.shiftr_div_pow2 by lia.
    replace (8 * Z.of_nat (S n)) with (8 + 8 * Z.of_nat n) by lia.
    rewrite Z.pow_add_r by lia.
    change (2 ^ 8) with 256.
    rewrite Z.rem_mul_r by lia. reflexivity.
Qed.

Lemma length_encode_le n v : length (encode_le n v) = n.
Proof. revert v. induction n; intros; simpl; auto. Qed.

Lemma length_encode_size v : length (encode_size v) = 8%nat.
Proof. apply length_encode_le. Qed.

Lemma decode_encode_size v :
  0 <= v < size_modulus → decode_size (encode_size v) = Some v.
Proof.
  intros Hv. unfold decode_size, encode_size.
  rewrite length_encode_le, decide_True by reflexivity.
  rewrite decode_encode_le. f_equal. apply Z.mod_small. exact Hv.
Qed.

Lemma length_encode_ptr p : length (encode_ptr p) = 8%nat.
Proof. destruct p; reflexivity. Qed.

Lemma decode_encode_ptr p : decode_ptr (encode_ptr p) = Some p.
Proof.
  destruct p as [|o|b o]; [reflexivity| |].
  - unfold decode_ptr. rewrite decide_False by discriminate.
    cbn [encode_ptr map seq]. rewrite decide_True; [reflexivity|].
    split; reflexivity.
  - unfold decode_ptr. rewrite decide_False by discriminate.
    cbn [encode_ptr map seq]. rewrite decide_True; [reflexivity|].
    split; reflexivity.
Qed.

(** * Lists as memory *)

Section splice.
Context {A : Type}.
Implicit Types (l cs : list A) (i k : nat).

Lemma length_splice i cs l :
  (i + length cs <= length l)%nat → length (splice i cs l) = length l.
Proof.
  intros H. unfold splice.
  rewrite !length_app, length_take, length_drop. lia.
Qed.

Lemma take_splice_le k i cs l :
  (k <= i)%nat → (i <= length l)%nat → take k (splice i cs l) = take k l.
Proof.
  intros Hk Hi. unfold splice.
  rewrite take_app_le by (rewrite length_take; lia).
  rewrite take_take. f_equal. lia.
Qed.

Lemma drop_splice_at i cs l :
  (i <= length l)%nat →
  drop i (splice i cs l) = cs ++ drop (i + length cs) l.
Proof.
  intros Hi. unfold splice.
  rewrite drop_app_length'; [reflexivity|].
  rewrite length_take. lia.
Qed.

Lemma read_splice_at i cs l :
  (i <= length l)%nat → take (length cs) (drop i (splice i cs l)) = cs.
Proof.
  intros Hi. rewrite drop_splice_at by exact Hi. apply take_app_length.
Qed.

Lemma drop_splice_ge k i cs l :
  (i + length cs <= k)%nat → (i + length cs <= length l)%nat →
  drop k (splice i cs l) = drop k l.
Proof.
  intros Hk Hl. unfold splice.
  rewrite drop_app_ge by (rewrite length_take; lia).
  rewrite length_take, Nat.min_l by lia.
  rewrite drop_app_ge by lia.
  rewrite drop_drop. f_equal. lia.
Qed.

Lemma read_splice_before i cs l j n :
  (j + n <= i)%nat → (i <= length l)%nat →
  take n (drop j (splice i cs l)) = take n (drop j l).
Proof.
  intros Hj Hi.
  rewrite !take_drop_commute. f_equal. apply take_splice_le; lia.
Qed.

Lemma read_splice_after i cs l j n :
  (i + length cs <= j)%nat → (i + length cs <= length l)%nat →
  take n (drop j (splice i cs l)) = take n (drop j l).
Proof. intros Hj Hl. rewrite drop_splice_ge by lia. reflexivity. Qed.
End splice.

(** * Fields of the container *)

Lemma field_with_field_same a cs s :
  length cs = 8%nat → (a + 8 <= length (body s))%nat →
  field a (with_field a cs s) = cs.
Proof.
  intros Hcs Ha. unfold field, with_field. cbn [body].
  rewrite <- Hcs. apply read_splice_at. lia.
Qed.

Lemma field_with_field_other a b cs s :
  length cs = 8%nat → (a + 8 <= b ∨ b + 8 <= a)%nat →
  (b + 8 <= length (body s))%nat →
  field a (with_field b cs s) = field a s.
Proof.
  intros Hcs Hab Hb. unfold field, with_field. cbn [body].
  destruct Hab.
  - apply read_splice_before; lia.
  - apply read_splice_after; lia.
Qed.

Lemma length_body_with_field a cs s :
  length cs = 8%nat → (a + 8 <= length (body s))%nat →
  length (body (with_field a cs s)) = length (body s).
Proof. intros Hcs Ha. unfold with_field. cbn [body]. apply length_splice. lia. Qed.

(** * Symbolic execution *)

Lemma in_range_true o n (l : list cell) :
  0 <= o → 0 <= n → o + n <= Z.of_nat (length l) → in_range o n l = true.
Proof.
  intros. unfold in_range.
  rewrite !andb_true_iff, !Z.leb_le. auto.
Qed.

Lemma size_add_small a b :
  0 <= a + b < size_modulus → size_add a b = a + b.
Proof. intros. unfold size_add, to_size_t. apply Z.mod_small. assumption. Qed.

Lemma ltb_true a b : a < b → (a <? b) = true.
Proof. apply Z.ltb_lt. Qed.
Lemma ltb_false a b : b <= a → (a <? b) = false.
Proof. apply Z.ltb_ge. Qed.
Lemma leb_true a b : a <= b → (a <=? b) = true.
Proof. apply Z.leb_le. Qed.
Lemma leb_false a b : b < a → (a <=? b) = false.
Proof. apply Z.leb_gt. Qed.
Lemma eqb_true a b : a = b → (a =? b) = true.
Proof. apply Z.eqb_eq. Qed.
Lemma eqb_false a b : a ≠ b → (a =? b) = false.
Proof. apply Z.eqb_neq. Qed.

Lemma field_lit_capa sm fr c l d : field capa_at (fio_str_lit sm fr c l d) = encode_size c.
Proof. reflexivity. Qed.

Lemma field_lit_len sm fr c l d : field len_at (fio_str_lit sm fr c l d) = encode_size l.
Proof. reflexivity. Qed.

Lemma field_lit_data sm fr c l d : field data_at (fio_str_lit sm fr c l d) = encode_ptr d.
Proof. destruct d; reflexivity. Qed.

Lemma length_body_lit sm fr c l d : length (body (fio_str_lit sm fr c l d)) = 30%nat.
Proof. destruct d; reflexivity. Qed.

Ltac mcbv :=
  cbv beta iota delta
    [bind ret fail exit of_option get_str put_str get_small get_frozen
     get_capa get_len get_data set_small set_frozen set_capa set_len set_data
     small_or_nodata small_state heap_state deref FIO_ASSERT_ALLOC store_byte
     memmove memcpy load_cells store_cells malloc realloc free grants];
  cbn [str heap next_block alloc_limit small frozen body capa len data
       is_null ptr_add andb negb overlaps].

Ltac side :=
  first
    [ apply length_encode_size
    | apply length_encode_ptr
    | repeat (rewrite length_body_with_field by side);
      solve [ cbv [capa_at len_at data_at size_modulus FIO_STR_SMALL_CAPA
                   sizeof_fio_str_s offsetof_reserved] in *;
              first [lia | left; lia | right; lia] ] ].

Ltac tests :=
  repeat match goal with
    | |- context [?a <? ?b] =>
        first [rewrite (ltb_true a b) by side | rewrite (ltb_false a b) by side]
    | |- context [?a <=? ?b] =>
        first [rewrite (leb_true a b) by side | rewrite (leb_false a b) by side]
    | |- context [?a =? ?b] =>
        first [rewrite (eqb_true a b) by side | rewrite (eqb_false a b) by side]
    end.

Ltac hyps :=
  repeat match goal with
    | H : decode_size ?x = _ |- context [decode_size ?x] => rewrite H
    | H : decode_ptr ?x = _ |- context [decode_ptr ?x] => rewrite H
    | H : heap ?w !! ?b = _ |- context [heap ?w !! ?b] => rewrite H
    end.

Ltac fields :=
  repeat first
    [ rewrite field_lit_capa
    | rewrite field_lit_len
    | rewrite field_lit_data
    | rewrite field_with_field_same by side
    | rewrite field_with_field_other by side
    | rewrite decode_encode_size by side
    | rewrite decode_encode_ptr
    | rewrite lookup_insert_eq
    | rewrite size_add_small by side ].

Ltac msimp := repeat (progress (mcbv; hyps; fields; tests)).

(** * A container that reads as a heap buffer *)

Section heap_shape.
Variables (w : world) (b : nat) (c l : Z) (blk : list cell).
Hypothesis Hbody : Z.of_nat (length (body (str w))) = FIO_STR_SMALL_CAPA.
Hypothesis Hsmall : small (str w) = 0.
Hypothesis Hdata : decode_ptr (field data_at (str w)) = Some (heap_ptr b 0).
Hypothesis Hcapa : decode_size (field capa_at (str w)) = Some c.
Hypothesis Hlen : decode_size (field len_at (str w)) = Some l.
Hypothesis Hblk : heap w !! b = Some blk.

Lemma heap_small_or_nodata : small_or_nodata w = Ok false w.
Proof. mcbv. rewrite Hsmall. msimp. reflexivity. Qed.

Lemma heap_state_eq : fio_str_state self w = Ok (mk_state c l (heap_ptr b 0)) w.
Proof.
  unfold fio_str_state, bind. rewrite heap_small_or_nodata. msimp. reflexivity.
Qed.

Lemma capa_assert_heap_keep needed :
  needed <= c →
  fio_str_capa_assert self needed w = Ok (mk_state c l (heap_ptr b 0)) w.
Proof.
  intros Hle. unfold fio_str_capa_assert, bind at 1.
  rewrite heap_small_or_nodata. msimp. reflexivity.
Qed.

Lemma capa_assert_heap_grow needed :
  c < needed → needed + 1 < size_modulus → 0 <= c →
  needed + 1 <= alloc_limit w →
  fio_str_capa_assert self needed w =
    Ok (mk_state needed l (heap_ptr (next_block w) 0))
       (mk_world
          (with_field data_at (encode_ptr (heap_ptr (next_block w) 0))
             (with_field capa_at (encode_size needed) (str w)))
          (<[next_block w :=
               splice (Z.to_nat needed) [zero]
                 (take (Z.to_nat (needed + 1)) blk
                    ++ replicate (Z.to_nat (needed + 1) - length blk) Undef)]>
             (delete b (heap w)))
          (S (next_block w)) (alloc_limit w)).
Proof.
  intros Hlt Hmax Hc0 Hlim.
  unfold fio_str_capa_assert, bind at 1.
  rewrite heap_small_or_nodata. msimp.
  rewrite in_range_true.
  2: lia. 2: simpl; lia.
  2:{ rewrite length_app, length_take, length_replicate. simpl length. lia. }
  msimp.
  rewrite insert_insert_eq. rewrite Z.add_0_l. reflexivity.
Qed.

Lemma capa_assert_heap_exit needed :
  c < needed → 0 <= needed < size_modulus →
  grants (size_add needed 1) w = false →
  fio_str_capa_assert self needed w = Exit.
Proof.
  intros Hlt Hn Hno. unfold grants in Hno.
  unfold fio_str_capa_assert, bind at 1.
  rewrite heap_small_or_nodata. msimp.
  rewrite Hno. msimp. reflexivity.
Qed.

Lemma compact_heap_exit :
  FIO_STR_SMALL_CAPA <= l → grants (size_add l 1) w = false →
  fio_str_compact self w = Exit.
Proof.
  intros Hge Hno. unfold grants in Hno.
  unfold fio_str_compact, bind at 1.
  rewrite heap_small_or_nodata. msimp.
  rewrite Hno. msimp. reflexivity.
Qed.

Lemma compact_heap_realloc :
  FIO_STR_SMALL_CAPA <= l → l + 1 < size_modulus → l + 1 <= alloc_limit w →
  fio_str_compact self w =
    Ok tt
       (mk_world
          (with_field capa_at (encode_size l)
             (with_field data_at (encode_ptr (heap_ptr (next_block w) 0)) (str w)))
          (<[next_block w :=
               take (Z.to_nat (l + 1)) blk
                 ++ replicate (Z.to_nat (l + 1) - length blk) Undef]>
             (delete b (heap w)))
          (S (next_block w)) (alloc_limit w)).
Proof.
  intros Hge Hmax Hlim.
  unfold fio_str_compact, bind at 1.
  rewrite heap_small_or_nodata. msimp. reflexivity.
Qed.

Lemma compact_heap_empty :
  l = 0 →
  fio_str_compact self w =
    Ok tt
       (mk_world (fio_str_lit (small_tag 0) (frozen (str w)) 0 0 NULL)
          (delete b (heap w)) (next_block w) (alloc_limit w)).
Proof.
  intros ->.
  unfold fio_str_compact, bind at 1.
  rewrite heap_small_or_nodata. msimp. reflexivity.
Qed.

Lemma compact_heap_demote :
  0 < l < FIO_STR_SMALL_CAPA → l + 1 <= Z.of_nat (length blk) →
  fio_str_compact self w =
    Ok tt
       (mk_world
          (mk_str (small_tag l) (frozen (str w))
             (splice 0 (slice 0 (l + 1) blk)
                (body (fio_str_lit (small_tag l) (frozen (str w)) 0 0 NULL))))
          (delete b (heap w)) (next_block w) (alloc_limit w)).
Proof.
  intros Hl Hfit.
  unfold fio_str_compact, bind at 1.
  rewrite heap_small_or_nodata. msimp.
  rewrite in_range_true by lia. msimp.
  rewrite in_range_true; [msimp; reflexivity|lia|lia|].
  unfold slice. rewrite length_take, length_drop. simpl length.
  unfold FIO_STR_SMALL_CAPA, sizeof_fio_str_s, offsetof_reserved in *. lia.
Qed.
End heap_shape.

(** * A container that reads as embedded *)

Lemma tagged_small_or_nodata w : small (str w) ≠ 0 → small_or_nodata w = Ok true w.
Proof. intros H. mcbv. rewrite eqb_false by assumption. reflexivity. Qed.

Lemma blank_small_or_nodata w :
  small (str w) = 0 → decode_ptr (field data_at (str w)) = Some NULL →
  small_or_nodata w = Ok true w.
Proof. intros H1 H2. mcbv. rewrite H1. msimp. reflexivity. Qed.

Section small_shape.
Variable w : world.
Hypothesis Hbody : Z.of_nat (length (body (str w))) = FIO_STR_SMALL_CAPA.
Hypothesis Hsm : small_or_nodata w = Ok true w.

Let n := Z.shiftr (small (str w)) 1.

Lemma small_state_eq :
  fio_str_state self w = Ok (mk_state (FIO_STR_SMALL_CAPA - 1) n (small_data 0)) w.
Proof. unfold fio_str_state, bind. rewrite Hsm. reflexivity. Qed.

Lemma compact_small : fio_str_compact self w = Ok tt w.
Proof. unfold fio_str_compact, bind. rewrite Hsm. reflexivity. Qed.

Lemma capa_assert_small_keep needed :
  needed < FIO_STR_SMALL_CAPA →
  fio_str_capa_assert self needed w =
    Ok (mk_state (FIO_STR_SMALL_CAPA - 1) n (small_data 0)) w.
Proof.
  intros Hlt. unfold fio_str_capa_assert, bind at 1. rewrite Hsm.
  rewrite ltb_true by assumption. reflexivity.
Qed.

Lemma capa_assert_small_exit needed :
  FIO_STR_SMALL_CAPA <= needed → grants (size_add needed 1) w = false →
  fio_str_capa_assert self needed w = Exit.
Proof.
  intros Hge Hno. unfold grants in Hno.
  unfold fio_str_capa_assert, bind at 1. rewrite Hsm.
  rewrite ltb_false by assumption. mcbv.
  rewrite Hno. reflexivity.
Qed.

Lemma capa_assert_small_promote needed :
  FIO_STR_SMALL_CAPA <= needed → needed + 1 < size_modulus →
  needed + 1 <= alloc_limit w → 0 <= n < FIO_STR_SMALL_CAPA →
  fio_str_capa_assert self needed w =
    Ok (mk_state needed n (heap_ptr (next_block w) 0))
       (mk_world (fio_str_lit 0 0 needed n (heap_ptr (next_block w) 0))
          (<[next_block w :=
               splice 0
                 (if n =? 0 then [zero] else slice 0 (n + 1) (body (str w)))
                 (replicate (Z.to_nat (needed + 1)) Undef)]> (heap w))
          (S (next_block w)) (alloc_limit w)).
Proof.
  intros Hge Hmax Hlim Hn.
  unfold fio_str_capa_assert, bind at 1. rewrite Hsm.
  rewrite ltb_false by assumption. msimp. fold n.
  assert (Hcap : FIO_STR_SMALL_CAPA = 30) by reflexivity.
  destruct (Z.eqb_spec n 0) as [Hz|Hnz].
  - msimp. rewrite in_range_true;
      [|lia|simpl; lia|rewrite length_replicate; simpl; lia].
    msimp. rewrite insert_insert_eq. reflexivity.
  - msimp. rewrite in_range_true by lia. msimp.
    rewrite in_range_true; [|lia|lia|].
    2:{ unfold slice. rewrite length_take, length_drop, length_replicate.
        simpl. lia. }
    msimp. rewrite insert_insert_eq. reflexivity.
Qed.
End small_shape.

Lemma grants_size_add a w :
  0 <= a < size_modulus →
  grants (size_add a 1) w = true ↔ a + 1 < size_modulus ∧ a + 1 <= alloc_limit w.
Proof.
  intros Ha. unfold grants, size_add, to_size_t.
  rewrite andb_true_iff, Z.ltb_lt, Z.leb_le.
  destruct (decide (a + 1 = size_modulus)) as [E|E].
  - rewrite E, Z_mod_same_full. lia.
  - rewrite Z.mod_small by lia. lia.
Qed.

(** * Reading the bytes of a container *)

Lemma slice_0 n (l : list cell) : slice 0 n l = take (Z.to_nat n) l.
Proof. reflexivity. Qed.

Lemma load_heap w b blk o n :
  heap w !! b = Some blk → 0 <= o → 0 <= n → o + n <= Z.of_nat (length blk) →
  load_cells (heap_ptr b o) n w = Ok (slice o n blk) w.
Proof.
  intros Hb Ho Hn Hfit. unfold load_cells. rewrite Hb, in_range_true by assumption.
  reflexivity.
Qed.

Lemma load_small w o n :
  0 <= o → 0 <= n → o + n <= Z.of_nat (length (body (str w))) →
  load_cells (small_data o) n w = Ok (slice o n (body (str w))) w.
Proof.
  intros Ho Hn Hfit. unfold load_cells. rewrite in_range_true by assumption.
  reflexivity.
Qed.

Lemma take_snoc_inv (l cs : list cell) t n :
  take (S n) l = cs ++ [t] → (S n <= length l)%nat → take n l = cs.
Proof.
  intros H Hl.
  assert (Hlen : length cs = n).
  { apply (f_equal length) in H.
    rewrite length_take_le, length_app in H by exact Hl.
    cbn [length] in H. lia. }
  replace (take n l) with (take n (take (S n) l))
    by (rewrite take_take; f_equal; lia).
  rewrite H. apply take_app_length'. symmetry. exact Hlen.
Qed.

Lemma wf_reading w :
  wf w →
  (small_or_nodata w = Ok true w
   ∧ 0 <= Z.shiftr (small (str w)) 1 < FIO_STR_SMALL_CAPA)
  ∨ (∃ b c l blk,
        small (str w) = 0
        ∧ decode_ptr (field data_at (str w)) = Some (heap_ptr b 0)
        ∧ decode_size (field capa_at (str w)) = Some c
        ∧ decode_size (field len_at (str w)) = Some l
        ∧ heap w !! b = Some blk
        ∧ c + 1 <= Z.of_nat (length blk)
        ∧ 0 <= l <= c
        ∧ c + 1 < size_modulus).
Proof.
  intros [Hbody [Hsm Hn|Hsm Hd|b c l blk Hsm Hd Hc Hl Hb Hblk Hlc Hmax]].
  - left. split; [apply tagged_small_or_nodata|]; assumption.
  - left. split; [apply blank_small_or_nodata; assumption|].
    rewrite Hsm. compute. split; [discriminate|reflexivity].
  - right. exists b, c, l, blk. auto 10.
Qed.

Lemma take_splice_0 (X R : list cell) k :
  (k <= length X)%nat → take k (splice 0 X R) = take k X.
Proof. intros Hk. unfold splice. rewrite take_0. simpl. apply take_app_le. exact Hk. Qed.

Lemma ok_inj {A} (a a' : A) w w' : Ok a w = Ok a' w' → a = a' ∧ w = w'.
Proof. intros H. injection H. auto. Qed.

(** What an embedded container shows, from the bytes of its body. *)
Lemma embedded_observed w st cs t :
  Z.of_nat (length (body (str w))) = FIO_STR_SMALL_CAPA →
  small_or_nodata w = Ok true w →
  0 <= Z.shiftr (small (str w)) 1 < FIO_STR_SMALL_CAPA →
  fio_str_state self w = Ok st w →
  c_string st w = Ok (cs ++ [t]) w →
  st = mk_state (FIO_STR_SMALL_CAPA - 1) (Z.shiftr (small (str w)) 1) (small_data 0)
  ∧ take (Z.to_nat (len st + 1)) (body (str w)) = cs ++ [t]
  ∧ take (Z.to_nat (len st)) (body (str w)) = cs.
Proof.
  intros Hbody Hsm Hn Hst Hcs.
  assert (Hcap : FIO_STR_SMALL_CAPA = 30) by reflexivity.
  rewrite (small_state_eq w Hsm) in Hst. apply ok_inj in Hst as [<- _].
  unfold c_string in Hcs. cbn [data len] in *.
  rewrite load_small, slice_0 in Hcs by lia.
  apply ok_inj in Hcs as [Hcs _].
  split; [reflexivity|]. split; [exact Hcs|].
  eapply take_snoc_inv; [|shelve].
  rewrite <- Hcs. f_equal. lia. Unshelve. lia.
Qed.

(** What a heap container shows, from the bytes of its buffer. *)
Lemma heap_observed w b c l blk st cs t :
  small (str w) = 0 →
  decode_ptr (field data_at (str w)) = Some (heap_ptr b 0) →
  decode_size (field capa_at (str w)) = Some c →
  decode_size (field len_at (str w)) = Some l →
  heap w !! b = Some blk →
  c + 1 <= Z.of_nat (length blk) →
  0 <= l <= c →
  fio_str_state self w = Ok st w →
  c_string st w = Ok (cs ++ [t]) w →
  st = mk_state c l (heap_ptr b 0)
  ∧ take (Z.to_nat (l + 1)) blk = cs ++ [t]
  ∧ take (Z.to_nat l) blk = cs.
Proof.
  intros Hsm Hd Hc Hl Hb Hblk Hlc Hst Hcs.
  rewrite (heap_state_eq w b c l) in Hst by assumption.
  apply ok_inj in Hst as [<- _].
  unfold c_string in Hcs. cbn [data len] in Hcs.
  rewrite (load_heap w b blk), slice_0 in Hcs by (try assumption; lia).
  apply ok_inj in Hcs as [Hcs _].
  split; [reflexivity|]. split; [exact Hcs|].
  eapply take_snoc_inv; [|shelve].
  rewrite <- Hcs. f_equal. lia. Unshelve. lia.
Qed.

(** Promotion: the embedded bytes move to a new block of [needed + 1]
    bytes; nothing is freed. *)
Lemma promote_spec w needed cs t :
  Z.of_nat (length (body (str w))) = FIO_STR_SMALL_CAPA →
  small_or_nodata w = Ok true w →
  let n := Z.shiftr (small (str w)) 1 in
  0 <= n < FIO_STR_SMALL_CAPA →
  take (Z.to_nat (n + 1)) (body (str w)) = cs ++ [t] →
  FIO_STR_SMALL_CAPA <= needed → needed + 1 < size_modulus →
  needed + 1 <= alloc_limit w →
  ∃ w' blk,
    let st' := mk_state needed n (heap_ptr (next_block w) 0) in
    fio_str_capa_assert self needed w = Ok st' w'
    ∧ fio_str_state self w' = Ok st' w'
    ∧ heap w' = <[next_block w := blk]> (heap w)
    ∧ Z.of_nat (length blk) = needed + 1
    ∧ contents st' w' = Ok cs w'
    ∧ c_string st' w' = Ok (cs ++ [if n =? 0 then zero else t]) w'.
Proof.
  intros Hbody Hsm n Hn Hcs Hge Hmax Hlim.
  assert (Hcap : FIO_STR_SMALL_CAPA = 30) by reflexivity.
  assert (Hcs' : take (Z.to_nat n) (body (str w)) = cs).
  { eapply take_snoc_inv; [|shelve].
    rewrite <- Hcs. f_equal. lia. Unshelve. lia. }
  rewrite capa_assert_small_promote by (try assumption; fold n; lia).
  fold n.
  set (X := if n =? 0 then [zero] else slice 0 (n + 1) (body (str w))).
  set (blk' := splice 0 X (replicate (Z.to_nat (needed + 1)) Undef)).
  set (w' := mk_world _ _ _ _).
  assert (HX : length X = Z.to_nat (n + 1)).
  { subst X. destruct (Z.eqb_spec n 0) as [->|]; [reflexivity|].
    rewrite slice_0, length_take. lia. }
  assert (HXcs : X = cs ++ [if n =? 0 then zero else t]).
  { subst X. destruct (Z.eqb_spec n 0) as [Hz|Hnz].
    - rewrite Hz in Hcs'. cbn in Hcs'. subst cs. reflexivity.
    - rewrite slice_0. exact Hcs. }
  assert (Hblk' : length blk' = Z.to_nat (needed + 1)).
  { subst blk'. rewrite length_splice; rewrite length_replicate; lia. }
  assert (Hw' : heap w' !! next_block w = Some blk')
    by (subst w'; cbn [heap]; apply lookup_insert_eq).
  exists w', blk'. cbv zeta. split; [reflexivity|].
  split.
  { apply heap_state_eq; subst w'; cbn [str heap small];
      rewrite ?field_lit_data, ?field_lit_capa, ?field_lit_len,
        ?decode_encode_ptr, ?decode_encode_size; try reflexivity; try lia.
    all: unfold size_modulus in *; lia. }
  split; [reflexivity|]. split; [lia|].
  unfold contents, c_string. cbn [data len].
  rewrite !(load_heap w' _ blk') by (try assumption; lia).
  rewrite !slice_0. subst blk'. rewrite !take_splice_0 by lia.
  split; f_equal.
  - rewrite HXcs. apply take_app_length'.
    apply (f_equal length) in HXcs. rewrite HX, length_app in HXcs.
    cbn [length] in HXcs. lia.
  - rewrite <- HXcs. apply take_ge. lia.
Qed.

(** Growth: [realloc] hands out a block of [needed + 1] bytes with the old
    bytes in front, and the old block is gone. *)
Lemma grow_spec w b c l blk needed cs t :
  Z.of_nat (length (body (str w))) = FIO_STR_SMALL_CAPA →
  small (str w) = 0 →
  decode_ptr (field data_at (str w)) = Some (heap_ptr b 0) →
  decode_size (field capa_at (str w)) = Some c →
  decode_size (field len_at (str w)) = Some l →
  heap w !! b = Some blk →
  c + 1 <= Z.of_nat (length blk) →
  0 <= l <= c →
  take (Z.to_nat (l + 1)) blk = cs ++ [t] →
  c < needed → needed + 1 < size_modulus → needed + 1 <= alloc_limit w →
  ∃ w' blk',
    let st' := mk_state needed l (heap_ptr (next_block w) 0) in
    fio_str_capa_assert self needed w = Ok st' w'
    ∧ fio_str_state self w' = Ok st' w'
    ∧ heap w' = <[next_block w := blk']> (delete b (heap w))
    ∧ Z.of_nat (length blk') = needed + 1
    ∧ contents st' w' = Ok cs w'
    ∧ c_string st' w' = Ok (cs ++ [t]) w'.
Proof.
  intros Hbody Hsm Hd Hc Hl Hb Hblk Hlc Hcs Hgt Hmax Hlim.
  assert (Hcs' : take (Z.to_nat l) blk = cs).
  { eapply take_snoc_inv; [|shelve].
    rewrite <- Hcs. f_equal. lia. Unshelve. lia. }
  rewrite (capa_assert_heap_grow w b c l blk) by (try assumption; lia).
  set (R := take (Z.to_nat (needed + 1)) blk
              ++ replicate (Z.to_nat (needed + 1) - length blk) Undef).
  set (blk' := splice (Z.to_nat needed) [zero] R).
  set (w' := mk_world _ _ _ _).
  assert (HR : length R = Z.to_nat (needed + 1)).
  { subst R. rewrite length_app, length_take, length_replicate. lia. }
  assert (Hblk' : length blk' = Z.to_nat (needed + 1)).
  { subst blk'. rewrite length_splice; cbn [length]; lia. }
  assert (Hw' : heap w' !! next_block w = Some blk')
    by (subst w'; cbn [heap]; apply lookup_insert_eq).
  assert (Hpre : ∀ k, (k <= Z.to_nat (l + 1))%nat → take k blk' = take k blk).
  { intros k Hk. subst blk'. rewrite take_splice_le by lia.
    subst R. rewrite take_app_le by (rewrite length_take; lia).
    rewrite take_take. f_equal. lia. }
  exists w', blk'. cbv zeta. split; [reflexivity|].
  split.
  { apply heap_state_eq; subst w'; cbn [str heap small];
      try assumption; fields; hyps; try reflexivity. }
  split; [reflexivity|]. split; [lia|].
  unfold contents, c_string. cbn [data len].
  rewrite !(load_heap w' _ blk') by (try assumption; lia).
  rewrite !slice_0, !Hpre by lia.
  split; f_equal; assumption.
Qed.

(** [fio_str_capa_assert] keeps length and content, whatever it does to the
    buffer. *)
Lemma capa_assert_preserves w needed st cs t :
  wf w →
  0 <= needed → needed + 1 < size_modulus →
  fio_str_state self w = Ok st w →
  c_string st w = Ok (cs ++ [t]) w →
  (capa st < needed → needed + 1 <= alloc_limit w) →
  ∃ st' w',
    fio_str_capa_assert self needed w = Ok st' w'
    ∧ fio_str_state self w' = Ok st' w'
    ∧ len st' = len st
    ∧ contents st' w' = Ok cs w'.
Proof.
  intros Hwf Hn0 Hmax Hst Hcs Hlim.
  pose proof Hwf as [Hbody _].
  assert (Hcap : FIO_STR_SMALL_CAPA = 30) by reflexivity.
  destruct (wf_reading w Hwf)
    as [[Hsm Hn]|(b & c & l & blk & Hsm & Hd & Hc & Hl & Hb & Hblk & Hlc & Hcmax)].
  - destruct (embedded_observed w st cs t Hbody Hsm Hn Hst Hcs) as (-> & Hcs1 & Hcs0).
    cbn [capa len] in *.
    destruct (Z.ltb_spec needed FIO_STR_SMALL_CAPA) as [Hlt|Hge].
    + eexists _, w. rewrite capa_assert_small_keep by assumption.
      split; [reflexivity|]. split; [apply small_state_eq; assumption|].
      split; [reflexivity|].
      unfold contents. cbn [data len]. rewrite load_small, slice_0 by lia.
      f_equal. exact Hcs0.
    + destruct (promote_spec w needed cs t Hbody Hsm Hn Hcs1 Hge Hmax)
        as (w' & blk' & Hrun & Hst' & _ & _ & Hcont & _); [lia|].
      eexists _, w'. rewrite Hrun. auto.
  - destruct (heap_observed w b c l blk st cs t) as (-> & Hcs1 & Hcs0);
      try assumption.
    cbn [capa len] in *.
    destruct (Z.leb_spec needed c) as [Hle|Hgt].
    + eexists _, w. rewrite (capa_assert_heap_keep w b c l) by assumption.
      split; [reflexivity|]. split; [apply heap_state_eq; assumption|].
      split; [reflexivity|].
      unfold contents. cbn [data len].
      rewrite (load_heap w b blk), slice_0 by (try assumption; lia).
      f_equal. exact Hcs0.
    + destruct (grow_spec w b c l blk needed cs t)
        as (w' & blk' & Hrun & Hst' & _ & _ & Hcont & _); try assumption; try lia.
      eexists _, w'. rewrite Hrun. auto.
Qed.

(** * The tag of an embedded string *)

Lemma small_tag_spec n : 0 <= n < 128 → small_tag n = 2 * n + 1.
Proof.
  intros Hn. unfold small_tag, size_shl, to_size_t, to_uint8_t.
  rewrite Z.shiftl_mul_pow2 by lia.
  rewrite (Z.mod_small (n * 2 ^ 1)) by (unfold size_modulus; lia).
  change 255 with (Z.ones 8). rewrite Z.land_ones by lia.
  replace (Z.lor (n * 2 ^ 1) 1) with (2 * n + 1).
  - rewrite Z.mod_mod by lia. apply Z.mod_small. lia.
  - destruct n as [|p|p]; [reflexivity| |lia].
    replace (Z.pos p * 2 ^ 1) with (Z.pos p~0) by lia. reflexivity.
Qed.

Lemma small_tag_len n : 0 <= n < 128 → Z.shiftr (small_tag n) 1 = n.
Proof.
  intros Hn. rewrite small_tag_spec by assumption.
  rewrite Z.shiftr_div_pow2 by lia. change (2 ^ 1) with 2.
  Z.div_mod_to_equations. lia.
Qed.

Lemma wf_observable w :
  wf w →
  ∃ st cs t,
    fio_str_state self w = Ok st w
    ∧ 0 <= len st
    ∧ contents st w = Ok cs w
    ∧ c_string st w = Ok (cs ++ [t]) w.
Proof.
  intros Hwf. pose proof Hwf as [Hbody _].
  assert (Hcap : FIO_STR_SMALL_CAPA = 30) by reflexivity.
  assert (Hsplit : ∀ (l : list cell) n, (S n <= length l)%nat →
            ∃ t, take (S n) l = take n l ++ [t]).
  { intros l n Hl. destruct (lookup_lt_is_Some_2 l n) as [t Ht]; [lia|].
    exists t. apply take_S_r. exact Ht. }
  destruct (wf_reading w Hwf)
    as [[Hsm Hn]|(b & c & l & blk & Hsm & Hd & Hc & Hl & Hb & Hblk & Hlc & Hcmax)].
  - destruct (Hsplit (body (str w)) (Z.to_nat (Z.shiftr (small (str w)) 1)))
      as [t Ht]; [lia|].
    eexists _, _, t. split; [apply small_state_eq; assumption|].
    cbn [len data]. split; [lia|]. unfold contents, c_string. cbn [len data].
    rewrite !load_small, !slice_0 by lia. split; [reflexivity|].
    f_equal. rewrite <- Ht. f_equal. lia.
  - destruct (Hsplit blk (Z.to_nat l)) as [t Ht]; [lia|].
    eexists _, _, t. split; [apply (heap_state_eq w b c l); assumption|].
    cbn [len data]. split; [lia|]. unfold contents, c_string. cbn [len data].
    rewrite !(load_heap w b blk), !slice_0 by (try assumption; lia).
    split; [reflexivity|].
    f_equal. rewrite <- Ht. f_equal. lia.
Qed.

Ltac by_shape L := erewrite L; [|first [eassumption | lia]..].

(** * What [fio_str_compact] does to a well-formed container *)

Lemma compact_spec w st cs t :
  wf w →
  fio_str_state self w = Ok st w →
  c_string st w = Ok (cs ++ [t]) w →
  (FIO_STR_SMALL_CAPA <= len st → len st + 1 <= alloc_limit w) →
  ∃ w1 st1,
    fio_str_compact self w = Ok tt w1
    ∧ wf w1
    ∧ alloc_limit w1 = alloc_limit w
    ∧ frozen (str w1) = frozen (str w)
    ∧ fio_str_state self w1 = Ok st1 w1
    ∧ len st1 = len st
    ∧ c_string st1 w1
      = Ok (cs ++ [if negb (is_embedded st) && (len st =? 0) then zero else t]) w1
    ∧ if is_embedded st then w1 = w ∧ st1 = st
      else if len st <? FIO_STR_SMALL_CAPA
           then is_embedded st1 = true ∧ capa st1 = FIO_STR_SMALL_CAPA - 1
           else is_embedded st1 = false ∧ capa st1 = len st.
Proof.
  intros Hwf Hst Hcs Hlim.
  pose proof Hwf as [Hbody _].
  assert (Hcap : FIO_STR_SMALL_CAPA = 30) by reflexivity.
  destruct (wf_reading w Hwf)
    as [[Hsm Hn]|(b & c & l & blk & Hsm & Hd & Hc & Hl & Hb & Hblk & Hlc & Hcmax)].
  - (* embedded: nothing happens *)
    rewrite (small_state_eq w Hsm) in Hst. apply ok_inj in Hst as [<- _].
    exists w. eexists. rewrite compact_small by assumption.
    split; [reflexivity|]. split; [assumption|].
    split; [reflexivity|]. split; [reflexivity|].
    split; [apply small_state_eq; assumption|].
    split; [reflexivity|]. cbn [is_embedded data negb andb].
    split; [exact Hcs|]. split; reflexivity.
  - rewrite (heap_state_eq w b c l) in Hst by assumption.
    apply ok_inj in Hst as [<- _].
    unfold c_string in Hcs. cbn [data len] in Hcs.
    rewrite (load_heap w b blk), slice_0 in Hcs by (try assumption; lia).
    apply ok_inj in Hcs as [Hcs _].
    cbn [capa len data is_embedded negb andb] in *.
    destruct (Z.ltb_spec l FIO_STR_SMALL_CAPA) as [Hlt|Hge].
    + destruct (Z.eqb_spec l 0) as [Hz|Hnz].
      * (* demotion of an empty string *)
        by_shape compact_heap_empty.
        set (w1 := mk_world _ _ _ _).
        assert (Hsm1 : small_or_nodata w1 = Ok true w1)
          by (apply tagged_small_or_nodata; subst w1; cbn; discriminate).
        exists w1. eexists. split; [reflexivity|].
        split.
        { split; [reflexivity|]. apply shape_small; subst w1; cbn; [discriminate|].
          split; [discriminate|reflexivity]. }
        split; [reflexivity|]. split; [reflexivity|].
        split; [apply small_state_eq; assumption|].
        split; [subst l; reflexivity|].
        split; [|split; reflexivity].
        unfold c_string. cbn [data len]. subst l.
        assert (cs = []) as ->.
        { apply (f_equal length) in Hcs. rewrite length_take, length_app in Hcs.
          cbn in Hcs. destruct cs; [reflexivity|cbn in Hcs; lia]. }
        reflexivity.
      * (* demotion *)
        by_shape compact_heap_demote.
        set (X := slice 0 (l + 1) blk).
        set (w1 := mk_world _ _ _ _).
        assert (HX : length X = Z.to_nat (l + 1))
          by (subst X; rewrite slice_0, length_take; lia).
        assert (Hb1 : length (body (str w1)) = 30%nat).
        { subst w1. cbn [str body]. rewrite length_splice; rewrite length_body_lit; lia. }
        assert (Hl1 : Z.shiftr (small (str w1)) 1 = l)
          by (subst w1; cbn [str small]; apply small_tag_len; lia).
        assert (Hsm1 : small_or_nodata w1 = Ok true w1).
        { apply tagged_small_or_nodata. subst w1. cbn [str small].
          rewrite small_tag_spec; lia. }
        exists w1. eexists. split; [reflexivity|].
        split.
        { split; [lia|]. apply shape_small.
          - subst w1. cbn [str small]. rewrite small_tag_spec; lia.
          - rewrite Hl1. lia. }
        split; [reflexivity|]. split; [reflexivity|].
        split; [apply small_state_eq; assumption|].
        rewrite Hl1. split; [reflexivity|].
        split; [|split; reflexivity].
        unfold c_string. cbn [data len].
        rewrite load_small by lia. f_equal.
        subst w1. cbn [str body]. rewrite slice_0, take_splice_0 by lia.
        subst X. rewrite slice_0, take_take, Nat.min_id. exact Hcs.
    + (* the buffer is cut to length + 1 bytes *)
      by_shape compact_heap_realloc.
      set (blk1 := take (Z.to_nat (l + 1)) blk ++ _).
      set (w1 := mk_world _ _ _ _).
      assert (Hblk1 : blk1 = take (Z.to_nat (l + 1)) blk).
      { subst blk1. replace (Z.to_nat (l + 1) - length blk)%nat with 0%nat by lia.
        apply app_nil_r. }
      assert (Hlen1 : length blk1 = Z.to_nat (l + 1))
        by (rewrite Hblk1, length_take; lia).
      assert (Hst1 : fio_str_state self w1 = Ok (mk_state l l (heap_ptr (next_block w) 0)) w1).
      { apply heap_state_eq; subst w1; cbn [str heap small];
          try assumption; fields; hyps; try reflexivity. }
      exists w1. eexists. split; [reflexivity|].
      split.
      { split; [subst w1; cbn [str]; rewrite !length_body_with_field by side; assumption|].
        apply (shape_heap w1 (next_block w) l l blk1); subst w1; cbn [str heap small];
          try assumption; fields; hyps; try reflexivity; try lia. }
      split; [reflexivity|]. split; [reflexivity|].
      split; [exact Hst1|]. split; [reflexivity|].
      split; [|split; reflexivity].
      unfold c_string. cbn [data len].
      rewrite (load_heap w1 _ blk1);
        [|subst w1; cbn [heap]; apply lookup_insert_eq|lia..].
      f_equal. rewrite slice_0, Hblk1, take_take, Nat.min_id.
      rewrite eqb_false by lia. exact Hcs.
Qed.

(** * Frozen containers *)

Lemma freeze_eq w : fio_str_freeze self w = Ok tt (set_frozen_world 1 w).
Proof. reflexivity. Qed.

Lemma set_frozen_world_id w : set_frozen_world (frozen (str w)) w = w.
Proof. destruct w as [[sm fr bd] h n lim]. reflexivity. Qed.

Lemma state_ignores_frozen w st v :
  fio_str_state self w = Ok st w →
  fio_str_state self (set_frozen_world v w) = Ok st (set_frozen_world v w).
Proof.
  destruct w as [[sm fr bd] h n lim].
  unfold fio_str_state, set_frozen_world. mcbv. unfold field. cbn [body].
  intros H.
  repeat (case_match; mcbv; unfold field in *; cbn [str body] in *; simplify_eq);
    reflexivity.
Qed.

Lemma refuses_frozen w src n :
  frozen (str w) ≠ 0 → refuses self src n w = Ok true w.
Proof.
  intros Hfr. unfold refuses.
  destruct (n =? 0); [reflexivity|].
  destruct src; [|reflexivity].
  mcbv. rewrite eqb_false by assumption. reflexivity.
Qed.

Section frozen.
Variables (w : world) (st : fio_str_state_s).
Hypothesis Hfr : frozen (str w) ≠ 0.
Hypothesis Hst : fio_str_state self w = Ok st w.

Lemma resize_frozen size : fio_str_resize self size w = Ok st w.
Proof.
  unfold fio_str_resize. mcbv. rewrite eqb_false by assumption.
  exact Hst.
Qed.

Lemma write_frozen src n : fio_str_write self src n w = Ok st w.
Proof.
  unfold fio_str_write, bind. rewrite refuses_frozen by assumption. exact Hst.
Qed.

Lemma overwrite_frozen src n pos : fio_str_overwrite self src n pos w = Ok st w.
Proof.
  unfold fio_str_overwrite, bind. rewrite refuses_frozen by assumption.
  exact Hst.
Qed.

Lemma insert_frozen src n pos : fio_str_insert self src n pos w = Ok st w.
Proof.
  unfold fio_str_insert, bind. rewrite refuses_frozen by assumption.
  exact Hst.
Qed.

Lemma concat_frozen src : fio_str_concat self src w = Ok st w.
Proof.
  unfold fio_str_concat. destruct src; [|exact Hst].
  mcbv. rewrite eqb_false by assumption. exact Hst.
Qed.

Lemma call_writes_frozen o :
  writes_content o → call self o w = Ok (Some st) w.
Proof.
  destruct o; cbn [writes_content]; intros []; unfold call, bind.
  - rewrite write_frozen. reflexivity.
  - rewrite overwrite_frozen. reflexivity.
  - rewrite insert_frozen. reflexivity.
Qed.

Lemma run_op_gated_frozen o :
  frozen (str w) = 1 → gated o → run_op self o w = Ok tt w.
Proof.
  intros H1.
  destruct o; cbn [gated]; intros []; unfold run_op, call, bind.
  - rewrite resize_frozen. reflexivity.
  - rewrite write_frozen. reflexivity.
  - rewrite concat_frozen. reflexivity.
  - rewrite overwrite_frozen. reflexivity.
  - rewrite insert_frozen. reflexivity.
  - rewrite freeze_eq. rewrite <- H1, set_frozen_world_id. reflexivity.
Qed.

Lemma run_gated_frozen ops :
  frozen (str w) = 1 → Forall gated ops → run self ops w = Ok tt w.
Proof.
  intros H1. induction 1 as [|o ops Ho _ IH]; [reflexivity|].
  cbn [run]. unfold bind. rewrite run_op_gated_frozen by assumption.
  exact IH.
Qed.
End frozen.

Lemma writes_content_gated o : writes_content o → gated o.
Proof. destruct o; cbn; auto. Qed.

Lemma wf_capa w st :
  wf w → fio_str_state self w = Ok st w →
  capa st + 1 < size_modulus
  ∧ (is_embedded st = true → capa st = FIO_STR_SMALL_CAPA - 1 ∧ len st < FIO_STR_SMALL_CAPA).
Proof.
  intros Hwf Hst.
  destruct (wf_reading w Hwf)
    as [[Hsm Hn]|(b & c & l & blk & Hsm & Hd & Hc & Hl & Hb & Hblk & Hlc & Hcmax)].
  - rewrite (small_state_eq w Hsm) in Hst. apply ok_inj in Hst as [<- _].
    cbn [capa len]. split; [reflexivity|]. intros _. split; [reflexivity|lia].
  - rewrite (heap_state_eq w b c l) in Hst by assumption.
    apply ok_inj in Hst as [<- _]. cbn. split; [assumption|discriminate].
Qed.

Lemma c_string_contents w st cs t :
  c_string st w = Ok (cs ++ [t]) w → 0 <= len st → contents st w = Ok cs w.
Proof.
  unfold c_string, contents, load_cells. intros H Hl.
  assert (Hgen : ∀ o (l : list cell),
            in_range o (len st + 1) l = true → slice o (len st + 1) l = cs ++ [t] →
            in_range o (len st) l = true ∧ slice o (len st) l = cs).
  { intros o l Hin Hsl. unfold in_range in *.
    rewrite !andb_true_iff, !Z.leb_le in *.
    split; [lia|]. unfold slice in *.
    replace (Z.to_nat (len st + 1)) with (S (Z.to_nat (len st))) in Hsl by lia.
    eapply take_snoc_inv; [exact Hsl|]. rewrite length_drop. lia. }
  destruct (data st) as [|o|b o]; [discriminate| |].
  - destruct (in_range o (len st + 1) (body (str w))) eqn:Hin; [|discriminate].
    apply ok_inj in H as [H _]. destruct (Hgen _ _ Hin H) as [-> ->]. reflexivity.
  - destruct (heap w !! b) as [blk|]; [|discriminate].
    destruct (in_range o (len st + 1) blk) eqn:Hin; [|discriminate].
    apply ok_inj in H as [H _]. destruct (Hgen _ _ Hin H) as [-> ->]. reflexivity.
Qed.

Lemma bind_ok {A B} (m : M A) (k : A → M B) w a w' :
  m w = Ok a w' → bind m k w = k a w'.
Proof. intros H. unfold bind. rewrite H. reflexivity. Qed.

(** * Containers with a clear tag and a null [data] *)

Section blank.
Variable w : world.
Hypothesis Hblank : blank w.

Let Hsmall : small (str w) = 0 := proj1 Hblank.
Let Hdata : decode_ptr (take 8 (drop data_at (body (str w)))) = Some NULL :=
  proj2 Hblank.

Lemma blank_reads_small : small_or_nodata w = Ok true w.
Proof. apply blank_small_or_nodata; assumption. Qed.

Lemma tagged_reads_small : small_or_nodata (tagged w) = Ok true (tagged w).
Proof. reflexivity. Qed.

Lemma retag_blank : retag w = tagged w.
Proof. unfold retag. rewrite decide_True by exact Hblank. reflexivity. Qed.

Lemma retag_tagged : retag (tagged w) = tagged w.
Proof.
  unfold retag. rewrite decide_False; [reflexivity|].
  intros [H _]. discriminate H.
Qed.

Lemma tag_blind_agree {A} (f : M A) : tag_blind w f → agree (f w) (f (tagged w)).
Proof.
  intros [(a & -> & ->)| ->].
  - split; [reflexivity|]. rewrite retag_blank, retag_tagged. reflexivity.
  - destruct (f (tagged w)); cbn; auto.
Qed.

Lemma state_blank :
  fio_str_state self w = Ok (mk_state (FIO_STR_SMALL_CAPA - 1) 0 (small_data 0)) w.
Proof. rewrite (small_state_eq w blank_reads_small), Hsmall. reflexivity. Qed.

Ltac norm1 :=
  mcbv; unfold tagged, field;
  cbn [str small frozen body heap next_block alloc_limit capa len data];
  rewrite ?Hsmall, ?Hdata;
  try match goal with
    | H : (frozen (str w) =? 0) = _ |- _ => rewrite !H
    end;
  change (Z.shiftr 0 1) with 0; change (Z.shiftr 1 1) with 0;
  change (0 =? 0) with true; change (1 =? 0) with false;
  cbv beta iota;
  cbn [str small frozen body heap next_block alloc_limit capa len data].

Ltac norm := repeat progress norm1.

Ltac lockstep :=
  repeat (norm; try reflexivity;
          match goal with
          | |- context [match ?x with _ => _ end] =>
              lazymatch x with
              | context [match _ with _ => _ end] => fail
              | _ => destruct x eqn:?
              end
          end).

Lemma capa_assert_blank needed : tag_blind w (fio_str_capa_assert self needed).
Proof.
  unfold tag_blind, fio_str_capa_assert.
  rewrite !(bind_ok _ _ _ _ _ blank_reads_small).
  rewrite !(bind_ok _ _ _ _ _ tagged_reads_small).
  destruct (needed <? FIO_STR_SMALL_CAPA).
  - left. eexists. mcbv. rewrite Hsmall. split; reflexivity.
  - right. lockstep.
Qed.

Lemma state_tagged :
  fio_str_state self (tagged w)
  = Ok (mk_state (FIO_STR_SMALL_CAPA - 1) 0 (small_data 0)) (tagged w).
Proof. reflexivity. Qed.

Lemma state_tag_blind : tag_blind w (fio_str_state self).
Proof. left. eexists. split; [apply state_blank|apply state_tagged]. Qed.

Lemma resize_blank size : tag_blind w (fio_str_resize self size).
Proof.
  unfold fio_str_resize.
  destruct (frozen (str w) =? 0) eqn:Hfr.
  - right. unfold fio_str_capa_assert. lockstep.
  - unfold tag_blind. norm. apply state_tag_blind.
Qed.

Lemma write_blank src n : tag_blind w (fio_str_write self src n).
Proof.
  unfold fio_str_write, refuses.
  destruct (n =? 0); [apply state_tag_blind|].
  destruct src as [bs|]; [|apply state_tag_blind].
  destruct (frozen (str w) =? 0) eqn:Hfr.
  - right. unfold fio_str_len, fio_str_resize, fio_str_capa_assert, memcpy_from.
    lockstep.
  - unfold tag_blind. norm. apply state_tag_blind.
Qed.

Lemma insert_blank src n pos : tag_blind w (fio_str_insert self src n pos).
Proof.
  unfold fio_str_insert, refuses.
  destruct (n =? 0); [apply state_tag_blind|].
  destruct src as [bs|]; [|apply state_tag_blind].
  destruct (frozen (str w) =? 0) eqn:Hfr.
  - right.
    unfold resolve_pos, fio_str_len, fio_str_resize, fio_str_capa_assert, memcpy_from.
    lockstep.
  - unfold tag_blind. norm. apply state_tag_blind.
Qed.

Lemma concat_blank src : tag_blind w (fio_str_concat self src).
Proof.
  unfold fio_str_concat.
  destruct src as [srcw|]; [|apply state_tag_blind].
  destruct (frozen (str w) =? 0) eqn:Hfr.
  - unfold tag_blind, read_in. norm.
    destruct (fio_str_state self srcw) as [sst ?| |]; [|right; reflexivity..].
    destruct (len sst =? 0); [apply state_tag_blind|].
    right. unfold fio_str_len, fio_str_resize, fio_str_capa_assert.
    lockstep.
  - unfold tag_blind. norm. apply state_tag_blind.
Qed.

Lemma free_blank : tag_blind w (fio_str_free self).
Proof. right. unfold fio_str_free. norm. reflexivity. Qed.

Lemma compact_blank : tag_blind w (fio_str_compact self).
Proof.
  left. exists tt. split; [|reflexivity].
  apply compact_small. apply blank_reads_small.
Qed.

Lemma resolve_pos_blank pos :
  (∃ p, resolve_pos pos w = Ok p w ∧ resolve_pos pos (tagged w) = Ok p (tagged w))
  ∨ (∃ f, resolve_pos pos w = Fault f ∧ resolve_pos pos (tagged w) = Fault f).
Proof.
  unfold resolve_pos. destruct (pos <? 0); [|left; eexists; split; reflexivity].
  norm. destruct (decode_size _).
  - left. eexists. split; reflexivity.
  - right. eexists. split; reflexivity.
Qed.

Lemma overwrite_blank src n pos :
  0 <= n < size_modulus → tag_blind w (fio_str_overwrite self src n pos).
Proof.
  intros Hn. unfold fio_str_overwrite, refuses.
  destruct (Z.eqb_spec n 0) as [|Hn0]; [apply state_tag_blind|].
  destruct src as [bs|]; [|apply state_tag_blind].
  destruct (frozen (str w) =? 0) eqn:Hfr.
  2:{ unfold tag_blind. norm. apply state_tag_blind. }
  right. norm.
  destruct (resolve_pos_blank pos) as [(p & -> & E)|(f & -> & E)].
  2:{ unfold tagged in E. rewrite E. reflexivity. }
  unfold tagged in E. rewrite E. clear E. cbv beta iota.
  pose proof state_blank as E1. pose proof state_tagged as E2.
  unfold tagged in E2. rewrite E1, E2. clear E1 E2. cbv beta iota.
  cbn [len data].
  set (p' := if 0 <? to_size_t p then to_intptr_t 0 else p).
  assert (Hp' : to_size_t p' = 0).
  { subst p'. destruct (Z.ltb_spec 0 (to_size_t p)); [reflexivity|].
    unfold to_size_t in *.
    pose proof (Z.mod_pos_bound p size_modulus). unfold size_modulus in *. lia. }
  rewrite Hp'. replace (size_add 0 n) with n
    by (unfold size_add, to_size_t; rewrite Z.mod_small; lia).
  rewrite ltb_true by lia.
  unfold fio_str_resize, fio_str_capa_assert, memcpy_from. lockstep.
Qed.

Lemma freeze_blank : agree (fio_str_freeze self w) (fio_str_freeze self (tagged w)).
Proof.
  unfold fio_str_freeze. norm. split; [reflexivity|].
  unfold retag. rewrite decide_True, decide_False; [reflexivity| |].
  - intros [H _]. discriminate H.
  - split; [reflexivity|exact Hdata].
Qed.

Lemma accessors_blank :
  fio_str_len self w = Ok 0 w
  ∧ fio_str_capa self w = Ok (FIO_STR_SMALL_CAPA - 1) w
  ∧ fio_str_data self w = Ok (small_data 0) w.
Proof.
  unfold fio_str_len, fio_str_capa, fio_str_data. norm. repeat split.
Qed.
End blank.

Lemma agree_bind {A B} (x y : outcome A) (g : A → B) :
  agree x y →
  agree (match x with Ok a w => Ok (g a) w | Exit => Exit | Fault f => Fault f end)
        (match y with Ok a w => Ok (g a) w | Exit => Exit | Fault f => Fault f end).
Proof.
  destruct x, y; cbn; try tauto. intros [-> ->]. auto.
Qed.

(** * The sample memories are well formed *)

Lemma wf_worl : wf worl.
Proof.
  split; [reflexivity|]. apply shape_small; cbn; [discriminate|].
  split; [discriminate|reflexivity].
Qed.

Lemma wf_frozen_abc : wf frozen_abc.
Proof.
  split; [reflexivity|].
  eapply (shape_heap frozen_abc 0 100 3); try reflexivity.
  - split; discriminate.
Qed.

Lemma wf_forty : wf forty.
Proof.
  split; [reflexivity|].
  eapply (shape_heap forty 0 100 40); try reflexivity.
  - split; discriminate.
Qed.

(** * The header's test *)

(** X18. The self test of the header runs to its end in the model: no
    [TEST_ASSERT] fails, and [fio_str_free] leaves an initialised container
    and an empty heap. *)
Example fio_str_test_passes :
  ∃ w, fio_str_test (boot 64) = Ok tt w ∧ str w = FIO_STR_INIT ∧ heap w = ∅.
Proof. eexists. split; [vm_compute; reflexivity|]. split; reflexivity. Qed.

(** * The claims *)

(** C1, at a failing input. Writing 14 bytes at position 0 of a just
    initialised container keeps it embedded with length 14 and capacity 29,
    and the byte at [pointer[length]] is 14, not 0: the closing
    [s->len = pos + src_len] of [fio_str_overwrite] stores into the bytes
    the embedded string occupies. *)
Theorem overwrite_clobbers_terminator :
  ∃ w st,
    run self [Initialize; Overwrite (lit "abcdefghijklmn") 14 0] (boot 0) = Ok tt w
    ∧ fio_str_state self w = Ok st w
    ∧ len st = 14 ∧ capa st = 29
    ∧ load_cells (ptr_add (data st) (len st)) 1 w = Ok [Byte x0e] w.
Proof.
  eexists _, _. split; [vm_compute; reflexivity|].
  split; [vm_compute; reflexivity|].
  repeat split.
Qed.

(** The same call on a heap string: the terminator stays. *)
Example overwrite_keeps_terminator_heap :
  ∃ w st,
    run self [Initialize; EnsureCapacity 40; Overwrite (lit "abcdefghijklmn") 14 0]
      (boot 64) = Ok tt w
    ∧ fio_str_state self w = Ok st w
    ∧ len st = 14 ∧ capa st = 40
    ∧ c_string st w = Ok (text "abcdefghijklmn" ++ [zero]) w.
Proof.
  eexists _, _. split; [vm_compute; reflexivity|].
  split; [vm_compute; reflexivity|].
  split; [reflexivity|]. split; [reflexivity|]. vm_compute. reflexivity.
Qed.

(** C2, at a failing input. Inserting ["X"] at position 0 of ["abcd"] gives
    the five bytes ["Xacd"] and NUL, not ["Xabcd"]: [memmove] is asked to
    move [src_len] bytes, not the bytes from [pos] to the end. *)
Theorem insert_moves_src_len_bytes :
  ∃ w st,
    run self [Initialize; Write (lit "abcd") 4; Insert (lit "X") 1 0] (boot 0) = Ok tt w
    ∧ fio_str_state self w = Ok st w
    ∧ len st = 5
    ∧ contents st w = Ok (text "Xacd" ++ [zero]) w
    ∧ text "Xacd" ++ [zero] ≠ text "Xabcd".
Proof.
  eexists _, _. split; [vm_compute; reflexivity|].
  split; [vm_compute; reflexivity|].
  split; [reflexivity|]. split; [vm_compute; reflexivity|]. discriminate.
Qed.

(** C3 (amended). [fio_str_capa_assert] leaves the container alone when
    [needed] is at most the capacity the snapshot reports, which is
    [FIO_STR_SMALL_CAPA - 1] for an embedded string; otherwise the buffer
    becomes a heap block of exactly [needed + 1] bytes with capacity
    [needed], by [realloc] for a heap string and by [malloc] (nothing
    freed) for an embedded one.  Length and content stay as they are, and
    the terminator is carried along (an empty embedded string gets a fresh
    NUL). *)
Theorem capa_assert_cases (w : world) (needed : Z) (st : fio_str_state_s)
    (cs : list cell) (t : cell) :
  wf w →
  0 <= needed → needed + 1 < size_modulus →
  fio_str_state self w = Ok st w →
  c_string st w = Ok (cs ++ [t]) w →
  (capa st < needed → needed + 1 <= alloc_limit w) →
  ∃ st' w',
    fio_str_capa_assert self needed w = Ok st' w'
    ∧ fio_str_state self w' = Ok st' w'
    ∧ needed <= capa st'
    ∧ len st' = len st
    ∧ contents st' w' = Ok cs w'
    ∧ (is_embedded st = true → capa st = FIO_STR_SMALL_CAPA - 1)
    ∧ if needed <=? capa st then w' = w ∧ st' = st
      else
        capa st' = needed
        ∧ (∃ b blk,
              data st' = heap_ptr b 0
              ∧ heap w' !! b = Some blk
              ∧ Z.of_nat (length blk) = needed + 1
              ∧ if is_embedded st then heap w' = <[b := blk]> (heap w)
                else ∃ b0, data st = heap_ptr b0 0
                           ∧ heap w' = <[b := blk]> (delete b0 (heap w)))
        ∧ c_string st' w'
          = Ok (cs ++ [if is_embedded st && (len st =? 0) then zero else t]) w'.
Proof.
  intros Hwf Hn0 Hmax Hst Hcs Hlim.
  pose proof Hwf as [Hbody _].
  assert (Hcap : FIO_STR_SMALL_CAPA = 30) by reflexivity.
  destruct (wf_reading w Hwf)
    as [[Hsm Hn]|(b & c & l & blk & Hsm & Hd & Hc & Hl & Hb & Hblk & Hlc & Hcmax)].
  - (* embedded *)
    destruct (embedded_observed w st cs t Hbody Hsm Hn Hst Hcs) as (-> & Hcs1 & Hcs0).
    cbn [capa len data is_embedded andb] in *.
    destruct (Z.leb_spec needed (FIO_STR_SMALL_CAPA - 1)) as [Hle|Hgt].
    + (* it fits: nothing to do *)
      eexists _, w. rewrite capa_assert_small_keep by (assumption || lia).
      split; [reflexivity|]. split; [apply small_state_eq; assumption|].
      split; [exact Hle|]. split; [reflexivity|].
      split; [|split; [reflexivity|split; reflexivity]].
      unfold contents. cbn [data len]. rewrite load_small, slice_0 by lia.
      f_equal. exact Hcs0.
    + (* promotion *)
      destruct (promote_spec w needed cs t Hbody Hsm Hn Hcs1)
        as (w' & blk' & Hrun & Hst' & Hheap & Hlen' & Hcont & Hstr); try lia.
      eexists _, w'. split; [exact Hrun|]. split; [exact Hst'|].
      cbn [capa len data]. split; [lia|]. split; [reflexivity|].
      split; [exact Hcont|]. split; [reflexivity|]. split; [reflexivity|].
      split; [|exact Hstr].
      exists (next_block w), blk'. split; [reflexivity|].
      split; [rewrite Hheap; apply lookup_insert_eq|]. split; assumption.
  - (* heap *)
    destruct (heap_observed w b c l blk st cs t) as (-> & Hcs1 & Hcs0);
      try assumption.
    cbn [capa len data is_embedded andb] in *.
    destruct (Z.leb_spec needed c) as [Hle|Hgt].
    + (* it fits: nothing to do *)
      eexists _, w. rewrite (capa_assert_heap_keep w b c l) by assumption.
      split; [reflexivity|]. split; [apply heap_state_eq; assumption|].
      split; [exact Hle|]. split; [reflexivity|].
      split; [|split; [discriminate|split; reflexivity]].
      unfold contents. cbn [data len].
      rewrite (load_heap w b blk), slice_0 by (try assumption; lia).
      f_equal. exact Hcs0.
    + (* growth *)
      destruct (grow_spec w b c l blk needed cs t)
        as (w' & blk' & Hrun & Hst' & Hheap & Hlen' & Hcont & Hstr);
        try assumption; try lia.
      eexists _, w'. split; [exact Hrun|]. split; [exact Hst'|].
      cbn [capa len data]. split; [lia|]. split; [reflexivity|].
      split; [exact Hcont|]. split; [discriminate|]. split; [reflexivity|].
      split; [|exact Hstr].
      exists (next_block w), blk'. split; [reflexivity|].
      split; [rewrite Hheap; apply lookup_insert_eq|]. split; [assumption|].
      exists b. split; [reflexivity|exact Hheap].
Qed.

Lemma capa_assert_cases_witness :
  ∃ st' w',
    fio_str_capa_assert self 32 worl = Ok st' w'
    ∧ fio_str_state self w' = Ok st' w'
    ∧ 32 <= capa st'
    ∧ len st' = len (mk_state 29 4 (small_data 0))
    ∧ contents st' w' = Ok (text "Worl") w'
    ∧ (is_embedded (mk_state 29 4 (small_data 0)) = true →
       capa (mk_state 29 4 (small_data 0)) = FIO_STR_SMALL_CAPA - 1)
    ∧ if 32 <=? capa (mk_state 29 4 (small_data 0)) then
        w' = worl ∧ st' = mk_state 29 4 (small_data 0)
      else
        capa st' = 32
        ∧ (∃ b blk,
              data st' = heap_ptr b 0
              ∧ heap w' !! b = Some blk
              ∧ Z.of_nat (length blk) = 32 + 1
              ∧ if is_embedded (mk_state 29 4 (small_data 0))
                then heap w' = <[b := blk]> (heap worl)
                else ∃ b0, data (mk_state 29 4 (small_data 0)) = heap_ptr b0 0
                           ∧ heap w' = <[b := blk]> (delete b0 (heap worl)))
        ∧ c_string st' w'
          = Ok (text "Worl"
                  ++ [if is_embedded (mk_state 29 4 (small_data 0))
                         && (len (mk_state 29 4 (small_data 0)) =? 0)
                      then zero else zero]) w'.
Proof.
  apply (capa_assert_cases worl 32 (mk_state 29 4 (small_data 0)) (text "Worl") zero).
  - exact wf_worl.
  - lia.
  - reflexivity.
  - reflexivity.
  - reflexivity.
  - intros _. cbn. lia.
Defined.

(** C3, as stated, at [needed = 29]: the container is embedded and
    [needed] equals the embedded capacity, yet the call returns the embedded
    snapshot and allocates nothing. *)
Lemma capa_assert_at_embedded_capacity :
  fio_str_state self (boot 64) = Ok (mk_state 29 0 (small_data 0)) (boot 64)
  ∧ FIO_STR_SMALL_CAPA - 1 = 29
  ∧ fio_str_capa_assert self 29 (boot 64)
    = Ok (mk_state 29 0 (small_data 0)) (boot 64).
Proof. repeat split. Qed.

(** C4, at a failing input. The embedded string ["Worl"] is frozen; then
    [fio_str_capa_assert] with [needed = 40] moves it to the heap, and the
    container it builds there has no [frozen] member set (the one that
    [fio_str_compact] builds carries [s->frozen] over).  The next
    [fio_str_write] is no longer refused: the frozen string becomes
    ["WorlX"] with length 5. *)
Theorem frozen_lost_by_promotion :
  ∃ w0 w,
    run self [Initialize; Write (lit "World") 4; Freeze] (boot 64) = Ok tt w0
    ∧ frozen (str w0) = 1
    ∧ view w0 = Ok (true, 29, 4, text "Worl" ++ [zero]) w0
    ∧ run self [EnsureCapacity 40; Write (lit "X") 1] w0 = Ok tt w
    ∧ frozen (str w) = 0
    ∧ view w = Ok (false, 40, 5, text "WorlX" ++ [zero]) w.
Proof.
  eexists _, _. split; [vm_compute; reflexivity|].
  split; [reflexivity|]. split; [vm_compute; reflexivity|].
  split; [vm_compute; reflexivity|].
  split; [reflexivity|]. vm_compute. reflexivity.
Qed.

(** Without the promotion the same write is refused. *)
Example frozen_write_refused :
  (run self [Write (lit "X") 1] ;; view) frozen_worl
  = Ok (true, 29, 4, text "Worl" ++ [zero]) frozen_worl.
Proof. vm_compute. reflexivity. Qed.

(** On a frozen heap string of capacity 100, [fio_str_compact] and
    [fio_str_capa_assert] change the representation, the capacity and the
    pointer, which the header's test calls allowed; they keep the length,
    the content and the flag, and the next [fio_str_write] is refused. *)
Lemma frozen_buffer_still_managed :
  ∃ w1 w2,
    fio_str_state self frozen_abc = Ok (mk_state 100 3 (heap_ptr 0 0)) frozen_abc
    ∧ frozen (str frozen_abc) = 1
    ∧ fio_str_compact self frozen_abc = Ok tt w1
    ∧ fio_str_state self w1 = Ok (mk_state 29 3 (small_data 0)) w1
    ∧ fio_str_capa_assert self 200 frozen_abc
      = Ok (mk_state 200 3 (heap_ptr 1 0)) w2.
Proof.
  eexists _, _. split; [reflexivity|]. split; [reflexivity|].
  split; [vm_compute; reflexivity|]. split; [reflexivity|].
  vm_compute. reflexivity.
Qed.

Example frozen_heap_keeps_flag :
  ∃ w1 w2,
    (run self [EnsureCapacity 200; Write (lit "X") 1] ;; view) frozen_abc
    = Ok (false, 200, 3, text "abc" ++ [zero]) w1
    ∧ frozen (str w1) = 1
    ∧ (run self [Compact; Write (lit "X") 1] ;; view) frozen_abc
      = Ok (true, 29, 3, text "abc" ++ [zero]) w2
    ∧ frozen (str w2) = 1.
Proof.
  eexists _, _. split; [vm_compute; reflexivity|].
  split; [reflexivity|]. split; [vm_compute; reflexivity|]. reflexivity.
Qed.

(** C5, at a failing input. Overwriting the embedded string ["abc"] with
    ["X"] at position -1 gives ["Xbc"] of length 3, not ["abcX"] of length
    4: the position is resolved with [s->len], which an embedded string does
    not use for its length. *)
Theorem overwrite_negative_pos_embedded :
  ∃ w st,
    run self [Initialize; Write (lit "abc") 3; Overwrite (lit "X") 1 (-1)] (boot 0)
    = Ok tt w
    ∧ fio_str_state self w = Ok st w
    ∧ len st = 3
    ∧ contents st w = Ok (text "Xbc") w.
Proof.
  eexists _, _. split; [vm_compute; reflexivity|].
  split; [vm_compute; reflexivity|].
  split; [reflexivity|]. vm_compute; reflexivity.
Qed.

(** The same call on a heap string ["abc"] appends, as the header says. *)
Example overwrite_negative_pos_heap :
  ∃ w st,
    run self [Initialize; EnsureCapacity 40; Write (lit "abc") 3;
              Overwrite (lit "X") 1 (-1)] (boot 64) = Ok tt w
    ∧ fio_str_state self w = Ok st w
    ∧ len st = 4
    ∧ c_string st w = Ok (text "abcX" ++ [zero]) w.
Proof.
  eexists _, _. split; [vm_compute; reflexivity|].
  split; [vm_compute; reflexivity|].
  split; [reflexivity|]. vm_compute. reflexivity.
Qed.

(** C6, at a failing input. On the embedded string ["abc"],
    [fio_str_insert] of ["X"] at position -1 gives the four bytes ["Xac"]
    and NUL, and [fio_str_write] of ["X"] gives ["abcX"]. *)
Theorem insert_at_end_differs_from_write :
  ∃ w1 w2 st1 st2,
    run self [Initialize; Write (lit "abc") 3; Insert (lit "X") 1 (-1)] (boot 0)
    = Ok tt w1
    ∧ run self [Initialize; Write (lit "abc") 3; Write (lit "X") 1] (boot 0)
      = Ok tt w2
    ∧ fio_str_state self w1 = Ok st1 w1
    ∧ fio_str_state self w2 = Ok st2 w2
    ∧ contents st1 w1 = Ok (text "Xac" ++ [zero]) w1
    ∧ contents st2 w2 = Ok (text "abcX") w2.
Proof.
  eexists _, _, _, _. split; [vm_compute; reflexivity|].
  split; [vm_compute; reflexivity|].
  split; [vm_compute; reflexivity|].
  split; [vm_compute; reflexivity|].
  split; vm_compute; reflexivity.
Qed.

(** On a heap string with room to spare the two calls do give the same
    string. *)
Example insert_at_end_heap :
  ∃ w st,
    run self [Initialize; EnsureCapacity 40; Write (lit "abc") 3;
              Insert (lit "X") 1 (-1)] (boot 64) = Ok tt w
    ∧ fio_str_state self w = Ok st w
    ∧ len st = 4
    ∧ c_string st w = Ok (text "abcX" ++ [zero]) w.
Proof.
  eexists _, _. split; [vm_compute; reflexivity|].
  split; [vm_compute; reflexivity|].
  split; [reflexivity|]. vm_compute. reflexivity.
Qed.

(** On a heap string whose buffer has just the room for the new bytes,
    [fio_str_insert] at -1 moves [src_len] bytes to [pointer + length] and
    writes past the end of the buffer; [fio_str_write] does not. *)
Example insert_at_end_overruns_heap :
  ∃ w,
    run self [Initialize; EnsureCapacity 30] (boot 64) = Ok tt w
    ∧ (fio_str_write self (lit "0123456789012345678901234567890123456789") 40 ;; ret tt) w
      ≠ Fault OutOfBounds
    ∧ fio_str_insert self (lit "0123456789012345678901234567890123456789") 40 (-1) w
      = Fault OutOfBounds.
Proof.
  eexists. split; [vm_compute; reflexivity|].
  split; [vm_compute; discriminate|]. vm_compute. reflexivity.
Qed.

(** C7. After [fio_str_freeze], every [fio_str_write], [fio_str_insert] and
    [fio_str_overwrite], whatever its arguments, returns the snapshot taken
    before the freeze and leaves the container and the heap as they are:
    same length, capacity and pointer, and the same bytes. *)
Theorem frozen_ignores_writes (w : world) (st : fio_str_state_s) (ops : list op) :
  fio_str_state self w = Ok st w →
  Forall writes_content ops →
  ∃ w1,
    fio_str_freeze self w = Ok tt w1
    ∧ Forall (fun o => call self o w1 = Ok (Some st) w1) ops
    ∧ run self ops w1 = Ok tt w1
    ∧ fio_str_state self w1 = Ok st w1
    ∧ heap w1 = heap w
    ∧ body (str w1) = body (str w).
Proof.
  intros Hst Hops. exists (set_frozen_world 1 w).
  assert (Hst1 := state_ignores_frozen w st 1 Hst).
  assert (Hfr : frozen (str (set_frozen_world 1 w)) ≠ 0) by (cbn; lia).
  split; [apply freeze_eq|].
  split.
  { eapply Forall_impl; [exact Hops|].
    intros o Ho. apply call_writes_frozen; assumption. }
  split.
  { apply run_gated_frozen with (st := st); [assumption..|reflexivity|].
    eapply Forall_impl; [exact Hops|]. apply writes_content_gated. }
  repeat split. exact Hst1.
Qed.

Lemma frozen_ignores_writes_witness :
  ∃ w1,
    fio_str_freeze self (boot 0) = Ok tt w1
    ∧ Forall (fun o => call self o w1 = Ok (Some (mk_state 29 0 (small_data 0))) w1)
        [Write (lit "more data to be written here") 28;
         Insert (lit "more data to be written here") 28 (-1);
         Overwrite (lit "more data to be written here") 28 (-1)]
    ∧ run self [Write (lit "more data to be written here") 28;
                Insert (lit "more data to be written here") 28 (-1);
                Overwrite (lit "more data to be written here") 28 (-1)] w1 = Ok tt w1
    ∧ fio_str_state self w1 = Ok (mk_state 29 0 (small_data 0)) w1
    ∧ heap w1 = heap (boot 0)
    ∧ body (str w1) = body (str (boot 0)).
Proof.
  apply (frozen_ignores_writes (boot 0) (mk_state 29 0 (small_data 0))).
  - reflexivity.
  - repeat constructor.
Defined.

(** C8 (amended). With a null container, [fio_str_state],
    [fio_str_capa_assert], [fio_str_resize], [fio_str_write],
    [fio_str_concat], [fio_str_overwrite] and [fio_str_insert] return the
    zeroed snapshot, [fio_str_compact] and [fio_str_freeze] return, and
    nothing is changed. *)
Theorem null_container_guarded (w : world) :
  let zeroed_state := mk_state 0 0 NULL in
  fio_str_state null w = Ok zeroed_state w
  ∧ (∀ needed, fio_str_capa_assert null needed w = Ok zeroed_state w)
  ∧ (∀ size, fio_str_resize null size w = Ok zeroed_state w)
  ∧ (∀ src n, fio_str_write null src n w = Ok zeroed_state w)
  ∧ (∀ src, fio_str_concat null src w = Ok zeroed_state w)
  ∧ (∀ src n pos, fio_str_overwrite null src n pos w = Ok zeroed_state w)
  ∧ (∀ src n pos, fio_str_insert null src n pos w = Ok zeroed_state w)
  ∧ fio_str_compact null w = Ok tt w
  ∧ fio_str_freeze null w = Ok tt w.
Proof. repeat split. Qed.

(** C8, as stated, for the accessors and for [fio_str_free]: they read
    [s->small] without a test, so a null container is dereferenced. *)
Lemma null_accessors_fault :
  fio_str_len null (boot 0) = Fault NullDeref
  ∧ fio_str_capa null (boot 0) = Fault NullDeref
  ∧ fio_str_data null (boot 0) = Fault NullDeref
  ∧ fio_str_free null (boot 0) = Fault NullDeref.
Proof. repeat split. Qed.

(** C9. [fio_str_compact] is idempotent up to the address of the buffer: a
    second call leaves representation, capacity, length and bytes
    (terminator included) as the first one left them.  When the length is
    below [FIO_STR_SMALL_CAPA] the result is embedded, reports the capacity
    [FIO_STR_SMALL_CAPA - 1] and holds the content it had. *)
Theorem compact_idempotent (w : world) :
  wf w →
  (∀ st, fio_str_state self w = Ok st w →
         FIO_STR_SMALL_CAPA <= len st → len st + 1 <= alloc_limit w) →
  ∃ w1 w2 v,
    fio_str_compact self w = Ok tt w1
    ∧ fio_str_compact self w1 = Ok tt w2
    ∧ view w1 = Ok v w1
    ∧ view w2 = Ok v w2
    ∧ ∀ st cs,
        fio_str_state self w = Ok st w → contents st w = Ok cs w →
        len st < FIO_STR_SMALL_CAPA →
        ∃ t, v = (true, FIO_STR_SMALL_CAPA - 1, len st, cs ++ [t]).
Proof.
  intros Hwf Hlim.
  destruct (wf_observable w Hwf) as (st & cs & t & Hst & Hl0 & Hcs & Hcstr).
  destruct (compact_spec w st cs t Hwf Hst Hcstr (Hlim st Hst))
    as (w1 & st1 & Hc1 & Hwf1 & Hlim1 & _ & Hst1 & Hlen1 & Hcstr1 & Hrep1).
  set (t1 := if negb (is_embedded st) && (len st =? 0) then zero else t) in *.
  assert (Hlim' : FIO_STR_SMALL_CAPA <= len st1 → len st1 + 1 <= alloc_limit w1).
  { rewrite Hlen1, Hlim1. apply Hlim. exact Hst. }
  destruct (compact_spec w1 st1 cs t1 Hwf1 Hst1 Hcstr1 Hlim')
    as (w2 & st2 & Hc2 & _ & _ & _ & Hst2 & Hlen2 & Hcstr2 & Hrep2).
  destruct (wf_capa w st Hwf Hst) as [_ Hemb].
  assert (Hsame : is_embedded st2 = is_embedded st1 ∧ capa st2 = capa st1
                  ∧ (if negb (is_embedded st1) && (len st1 =? 0) then zero else t1) = t1
                  ∧ (len st < FIO_STR_SMALL_CAPA →
                     is_embedded st1 = true ∧ capa st1 = FIO_STR_SMALL_CAPA - 1)).
  { destruct (is_embedded st) eqn:He.
    - destruct Hrep1 as [-> ->]. rewrite He in Hrep2. destruct Hrep2 as [_ ->].
      rewrite He. cbn. destruct (Hemb eq_refl). auto.
    - destruct (Z.ltb_spec (len st) FIO_STR_SMALL_CAPA) as [Hlt|Hge].
      + destruct Hrep1 as [He1 Hcap1]. rewrite He1 in Hrep2.
        destruct Hrep2 as [_ ->]. rewrite He1. cbn. auto.
      + destruct Hrep1 as [He1 Hcap1]. rewrite He1 in Hrep2.
        rewrite Hlen1, ltb_false in Hrep2 by assumption.
        destruct Hrep2 as [He2 Hcap2].
        rewrite He1, He2, Hcap2, Hcap1, Hlen1. cbn [negb andb].
        rewrite eqb_false by (unfold FIO_STR_SMALL_CAPA, sizeof_fio_str_s,
                                offsetof_reserved in Hge; lia).
        repeat split; try reflexivity; intros; lia. }
  destruct Hsame as (He & Hcap & Ht & Hfit).
  rewrite Ht in Hcstr2.
  exists w1, w2, (is_embedded st1, capa st1, len st1, cs ++ [t1]).
  split; [exact Hc1|]. split; [exact Hc2|].
  split; [unfold view, bind; rewrite Hst1, Hcstr1; reflexivity|].
  split.
  { unfold view, bind. rewrite Hst2, Hcstr2, He, Hcap, Hlen2. reflexivity. }
  intros st' cs' Hst' Hcs' Hlt.
  rewrite Hst in Hst'. apply ok_inj in Hst' as [<- _].
  rewrite Hcs in Hcs'. apply ok_inj in Hcs' as [<- _].
  destruct (Hfit Hlt) as [-> ->]. rewrite Hlen1. exists t1. reflexivity.
Qed.

Lemma compact_idempotent_witness :
  ∃ w1 w2 v,
    fio_str_compact self forty = Ok tt w1
    ∧ fio_str_compact self w1 = Ok tt w2
    ∧ view w1 = Ok v w1
    ∧ view w2 = Ok v w2
    ∧ ∀ st cs,
        fio_str_state self forty = Ok st forty → contents st forty = Ok cs forty →
        len st < FIO_STR_SMALL_CAPA →
        ∃ t, v = (true, FIO_STR_SMALL_CAPA - 1, len st, cs ++ [t]).
Proof.
  apply (compact_idempotent forty).
  - exact wf_forty.
  - intros st Hst _. vm_compute in Hst. injection Hst as <-. cbn. lia.
Defined.

(** C10. A container whose [small] byte is 0 and whose [data] is null is
    read as the empty embedded string: the accessors report capacity
    [FIO_STR_SMALL_CAPA - 1], length 0 and the embedded pointer, and every
    operation behaves as on the same memory with the tag [small = 1] of the
    empty embedded string. *)
Theorem blank_is_empty_embedded (w : world) :
  blank w →
  fio_str_state self w = Ok (mk_state (FIO_STR_SMALL_CAPA - 1) 0 (small_data 0)) w
  ∧ fio_str_len self w = Ok 0 w
  ∧ fio_str_capa self w = Ok (FIO_STR_SMALL_CAPA - 1) w
  ∧ fio_str_data self w = Ok (small_data 0) w
  ∧ ∀ o, well_typed o → agree (call self o w) (call self o (tagged w)).
Proof.
  intros Hb. split; [apply state_blank; exact Hb|].
  destruct (accessors_blank w Hb) as (Hl & Hc & Hd).
  split; [exact Hl|]. split; [exact Hc|]. split; [exact Hd|].
  intros o Ho. destruct o; unfold call; cbn [well_typed] in Ho.
  - (* Initialize *) cbn. split; reflexivity.
  - (* Destroy *)
    apply (agree_bind _ _ (fun _ => None)).
    apply tag_blind_agree; [exact Hb|]. apply free_blank. exact Hb.
  - apply (agree_bind _ _ Some), tag_blind_agree; [exact Hb|].
    apply capa_assert_blank. exact Hb.
  - apply (agree_bind _ _ Some), tag_blind_agree; [exact Hb|].
    apply resize_blank. exact Hb.
  - apply (agree_bind _ _ Some), tag_blind_agree; [exact Hb|].
    apply write_blank. exact Hb.
  - apply (agree_bind _ _ Some), tag_blind_agree; [exact Hb|].
    apply concat_blank. exact Hb.
  - apply (agree_bind _ _ Some), tag_blind_agree; [exact Hb|].
    apply overwrite_blank; [exact Hb|]. apply Ho.
  - apply (agree_bind _ _ Some), tag_blind_agree; [exact Hb|].
    apply insert_blank. exact Hb.
  - apply (agree_bind _ _ (fun _ => None)).
    apply tag_blind_agree; [exact Hb|]. apply compact_blank. exact Hb.
  - apply (agree_bind _ _ (fun _ => None)). apply freeze_blank. exact Hb.
Qed.

(** A zero-initialised container is blank, and with the tag set it is the
    container [FIO_STR_INIT] builds. *)
Example tagged_zeroed limit :
  blank (zeroed limit) ∧ tagged (zeroed limit) = boot limit.
Proof. split; [split|]; reflexivity. Qed.

Lemma blank_is_empty_embedded_witness :
  blank (zeroed 64)
  ∧ fio_str_state self (zeroed 64)
    = Ok (mk_state (FIO_STR_SMALL_CAPA - 1) 0 (small_data 0)) (zeroed 64)
  ∧ fio_str_len self (zeroed 64) = Ok 0 (zeroed 64)
  ∧ fio_str_capa self (zeroed 64) = Ok (FIO_STR_SMALL_CAPA - 1) (zeroed 64)
  ∧ fio_str_data self (zeroed 64) = Ok (small_data 0) (zeroed 64)
  ∧ ∀ o, well_typed o →
         agree (call self o (zeroed 64)) (call self o (tagged (zeroed 64))).
Proof.
  split; [split; reflexivity|].
  apply (blank_is_empty_embedded (zeroed 64)). split; reflexivity.
Defined.

(** * Buffers *)

Lemma lookup_splice {A} (i : nat) (cs l : list A) (k : nat) :
  (i + length cs <= length l)%nat →
  splice i cs l !! k =
    if decide (k < i)%nat then l !! k
    else if decide (k < i + length cs)%nat then cs !! (k - i)%nat
    else l !! k.
Proof.
  intros Hfit. unfold splice.
  destruct (decide (k < i)%nat) as [Hk|Hk].
  - rewrite lookup_app_l by (rewrite length_take; lia).
    apply lookup_take_lt. exact Hk.
  - rewrite lookup_app_r by (rewrite length_take; lia).
    rewrite length_take, Nat.min_l by lia.
    destruct (decide (k < i + length cs)%nat) as [Hk'|Hk'].
    + apply lookup_app_l. lia.
    + rewrite lookup_app_r by lia. rewrite lookup_drop. f_equal. lia.
Qed.

Lemma lookup_app_decide {A} (l1 l2 : list A) (k : nat) :
  (l1 ++ l2) !! k =
    if decide (k < length l1)%nat then l1 !! k else l2 !! (k - length l1)%nat.
Proof.
  destruct (decide _); [apply lookup_app_l|apply lookup_app_r]; lia.
Qed.

Lemma slice_all (l : list cell) n : Z.of_nat (length l) <= n → slice 0 n l = l.
Proof. intros H. rewrite slice_0. apply take_ge. lia. Qed.

Lemma lookup_slice (l : list cell) o n (k : nat) :
  0 <= o → (k < Z.to_nat n)%nat → slice o n l !! k = l !! (Z.to_nat o + k)%nat.
Proof.
  intros Ho Hk. unfold slice. rewrite lookup_take_lt by exact Hk.
  apply lookup_drop.
Qed.

Lemma length_slice (l : list cell) o n :
  0 <= o → 0 <= n → o + n <= Z.of_nat (length l) →
  length (slice o n l) = Z.to_nat n.
Proof. intros. unfold slice. rewrite length_take, length_drop. lia. Qed.

Lemma slice_slice (l : list cell) o n m :
  0 <= o → 0 <= n → o + n <= m → slice o n (slice 0 m l) = slice o n l.
Proof.
  intros Ho Hn Hm. unfold slice. simpl drop.
  apply list_eq. intros k.
  destruct (decide (k < Z.to_nat n)%nat).
  - rewrite !lookup_take_lt, !lookup_drop by lia.
    apply lookup_take_lt. lia.
  - rewrite !lookup_take_ge by lia. reflexivity.
Qed.

(** The two ways a well-formed container is read. *)
Lemma reads_cases w st B :
  reads w st B →
  (small_or_nodata w = Ok true w
   ∧ st = mk_state (FIO_STR_SMALL_CAPA - 1) (Z.shiftr (small (str w)) 1) (small_data 0)
   ∧ 0 <= Z.shiftr (small (str w)) 1 < FIO_STR_SMALL_CAPA
   ∧ B = body (str w))
  ∨ (∃ b c l blk,
        small (str w) = 0
        ∧ decode_ptr (field data_at (str w)) = Some (heap_ptr b 0)
        ∧ decode_size (field capa_at (str w)) = Some c
        ∧ decode_size (field len_at (str w)) = Some l
        ∧ heap w !! b = Some blk
        ∧ c + 1 <= Z.of_nat (length blk)
        ∧ 0 <= l <= c
        ∧ c + 1 < size_modulus
        ∧ st = mk_state c l (heap_ptr b 0)
        ∧ B = take (Z.to_nat (c + 1)) blk).
Proof.
  intros (Hwf & Hst & HB). pose proof Hwf as [Hbody _].
  assert (Hcap : FIO_STR_SMALL_CAPA = 30) by reflexivity.
  destruct (wf_reading w Hwf)
    as [[Hsm Hn]|(b & c & l & blk & Hsm & Hd & Hc & Hl & Hb & Hblk & Hlc & Hcmax)].
  - left. rewrite (small_state_eq w Hsm) in Hst. apply ok_inj in Hst as [<- _].
    unfold buffer in HB. cbn [data capa] in HB.
    rewrite load_small in HB by lia. apply ok_inj in HB as [<- _].
    rewrite slice_all by lia. auto.
  - right. exists b, c, l, blk.
    rewrite (heap_state_eq w b c l) in Hst by assumption.
    apply ok_inj in Hst as [<- _].
    unfold buffer in HB. cbn [data capa] in HB.
    rewrite (load_heap w b blk) in HB by (try assumption; lia).
    apply ok_inj in HB as [<- _]. rewrite slice_0. auto 12.
Qed.

Lemma reads_bounds w st B :
  reads w st B →
  0 <= len st <= capa st ∧ capa st + 1 < size_modulus
  ∧ Z.of_nat (length B) = capa st + 1
  ∧ (is_embedded st = true → capa st = FIO_STR_SMALL_CAPA - 1).
Proof.
  intros H. pose proof H as ([Hbody _] & _ & _).
  assert (Hcap : FIO_STR_SMALL_CAPA = 30) by reflexivity.
  destruct (reads_cases w st B H)
    as [(Hsm & -> & Hn & ->)
       |(b & c & l & blk & Hsm & Hd & Hc & Hl & Hb & Hblk & Hlc & Hcmax & -> & ->)];
    cbn [len capa is_embedded data].
  - unfold size_modulus. repeat split; try lia.
  - rewrite length_take. repeat split; try lia; discriminate.
Qed.

Lemma wf_reads w : wf w → ∃ st B, reads w st B.
Proof.
  intros Hwf. pose proof Hwf as [Hbody _].
  assert (Hcap : FIO_STR_SMALL_CAPA = 30) by reflexivity.
  destruct (wf_reading w Hwf)
    as [[Hsm Hn]|(b & c & l & blk & Hsm & Hd & Hc & Hl & Hb & Hblk & Hlc & Hcmax)].
  - eexists _, _. split; [assumption|]. split; [apply small_state_eq; assumption|].
    unfold buffer. cbn [data capa]. apply load_small; lia.
  - eexists _, _. split; [assumption|].
    split; [apply (heap_state_eq w b c l); assumption|].
    unfold buffer. cbn [data capa]. apply (load_heap w b blk); try assumption; lia.
Qed.

(** Reading through the pointer of the snapshot. *)
Lemma reads_load w st B o n :
  reads w st B → 0 <= o → 0 <= n → o + n <= capa st + 1 →
  load_cells (ptr_add (data st) o) n w = Ok (slice o n B) w.
Proof.
  intros H Ho Hn Hfit. pose proof H as ([Hbody _] & _ & _).
  assert (Hcap : FIO_STR_SMALL_CAPA = 30) by reflexivity.
  destruct (reads_cases w st B H)
    as [(Hsm & -> & Hl & ->)
       |(b & c & l & blk & Hsm & Hd & Hc & Hl & Hb & Hblk & Hlc & Hcmax & -> & ->)];
    cbn [len capa data ptr_add] in *.
  - rewrite load_small by lia. reflexivity.
  - rewrite (load_heap w b blk) by (try assumption; lia).
    f_equal. rewrite <- slice_0. symmetry. apply slice_slice; lia.
Qed.

Lemma ptr_add_0 p : ptr_add p 0 = p.
Proof. destruct p; cbn; f_equal; lia. Qed.

Lemma reads_c_string w st B :
  reads w st B → c_string st w = Ok (take (Z.to_nat (len st + 1)) B) w.
Proof.
  intros H. destruct (reads_bounds w st B H) as (Hl & _ & _ & _).
  unfold c_string. rewrite <- (ptr_add_0 (data st)).
  rewrite (reads_load w st B) by (try assumption; lia). reflexivity.
Qed.

Lemma reads_contents w st B :
  reads w st B → contents st w = Ok (take (Z.to_nat (len st)) B) w.
Proof.
  intros H. destruct (reads_bounds w st B H) as (Hl & _ & _ & _).
  unfold contents. rewrite <- (ptr_add_0 (data st)).
  rewrite (reads_load w st B) by (try assumption; lia). reflexivity.
Qed.

Lemma take_splice_comm {A} (k i : nat) (cs l : list A) :
  (i + length cs <= k)%nat → (k <= length l)%nat →
  take k (splice i cs l) = splice i cs (take k l).
Proof.
  intros Hk Hl. apply list_eq. intros j.
  rewrite lookup_take.
  rewrite !lookup_splice by (rewrite ?length_take; lia).
  rewrite !lookup_take.
  repeat destruct (decide _); try reflexivity; lia.
Qed.

(** Writing through the pointer of the snapshot, inside the buffer. *)
Lemma reads_store w st B o xs :
  reads w st B →
  (is_embedded st = true → small (str w) ≠ 0) →
  0 <= o → o + Z.of_nat (length xs) <= capa st + 1 →
  ∃ w',
    store_cells (ptr_add (data st) o) xs w = Ok tt w'
    ∧ reads w' st (splice (Z.to_nat o) xs B)
    ∧ small (str w') = small (str w)
    ∧ frozen (str w') = frozen (str w)
    ∧ alloc_limit w' = alloc_limit w
    ∧ dom (heap w') = dom (heap w).
Proof.
  intros H Htag Ho Hfit. pose proof H as ([Hbody _] & _ & _).
  assert (Hcap : FIO_STR_SMALL_CAPA = 30) by reflexivity.
  destruct (reads_cases w st B H)
    as [(Hsm & -> & Hl & ->)
       |(b & c & l & blk & Hsm & Hd & Hc & Hl & Hb & Hblk & Hlc & Hcmax & -> & ->)];
    cbn [len capa data ptr_add is_embedded] in *.
  - specialize (Htag eq_refl).
    unfold store_cells. rewrite in_range_true by lia.
    set (w' := mk_world _ _ _ _). exists w'.
    assert (Hb' : length (body (str w')) = length (body (str w))).
    { subst w'. cbn [str body]. apply length_splice. lia. }
    assert (Hsm' : small_or_nodata w' = Ok true w')
      by (apply tagged_small_or_nodata; exact Htag).
    split; [reflexivity|]. split; [|auto].
    split; [|split].
    + split; [lia|]. apply shape_small; [exact Htag|exact Hl].
    + exact (small_state_eq w' Hsm').
    + unfold buffer. cbn [data capa]. rewrite load_small by lia.
      f_equal. rewrite slice_all by lia. reflexivity.
  - unfold store_cells. rewrite Hb, in_range_true by lia.
    set (w' := mk_world _ _ _ _). exists w'.
    set (blk' := splice (Z.to_nat (0 + o)) xs blk).
    assert (Hb' : heap w' !! b = Some blk') by (subst w'; cbn; apply lookup_insert_eq).
    assert (Hlen' : length blk' = length blk) by (apply length_splice; lia).
    split; [reflexivity|].
    split; [|repeat split; subst w'; cbn [heap];
              apply dom_insert_lookup_L; rewrite Hb; eauto].
    split; [|split].
    + split; [assumption|].
      apply (shape_heap w' b c l blk'); try assumption; lia.
    + apply (heap_state_eq w' b c l); assumption.
    + unfold buffer. cbn [data capa].
      rewrite (load_heap w' b blk') by (try assumption; lia).
      f_equal. rewrite slice_0. subst blk'.
      rewrite take_splice_comm by lia. reflexivity.
Qed.

(** * [fio_str_resize], after [fio_str_capa_assert] has returned *)

Lemma resize_commit_small w size st1 w1 :
  frozen (str w) = 0 →
  fio_str_capa_assert self size w = Ok st1 w1 →
  Z.of_nat (length (body (str w1))) = FIO_STR_SMALL_CAPA →
  small_or_nodata w1 = Ok true w1 →
  0 <= size < FIO_STR_SMALL_CAPA →
  fio_str_resize self size w =
    Ok (mk_state (FIO_STR_SMALL_CAPA - 1) size (small_data 0))
       (mk_world
          (mk_str (small_tag size) (frozen (str w1))
             (splice (Z.to_nat size) [zero] (body (str w1))))
          (heap w1) (next_block w1) (alloc_limit w1)).
Proof.
  intros Hfr Hca Hbody Hsm Hsz.
  assert (Hcap : FIO_STR_SMALL_CAPA = 30) by reflexivity.
  unfold fio_str_resize.
  rewrite (bind_ok get_frozen _ w (frozen (str w)) w eq_refl), Hfr.
  cbn [Z.eqb negb].
  rewrite (bind_ok _ _ _ _ _ Hca), (bind_ok _ _ _ _ _ Hsm).
  mcbv. rewrite in_range_true by (cbn [length]; lia).
  reflexivity.
Qed.

Lemma resize_commit_heap w size st1 w1 b c l blk :
  frozen (str w) = 0 →
  fio_str_capa_assert self size w = Ok st1 w1 →
  Z.of_nat (length (body (str w1))) = FIO_STR_SMALL_CAPA →
  small (str w1) = 0 →
  decode_ptr (field data_at (str w1)) = Some (heap_ptr b 0) →
  decode_size (field capa_at (str w1)) = Some c →
  decode_size (field len_at (str w1)) = Some l →
  heap w1 !! b = Some blk →
  c + 1 <= Z.of_nat (length blk) →
  0 <= size <= c → c + 1 < size_modulus →
  fio_str_resize self size w =
    Ok (mk_state c size (heap_ptr b 0))
       (mk_world (with_field len_at (encode_size size) (str w1))
          (<[b := splice (Z.to_nat size) [zero] blk]> (heap w1))
          (next_block w1) (alloc_limit w1)).
Proof.
  intros Hfr Hca Hbody Hsm Hd Hc Hl Hb Hblk Hsz Hmax.
  assert (Hcap : FIO_STR_SMALL_CAPA = 30) by reflexivity.
  unfold fio_str_resize.
  rewrite (bind_ok get_frozen _ w (frozen (str w)) w eq_refl), Hfr.
  cbn [Z.eqb negb].
  rewrite (bind_ok _ _ _ _ _ Hca).
  rewrite (bind_ok _ _ _ _ _ (heap_small_or_nodata w1 b Hsm Hd)).
  msimp. rewrite in_range_true by (cbn [length]; lia).
  msimp. reflexivity.
Qed.

Lemma reads_heap_intro w b c l blk :
  Z.of_nat (length (body (str w))) = FIO_STR_SMALL_CAPA →
  small (str w) = 0 →
  decode_ptr (field data_at (str w)) = Some (heap_ptr b 0) →
  decode_size (field capa_at (str w)) = Some c →
  decode_size (field len_at (str w)) = Some l →
  heap w !! b = Some blk →
  c + 1 <= Z.of_nat (length blk) →
  0 <= l <= c → c + 1 < size_modulus →
  reads w (mk_state c l (heap_ptr b 0)) (take (Z.to_nat (c + 1)) blk).
Proof.
  intros Hbody Hsm Hd Hc Hl Hb Hblk Hlc Hmax.
  split; [|split].
  - split; [assumption|]. apply (shape_heap w b c l blk); assumption.
  - apply (heap_state_eq w b c l); assumption.
  - unfold buffer. cbn [data capa].
    rewrite (load_heap w b blk) by (try assumption; lia). reflexivity.
Qed.

Lemma reads_small_intro w n :
  Z.of_nat (length (body (str w))) = FIO_STR_SMALL_CAPA →
  small (str w) ≠ 0 →
  Z.shiftr (small (str w)) 1 = n →
  0 <= n < FIO_STR_SMALL_CAPA →
  reads w (mk_state (FIO_STR_SMALL_CAPA - 1) n (small_data 0)) (body (str w)).
Proof.
  intros Hbody Hsm <- Hn.
  assert (Hcap : FIO_STR_SMALL_CAPA = 30) by reflexivity.
  split; [|split].
  - split; [assumption|]. apply shape_small; assumption.
  - apply small_state_eq, tagged_small_or_nodata. assumption.
  - unfold buffer. cbn [data capa]. rewrite load_small by lia.
    rewrite slice_all by lia. reflexivity.
Qed.

(** The blocks of the allocator, before and after. *)
Lemma dom_moved (h : gmap nat (list cell)) b nb x :
  dom (<[nb := x]> (delete b h)) = ({[nb]} : gset nat) ∪ (dom h ∖ {[b]}).
Proof. rewrite dom_insert_L, dom_delete_L. reflexivity. Qed.

Lemma dom_kept (h : gmap nat (list cell)) b x :
  dom (<[b := x]> h) = ({[b]} : gset nat) ∪ (dom h ∖ {[b]}).
Proof.
  rewrite dom_insert_L. apply set_eq. intros y.
  rewrite !elem_of_union, elem_of_difference, elem_of_singleton.
  destruct (decide (y = b)); tauto.
Qed.

Lemma dom_added (h : gmap nat (list cell)) nb x :
  dom (<[nb := x]> h) = ({[nb]} : gset nat) ∪ (dom h ∖ ∅).
Proof. rewrite dom_insert_L, difference_empty_L. reflexivity. Qed.

Lemma dom_embedded (h : gmap nat (list cell)) :
  dom h = (∅ : gset nat) ∪ (dom h ∖ ∅).
Proof. rewrite difference_empty_L, union_empty_l_L. reflexivity. Qed.

(** * What [fio_str_resize] does to a well-formed container *)

Lemma resize_reads w st B size :
  reads w st B →
  frozen (str w) = 0 →
  0 <= size → size + 1 < size_modulus →
  (capa st < size → size + 1 <= alloc_limit w) →
  ∃ st' w' B',
    fio_str_resize self size w = Ok st' w'
    ∧ reads w' st' B'
    ∧ len st' = size
    ∧ capa st' = Z.max (capa st) size
    ∧ is_embedded st' = is_embedded st && (size <? FIO_STR_SMALL_CAPA)
    ∧ (size <= capa st → data st' = data st)
    ∧ (is_embedded st' = true → small (str w') ≠ 0)
    ∧ frozen (str w') = 0
    ∧ alloc_limit w' = alloc_limit w
    ∧ dom (heap w') = block_of st' ∪ (dom (heap w) ∖ block_of st)
    ∧ B' !! Z.to_nat size = Some zero
    ∧ (∀ i, (i < Z.to_nat (len st))%nat → i ≠ Z.to_nat size → B' !! i = B !! i)
    ∧ (B !! Z.to_nat (len st) = Some zero → B' !! Z.to_nat (len st) = Some zero)
    ∧ (size <= capa st → B' = splice (Z.to_nat size) [zero] B).
Proof.
  intros H Hfr Hs0 Hsmax Hlim. pose proof H as ([Hbody _] & _ & _).
  assert (Hcap : FIO_STR_SMALL_CAPA = 30) by reflexivity.
  destruct (reads_cases w st B H)
    as [(Hsm & -> & Hn & ->)
       |(b & c & l & blk & Hsm & Hd & Hc & Hl & Hb & Hblk & Hlc & Hcmax & -> & ->)];
    cbn [len capa data is_embedded andb] in *.
  - set (n := Z.shiftr (small (str w)) 1) in *.
    destruct (Z.ltb_spec size FIO_STR_SMALL_CAPA) as [Hlt|Hge].
    + (* the string stays in the container *)
      pose proof (capa_assert_small_keep w Hsm size Hlt) as Hca.
      rewrite (resize_commit_small w size _ w Hfr Hca Hbody Hsm) by lia.
      set (w' := mk_world _ _ _ _).
      assert (Htag : small (str w') = 2 * size + 1)
        by (subst w'; cbn [str small]; apply small_tag_spec; lia).
      assert (Hb' : length (body (str w')) = 30%nat).
      { subst w'. cbn [str body]. rewrite length_splice; cbn [length]; lia. }
      eexists _, w', _. split; [reflexivity|].
      split.
      { apply reads_small_intro; [lia|lia| |lia].
        subst w'. cbn [str small]. apply small_tag_len. lia. }
      cbn [len capa data is_embedded].
      split; [reflexivity|]. split; [lia|]. split; [reflexivity|].
      split; [reflexivity|]. split; [intros _; lia|].
      split; [exact Hfr|]. split; [reflexivity|].
      split; [apply dom_embedded|].
      subst w'. cbn [str body].
      split; [|split; [|split]].
      * rewrite lookup_splice by (cbn [length]; lia).
        rewrite decide_False, decide_True by (cbn [length]; lia).
        rewrite Nat.sub_diag. reflexivity.
      * intros i Hi Hne. rewrite lookup_splice by (cbn [length]; lia).
        cbn [length]. repeat destruct (decide _); try reflexivity; lia.
      * intros Ht. rewrite lookup_splice by (cbn [length]; lia).
        cbn [length]. repeat destruct (decide _); try assumption.
        replace (Z.to_nat n - Z.to_nat size)%nat with 0%nat by lia. reflexivity.
      * reflexivity.
    + (* promotion *)
      assert (Hsl : size + 1 <= alloc_limit w) by lia.
      pose proof (capa_assert_small_promote w Hbody Hsm size Hge Hsmax Hsl Hn) as Hca.
      fold n in Hca.
      set (X := if n =? 0 then [zero] else slice 0 (n + 1) (body (str w))) in *.
      set (blk1 := splice 0 X (replicate (Z.to_nat (size + 1)) Undef)) in *.
      set (nb := next_block w) in *.
      set (w1 := mk_world _ _ _ _) in Hca.
      pose proof (length_body_lit 0 0 size n (heap_ptr nb 0)) as Hlit.
      assert (HX : length X = Z.to_nat (n + 1)).
      { subst X. destruct (Z.eqb_spec n 0) as [->|]; [reflexivity|].
        rewrite slice_0, length_take. lia. }
      assert (Hblk1 : length blk1 = Z.to_nat (size + 1)).
      { subst blk1. rewrite length_splice; rewrite length_replicate; lia. }
      assert (Hmod : size < size_modulus ∧ n < size_modulus)
        by (unfold size_modulus in *; lia).
      rewrite (resize_commit_heap w size _ w1 nb size n blk1 Hfr Hca);
        try (subst w1; cbn [str heap small]; fields; try reflexivity; lia).
      set (blk' := splice (Z.to_nat size) [zero] blk1).
      set (w' := mk_world _ _ _ _).
      assert (Hblk' : length blk' = Z.to_nat (size + 1))
        by (subst blk'; rewrite length_splice; cbn [length]; lia).
      assert (Hr : reads w' (mk_state size size (heap_ptr nb 0))
                     (take (Z.to_nat (size + 1)) blk')).
      { apply reads_heap_intro; subst w' w1; cbn [str heap small];
          fields; try reflexivity; try lia. }
      rewrite take_ge in Hr by lia.
      eexists _, w', _. split; [reflexivity|].
      split; [exact Hr|].
      cbn [len capa data is_embedded].
      split; [reflexivity|]. split; [lia|]. split; [reflexivity|].
      split; [intros; lia|]. split; [discriminate|].
      split; [reflexivity|]. split; [reflexivity|].
      split.
      { subst w' w1. cbn [heap]. rewrite insert_insert_eq. apply dom_added. }
      assert (Hpre : ∀ i, (i < Z.to_nat size)%nat → blk' !! i = blk1 !! i).
      { intros i Hi. subst blk'. rewrite lookup_splice by (cbn [length]; lia).
        rewrite decide_True by lia. reflexivity. }
      assert (HX' : ∀ i, (i < Z.to_nat (n + 1))%nat → blk1 !! i = X !! i).
      { intros i Hi. subst blk1. rewrite lookup_splice by (rewrite length_replicate; lia).
        rewrite decide_False, decide_True by lia. f_equal. lia. }
      split; [|split; [|split]].
      * subst blk'. rewrite lookup_splice by (cbn [length]; lia).
        rewrite decide_False, decide_True by (cbn [length]; lia).
        rewrite Nat.sub_diag. reflexivity.
      * intros i Hi Hne. rewrite Hpre, HX' by lia.
        subst X. rewrite eqb_false by lia.
        apply lookup_slice; lia.
      * intros Ht. rewrite Hpre, HX' by lia. subst X.
        destruct (Z.eqb_spec n 0) as [Hz|Hnz].
        -- rewrite Hz. reflexivity.
        -- rewrite lookup_slice by lia. exact Ht.
      * intros; lia.
  - destruct (Z.leb_spec size c) as [Hle|Hgt].
    + (* the buffer is large enough *)
      pose proof (capa_assert_heap_keep w b c l Hsm Hd Hc Hl size Hle) as Hca.
      rewrite (resize_commit_heap w size _ w b c l blk Hfr Hca) by (assumption || lia).
      set (blk' := splice (Z.to_nat size) [zero] blk).
      set (w' := mk_world _ _ _ _).
      assert (Hblk' : length blk' = length blk)
        by (subst blk'; rewrite length_splice; cbn [length]; lia).
      assert (Hmod : size < size_modulus) by lia.
      assert (Hr : reads w' (mk_state c size (heap_ptr b 0))
                     (take (Z.to_nat (c + 1)) blk')).
      { apply reads_heap_intro; subst w'; cbn [str heap small];
          fields; hyps; first [reflexivity | lia | assumption | rewrite !length_body_with_field by side; lia]. }
      assert (HB' : take (Z.to_nat (c + 1)) blk'
                    = splice (Z.to_nat size) [zero] (take (Z.to_nat (c + 1)) blk)).
      { subst blk'. apply take_splice_comm; cbn [length]; lia. }
      rewrite HB' in Hr.
      eexists _, w', _. split; [reflexivity|].
      split; [exact Hr|].
      cbn [len capa data is_embedded].
      split; [reflexivity|]. split; [lia|]. split; [reflexivity|].
      split; [reflexivity|]. split; [discriminate|].
      split; [exact Hfr|]. split; [reflexivity|].
      split; [apply dom_kept|].
      split; [|split; [|split]].
      * rewrite lookup_splice by (rewrite length_take; cbn [length]; lia).
        rewrite decide_False, decide_True by (cbn [length]; lia).
        rewrite Nat.sub_diag. reflexivity.
      * intros i Hi Hne.
        rewrite lookup_splice by (rewrite length_take; cbn [length]; lia).
        cbn [length]. repeat destruct (decide _); try reflexivity; lia.
      * intros Ht.
        rewrite lookup_splice by (rewrite length_take; cbn [length]; lia).
        cbn [length]. repeat destruct (decide _); try assumption.
        replace (Z.to_nat l - Z.to_nat size)%nat with 0%nat by lia. reflexivity.
      * reflexivity.
    + (* the buffer grows to size + 1 bytes *)
      assert (Hsl : size + 1 <= alloc_limit w) by lia.
      assert (Hc0 : 0 <= c) by lia.
      pose proof (capa_assert_heap_grow w b c l blk Hbody Hsm Hd Hc Hl Hb
                    size Hgt Hsmax Hc0 Hsl) as Hca.
      set (R := take (Z.to_nat (size + 1)) blk
                  ++ replicate (Z.to_nat (size + 1) - length blk) Undef) in *.
      set (blk1 := splice (Z.to_nat size) [zero] R) in *.
      set (nb := next_block w) in *.
      set (w1 := mk_world _ _ _ _) in Hca.
      assert (HR : length R = Z.to_nat (size + 1)).
      { subst R. rewrite length_app, length_take, length_replicate. lia. }
      assert (Hblk1 : length blk1 = Z.to_nat (size + 1))
        by (subst blk1; rewrite length_splice; cbn [length]; lia).
      assert (Hmod : size < size_modulus) by lia.
      rewrite (resize_commit_heap w size _ w1 nb size l blk1 Hfr Hca);
        try (subst w1; cbn [str heap small]; fields; hyps;
             first [reflexivity | lia | assumption | rewrite !length_body_with_field by side; lia]).
      set (blk' := splice (Z.to_nat size) [zero] blk1).
      set (w' := mk_world _ _ _ _).
      assert (Hblk' : length blk' = Z.to_nat (size + 1))
        by (subst blk'; rewrite length_splice; cbn [length]; lia).
      assert (Hr : reads w' (mk_state size size (heap_ptr nb 0))
                     (take (Z.to_nat (size + 1)) blk')).
      { apply reads_heap_intro; subst w' w1; cbn [str heap small];
          fields; hyps; first [reflexivity | lia | assumption | rewrite !length_body_with_field by side; lia]. }
      rewrite take_ge in Hr by lia.
      eexists _, w', _. split; [reflexivity|].
      split; [exact Hr|].
      cbn [len capa data is_embedded].
      split; [reflexivity|]. split; [lia|]. split; [reflexivity|].
      split; [intros; lia|]. split; [discriminate|].
      split.
      { subst w' w1. cbn [str frozen]. exact Hfr. }
      split; [reflexivity|].
      split.
      { subst w' w1. cbn [heap]. rewrite insert_insert_eq. apply dom_moved. }
      assert (Hpre : ∀ i, (i < Z.to_nat (c + 1))%nat →
                blk' !! i = take (Z.to_nat (c + 1)) blk !! i).
      { intros i Hi. subst blk' blk1.
        rewrite !lookup_splice by (cbn [length]; lia).
        rewrite !decide_True by lia. subst R.
        rewrite lookup_app_l by (rewrite length_take; lia).
        rewrite !lookup_take_lt by lia. reflexivity. }
      split; [|split; [|split]].
      * subst blk'. rewrite lookup_splice by (cbn [length]; lia).
        rewrite decide_False, decide_True by (cbn [length]; lia).
        rewrite Nat.sub_diag. reflexivity.
      * intros i Hi Hne. apply Hpre. lia.
      * intros Ht. rewrite Hpre by lia. exact Ht.
      * intros; lia.
Qed.

(** * The accessors and the snapshot *)

Lemma state_accessors w st :
  fio_str_state self w = Ok st w →
  fio_str_len self w = Ok (len st) w
  ∧ fio_str_capa self w = Ok (capa st) w
  ∧ fio_str_data self w = Ok (data st) w.
Proof.
  destruct w as [[sm fr bd] h n lim].
  unfold fio_str_state, fio_str_len, fio_str_capa, fio_str_data.
  mcbv. unfold field. cbn [body].
  intros H.
  repeat (case_match; mcbv; unfold field in *; cbn [str body] in *; simplify_eq);
    auto.
Qed.

(** * Appending *)

Lemma refuses_not w bs n :
  frozen (str w) = 0 → n ≠ 0 → refuses self (Some bs) n w = Ok false w.
Proof.
  intros Hfr Hn. unfold refuses. rewrite eqb_false by assumption.
  mcbv. rewrite Hfr. reflexivity.
Qed.

Lemma memcpy_from_store p bs n :
  0 <= n <= Z.of_nat (length bs) →
  memcpy_from p (Some bs) n = store_cells p (map Byte (take (Z.to_nat n) bs)).
Proof.
  intros Hn. unfold memcpy_from.
  rewrite !leb_true by lia. reflexivity.
Qed.

Lemma write_reads w st B bs n :
  reads w st B →
  frozen (str w) = 0 →
  0 < n → n <= Z.of_nat (length bs) →
  len st + n + 1 < size_modulus →
  (capa st < len st + n → len st + n + 1 <= alloc_limit w) →
  ∃ st' w' B',
    fio_str_write self (Some bs) n w = Ok st' w'
    ∧ reads w' st' B'
    ∧ len st' = len st + n
    ∧ capa st' = Z.max (capa st) (len st + n)
    ∧ is_embedded st' = is_embedded st && (len st + n <? FIO_STR_SMALL_CAPA)
    ∧ (len st + n <= capa st → data st' = data st)
    ∧ frozen (str w') = 0
    ∧ alloc_limit w' = alloc_limit w
    ∧ dom (heap w') = block_of st' ∪ (dom (heap w) ∖ block_of st)
    ∧ take (Z.to_nat (len st' + 1)) B'
      = take (Z.to_nat (len st)) B ++ map Byte (take (Z.to_nat n) bs) ++ [zero].
Proof.
  intros H Hfr Hn Hbs Hmax Hlim.
  destruct (reads_bounds w st B H) as (Hl & _ & HB & _).
  pose proof H as (_ & Hst & _).
  destruct (state_accessors w st Hst) as (Hlen & _ & _).
  destruct (resize_reads w st B (len st + n) H Hfr)
    as (st1 & w1 & B1 & Hrs & H1 & Hl1 & Hc1 & He1 & Hd1 & Htag1 & Hfr1 & Hlim1
        & Hdom1 & Hz1 & Hpre1 & _ & _); try lia.
  destruct (reads_bounds w1 st1 B1 H1) as (Hlc1 & _ & HB1 & _).
  set (xs := map Byte (take (Z.to_nat n) bs)).
  assert (Hxs : length xs = Z.to_nat n)
    by (subst xs; rewrite length_map, length_take; lia).
  destruct (reads_store w1 st1 B1 (len st) xs H1 Htag1)
    as (w2 & Hsto & H2 & _ & Hfr2 & Hlim2 & Hdom2); try lia.
  exists st1, w2, (splice (Z.to_nat (len st)) xs B1).
  split.
  { unfold fio_str_write.
    rewrite (bind_ok _ _ _ _ _ (refuses_not w bs n Hfr ltac:(lia))).
    rewrite (bind_ok _ _ _ _ _ Hlen).
    rewrite size_add_small by lia. rewrite (Z.add_comm n).
    rewrite (bind_ok _ _ _ _ _ Hrs).
    rewrite memcpy_from_store by lia. fold xs.
    replace (size_sub (len st1) n) with (len st)
      by (unfold size_sub, to_size_t; rewrite Hl1, Z.mod_small; lia).
    rewrite (bind_ok _ _ _ _ _ Hsto). reflexivity. }
  split; [exact H2|]. split; [exact Hl1|]. split; [exact Hc1|].
  split; [exact He1|]. split; [exact Hd1|].
  split; [lia|]. split; [lia|].
  split; [rewrite Hdom2; exact Hdom1|].
  apply list_eq. intros i.
  rewrite lookup_take, !lookup_app_decide, length_take, lookup_take.
  rewrite lookup_splice by lia. rewrite Hxs. cbn [length].
  repeat destruct (decide _); try lia.
  - apply Hpre1; lia.
  - f_equal. lia.
  - replace i with (Z.to_nat (len st + n)) by lia. rewrite Hz1.
    replace (_ - _ - _)%nat with 0%nat by lia. reflexivity.
  - symmetry. apply lookup_ge_None. cbn [length]. lia.
Qed.

Lemma ptr_add_add p a b : ptr_add (ptr_add p a) b = ptr_add p (a + b).
Proof. destruct p; cbn; f_equal; lia. Qed.

Lemma load_cells_length p n w xs w' :
  load_cells p n w = Ok xs w' → length xs = Z.to_nat n.
Proof.
  assert (Hgen : ∀ o (l : list cell), in_range o n l = true →
            length (slice o n l) = Z.to_nat n).
  { intros o l Hin. unfold in_range in Hin.
    rewrite !andb_true_iff, !Z.leb_le in Hin. apply length_slice; lia. }
  unfold load_cells. destruct p as [|o|b o]; [discriminate| |].
  - destruct (in_range o n (body (str w))) eqn:Hin; [|discriminate].
    intros E. apply ok_inj in E as [<- _]. apply Hgen, Hin.
  - destruct (heap w !! b) as [blk|]; [|discriminate].
    destruct (in_range o n blk) eqn:Hin; [|discriminate].
    intros E. apply ok_inj in E as [<- _]. apply Hgen, Hin.
Qed.

Lemma read_in_ok {A} (src : world) (m : M A) a src' w :
  m src = Ok a src' → read_in src m w = Ok a w.
Proof. intros H. unfold read_in. rewrite H. reflexivity. Qed.

Lemma concat_reads w st B srcw sst xs :
  reads w st B →
  frozen (str w) = 0 →
  fio_str_state self srcw = Ok sst srcw →
  contents sst srcw = Ok xs srcw →
  0 < len sst →
  len st + len sst + 1 < size_modulus →
  (capa st < len st + len sst → len st + len sst + 1 <= alloc_limit w) →
  ∃ st' w' B',
    fio_str_concat self (Some srcw) w = Ok st' w'
    ∧ reads w' st' B'
    ∧ len st' = len st + len sst
    ∧ capa st' = Z.max (capa st) (len st + len sst)
    ∧ is_embedded st' = is_embedded st && (len st + len sst <? FIO_STR_SMALL_CAPA)
    ∧ (len st + len sst <= capa st → data st' = data st)
    ∧ frozen (str w') = 0
    ∧ alloc_limit w' = alloc_limit w
    ∧ dom (heap w') = block_of st' ∪ (dom (heap w) ∖ block_of st)
    ∧ take (Z.to_nat (len st' + 1)) B' = take (Z.to_nat (len st)) B ++ xs ++ [zero].
Proof.
  intros H Hfr Hsst Hxs0 Hn Hmax Hlim.
  set (n := len sst) in *.
  destruct (reads_bounds w st B H) as (Hl & _ & HB & _).
  pose proof H as (_ & Hst & _).
  destruct (state_accessors w st Hst) as (Hlen & _ & _).
  destruct (resize_reads w st B (len st + n) H Hfr)
    as (st1 & w1 & B1 & Hrs & H1 & Hl1 & Hc1 & He1 & Hd1 & Htag1 & Hfr1 & Hlim1
        & Hdom1 & Hz1 & Hpre1 & _ & _); try lia.
  destruct (reads_bounds w1 st1 B1 H1) as (Hlc1 & _ & HB1 & _).
  assert (Hxs : length xs = Z.to_nat n) by (eapply load_cells_length; exact Hxs0).
  destruct (reads_store w1 st1 B1 (len st) xs H1 Htag1)
    as (w2 & Hsto & H2 & _ & Hfr2 & Hlim2 & Hdom2); try lia.
  exists st1, w2, (splice (Z.to_nat (len st)) xs B1).
  split.
  { unfold fio_str_concat.
    rewrite (bind_ok get_frozen _ w (frozen (str w)) w eq_refl), Hfr.
    cbn [Z.eqb negb].
    rewrite (bind_ok _ _ _ _ _ (read_in_ok srcw _ _ _ w Hsst)).
    fold n. rewrite eqb_false by lia.
    rewrite (bind_ok _ _ _ _ _ Hlen).
    rewrite size_add_small by lia. rewrite (Z.add_comm n).
    rewrite (bind_ok _ _ _ _ _ Hrs).
    rewrite (bind_ok _ _ _ _ _ (read_in_ok srcw _ _ _ w1 Hxs0)).
    rewrite ptr_add_add. replace (len st1 + - n) with (len st) by lia.
    rewrite (bind_ok _ _ _ _ _ Hsto). reflexivity. }
  split; [exact H2|]. split; [exact Hl1|]. split; [exact Hc1|].
  split; [exact He1|]. split; [exact Hd1|].
  split; [lia|]. split; [lia|].
  split; [rewrite Hdom2; exact Hdom1|].
  apply list_eq. intros i.
  rewrite lookup_take, !lookup_app_decide, length_take, lookup_take.
  rewrite lookup_splice by lia. rewrite Hxs. cbn [length].
  repeat destruct (decide _); try lia.
  - apply Hpre1; lia.
  - f_equal. lia.
  - replace i with (Z.to_nat (len st + n)) by lia. rewrite Hz1.
    replace (_ - _ - _)%nat with 0%nat by lia. reflexivity.
  - symmetry. apply lookup_ge_None. cbn [length]. lia.
Qed.

(** * Positions *)

Lemma reads_get_len w st B :
  reads w st B → is_embedded st = false → get_len w = Ok (len st) w.
Proof.
  intros H He.
  destruct (reads_cases w st B H)
    as [(Hsm & -> & Hl & ->)
       |(b & c & l & blk & Hsm & Hd & Hc & Hl & Hb & Hblk & Hlc & Hcmax & -> & ->)].
  - discriminate He.
  - mcbv. rewrite Hl. reflexivity.
Qed.

Lemma to_intptr_of_size v :
  - 2 ^ 63 <= v < 2 ^ 63 → to_intptr_t (to_size_t v) = v.
Proof.
  intros Hv. unfold to_intptr_t, to_size_t, size_modulus.
  rewrite Zplus_mod_idemp_l. rewrite Z.mod_small by lia. lia.
Qed.

Lemma to_size_small v : 0 <= v < size_modulus → to_size_t v = v.
Proof. apply Z.mod_small. Qed.

Lemma to_intptr_small v : 0 <= v < 2 ^ 63 → to_intptr_t v = v.
Proof.
  intros Hv. unfold to_intptr_t, size_modulus. rewrite Z.mod_small by lia. lia.
Qed.

Lemma resolve_pos_nonneg w pos : 0 <= pos → resolve_pos pos w = Ok pos w.
Proof. intros H. unfold resolve_pos. rewrite ltb_false by lia. reflexivity. Qed.

Lemma resolve_pos_len w l pos :
  get_len w = Ok l w → 0 <= l → l + 1 < 2 ^ 63 → - 2 ^ 63 <= pos < 2 ^ 63 →
  resolve_pos pos w = Ok (if pos <? 0 then Z.max 0 (pos + l + 1) else pos) w.
Proof.
  intros Hlen Hl0 Hl Hpos. unfold resolve_pos.
  destruct (Z.ltb_spec pos 0) as [Hneg|Hnn]; [|reflexivity].
  rewrite (bind_ok _ _ _ _ _ Hlen). unfold ret. f_equal.
  assert (E : to_intptr_t (size_add (to_size_t pos) (size_add l 1)) = pos + l + 1).
  { rewrite (size_add_small l 1) by (unfold size_modulus; lia).
    unfold size_add, to_size_t. rewrite Zplus_mod_idemp_l.
    replace (pos + (l + 1)) with (pos + l + 1) by lia.
    apply to_intptr_of_size. lia. }
  rewrite E. destruct (Z.ltb_spec (pos + l + 1) 0); lia.
Qed.

Lemma reads_dom w st B :
  reads w st B → dom (heap w) = block_of st ∪ (dom (heap w) ∖ block_of st).
Proof.
  intros H. apply union_difference_L.
  destruct (reads_cases w st B H)
    as [(Hsm & -> & Hl & ->)
       |(b & c & l & blk & Hsm & Hd & Hc & Hl & Hb & Hblk & Hlc & Hcmax & -> & ->)];
    unfold block_of; cbn [data].
  - apply empty_subseteq.
  - apply singleton_subseteq_l, elem_of_dom. rewrite Hb. eauto.
Qed.

(** * Overwriting, on a heap buffer *)

Lemma overwrite_reads w st B bs n pos :
  reads w st B →
  is_embedded st = false →
  frozen (str w) = 0 →
  0 < n → n <= Z.of_nat (length bs) →
  - 2 ^ 63 <= pos < 2 ^ 63 →
  len st + n + 1 < 2 ^ 63 →
  let p := Z.min (len st) (if pos <? 0 then Z.max 0 (pos + len st + 1) else pos) in
  (capa st < p + n → p + n + 1 <= alloc_limit w) →
  ∃ st' w' B',
    fio_str_overwrite self (Some bs) n pos w = Ok st' w'
    ∧ reads w' st' B'
    ∧ len st' = Z.max (len st) (p + n)
    ∧ capa st' = Z.max (capa st) (p + n)
    ∧ is_embedded st' = false
    ∧ (p + n <= capa st → data st' = data st)
    ∧ frozen (str w') = 0
    ∧ alloc_limit w' = alloc_limit w
    ∧ dom (heap w') = block_of st' ∪ (dom (heap w) ∖ block_of st)
    ∧ take (Z.to_nat (len st' + 1)) B'
      = take (Z.to_nat p) B ++ map Byte (take (Z.to_nat n) bs)
          ++ (if p + n <=? len st
              then drop (Z.to_nat (p + n)) (take (Z.to_nat (len st + 1)) B)
              else [zero]).
Proof.
  intros H He Hfr Hn Hbs Hpos Hmax p Hlim.
  destruct (reads_bounds w st B H) as (Hl & Hcm & HB & _).
  pose proof H as (_ & Hst & _).
  pose proof (reads_get_len w st B H He) as Hlen.
  set (p0 := if pos <? 0 then Z.max 0 (pos + len st + 1) else pos) in *.
  assert (Hp0 : 0 <= p0 < 2 ^ 63)
    by (subst p0; destruct (pos <? 0) eqn:E; [|apply Z.ltb_ge in E]; lia).
  assert (Hp : 0 <= p <= len st) by (subst p; lia).
  assert (HM : size_modulus = 2 ^ 64) by reflexivity.
  set (xs := map Byte (take (Z.to_nat n) bs)).
  assert (Hxs : length xs = Z.to_nat n)
    by (subst xs; rewrite length_map, length_take; lia).
  assert (Hclamp : (if len st <? to_size_t p0 then to_intptr_t (len st) else p0) = p).
  { rewrite to_size_small by lia. subst p.
    destruct (Z.ltb_spec (len st) p0); [rewrite to_intptr_small|]; lia. }
  assert (Hstart :
    fio_str_overwrite self (Some bs) n pos w =
      (let* state :=
         (if len st <? p + n then fio_str_resize self (p + n) else ret st) in
       memcpy_from (ptr_add (data state) p) (Some bs) n ;;
       let* l := get_len in
       (if l <? p + n then set_len (p + n) else ret tt) ;;
       ret state) w).
  { unfold fio_str_overwrite.
    rewrite (bind_ok _ _ _ _ _ (refuses_not w bs n Hfr ltac:(lia))).
    rewrite (bind_ok _ _ _ _ _ (resolve_pos_len w (len st) pos Hlen ltac:(lia)
                                  ltac:(lia) Hpos)).
    fold p0. rewrite (bind_ok _ _ _ _ _ Hst).
    rewrite Hclamp. rewrite (to_size_small p) by lia.
    rewrite (size_add_small p n) by lia. reflexivity. }
  rewrite Hstart. clear Hstart.
  destruct (Z.ltb_spec (len st) (p + n)) as [Hgrow|Hfit].
  - (* the string grows to p + n *)
    destruct (resize_reads w st B (p + n) H Hfr)
      as (st1 & w1 & B1 & Hrs & H1 & Hl1 & Hc1 & He1 & Hd1 & Htag1 & Hfr1 & Hlim1
          & Hdom1 & Hz1 & Hpre1 & _ & _); try lia.
    destruct (reads_bounds w1 st1 B1 H1) as (Hlc1 & _ & HB1 & _).
    rewrite He in He1. cbn [andb] in He1.
    destruct (reads_store w1 st1 B1 p xs H1 Htag1)
      as (w2 & Hsto & H2 & _ & Hfr2 & Hlim2 & Hdom2); try lia.
    exists st1, w2, (splice (Z.to_nat p) xs B1).
    split.
    { rewrite (bind_ok _ _ _ _ _ Hrs).
      rewrite memcpy_from_store by lia. fold xs.
      rewrite (bind_ok _ _ _ _ _ Hsto).
      rewrite (bind_ok _ _ _ _ _ (reads_get_len w2 st1 _ H2 He1)).
      rewrite Hl1, Z.ltb_irrefl. reflexivity. }
    split; [exact H2|]. split; [lia|]. split; [lia|].
    split; [exact He1|]. split; [exact Hd1|].
    split; [lia|]. split; [lia|].
    split; [rewrite Hdom2; exact Hdom1|].
    rewrite leb_false by lia.
    apply list_eq. intros i.
    rewrite lookup_take, !lookup_app_decide, length_take, lookup_take.
    rewrite lookup_splice by lia. rewrite Hxs. cbn [length].
    repeat destruct (decide _); try lia.
    + apply Hpre1; lia.
    + f_equal. lia.
    + replace i with (Z.to_nat (p + n)) by lia. rewrite Hz1.
      replace (_ - _ - _)%nat with 0%nat by lia. reflexivity.
    + symmetry. apply lookup_ge_None. cbn [length]. lia.
  - (* inside the string *)
    destruct (reads_store w st B p xs H)
      as (w2 & Hsto & H2 & _ & Hfr2 & Hlim2 & Hdom2); try lia.
    { rewrite He. discriminate. }
    exists st, w2, (splice (Z.to_nat p) xs B).
    split.
    { unfold bind at 1, ret at 1.
      rewrite memcpy_from_store by lia. fold xs.
      rewrite (bind_ok _ _ _ _ _ Hsto).
      rewrite (bind_ok _ _ _ _ _ (reads_get_len w2 st _ H2 He)).
      rewrite ltb_false by lia. reflexivity. }
    split; [exact H2|]. split; [lia|]. split; [lia|].
    split; [exact He|]. split; [reflexivity|].
    split; [lia|]. split; [lia|].
    split; [rewrite Hdom2; apply (reads_dom w st B H)|].
    rewrite leb_true by lia.
    apply list_eq. intros i.
    rewrite lookup_take, !lookup_app_decide, length_take, lookup_take.
    rewrite lookup_splice by lia. rewrite Hxs, lookup_drop, lookup_take.
    repeat destruct (decide _); try lia.
    + reflexivity.
    + f_equal. lia.
    + f_equal. lia.
    + reflexivity.
Qed.

(** * Inserting *)

Lemma insert_reads w st B bs n pos :
  reads w st B →
  0 <= pos ∨ is_embedded st = false →
  frozen (str w) = 0 →
  0 < n → n <= Z.of_nat (length bs) →
  - 2 ^ 63 <= pos < 2 ^ 63 →
  len st + n + 1 < 2 ^ 63 →
  let p := Z.min (len st) (if pos <? 0 then Z.max 0 (pos + len st + 1) else pos) in
  (capa st < len st + n → len st + n + 1 <= alloc_limit w) →
  len st - p <= n →
  p + 2 * n <= Z.max (capa st) (len st + n) + 1 →
  B !! Z.to_nat (len st) = Some zero →
  ∃ st' w' B',
    fio_str_insert self (Some bs) n pos w = Ok st' w'
    ∧ reads w' st' B'
    ∧ len st' = len st + n
    ∧ capa st' = Z.max (capa st) (len st + n)
    ∧ is_embedded st' = is_embedded st && (len st + n <? FIO_STR_SMALL_CAPA)
    ∧ (len st + n <= capa st → data st' = data st)
    ∧ frozen (str w') = 0
    ∧ alloc_limit w' = alloc_limit w
    ∧ dom (heap w') = block_of st' ∪ (dom (heap w) ∖ block_of st)
    ∧ take (Z.to_nat (len st' + 1)) B'
      = take (Z.to_nat p) B ++ map Byte (take (Z.to_nat n) bs)
          ++ drop (Z.to_nat p) (take (Z.to_nat (len st)) B) ++ [zero].
Proof.
  intros H Hrep Hfr Hn Hbs Hpos Hmax p Hlim Htail Hroom Hterm.
  destruct (reads_bounds w st B H) as (Hl & Hcm & HB & _).
  pose proof H as (_ & Hst & _).
  destruct (state_accessors w st Hst) as (Hlen & _ & _).
  set (p0 := if pos <? 0 then Z.max 0 (pos + len st + 1) else pos) in *.
  assert (Hp0 : 0 <= p0 < 2 ^ 63)
    by (subst p0; destruct (pos <? 0) eqn:E; [|apply Z.ltb_ge in E]; lia).
  assert (Hp : 0 <= p <= len st) by (subst p; lia).
  assert (HM : size_modulus = 2 ^ 64) by reflexivity.
  set (xs := map Byte (take (Z.to_nat n) bs)).
  assert (Hxs : length xs = Z.to_nat n)
    by (subst xs; rewrite length_map, length_take; lia).
  assert (Hres : resolve_pos pos w = Ok p0 w).
  { destruct Hrep as [Hnn|He].
    - subst p0. rewrite ltb_false by lia. apply resolve_pos_nonneg. exact Hnn.
    - apply resolve_pos_len; try lia. apply (reads_get_len w st B H He). }
  destruct (resize_reads w st B (len st + n) H Hfr)
    as (st1 & w1 & B1 & Hrs & H1 & Hl1 & Hc1 & He1 & Hd1 & Htag1 & Hfr1 & Hlim1
        & Hdom1 & Hz1 & Hpre1 & Ht1 & _); try lia.
  destruct (reads_bounds w1 st1 B1 H1) as (Hlc1 & _ & HB1 & _).
  assert (Hclamp : (if size_sub (len st1) n <? to_size_t p0
                    then to_intptr_t (size_sub (len st1) n) else p0) = p).
  { replace (size_sub (len st1) n) with (len st)
      by (unfold size_sub, to_size_t; rewrite Hl1, Z.mod_small; lia).
    rewrite to_size_small by lia. subst p.
    destruct (Z.ltb_spec (len st) p0); [rewrite to_intptr_small|]; lia. }
  assert (Hmv : length (slice p n B1) = Z.to_nat n) by (apply length_slice; lia).
  pose proof (reads_load w1 st1 B1 p n H1 ltac:(lia) ltac:(lia) ltac:(lia)) as Hld.
  destruct (reads_store w1 st1 B1 (p + n) (slice p n B1) H1 Htag1)
    as (w2 & Hsto2 & H2 & Hsm2 & Hfr2 & Hlim2 & Hdom2); try lia.
  set (B2 := splice (Z.to_nat (p + n)) (slice p n B1) B1) in *.
  assert (HB2 : length B2 = length B1) by (subst B2; apply length_splice; lia).
  destruct (reads_store w2 st1 B2 p xs H2)
    as (w3 & Hsto3 & H3 & _ & Hfr3 & Hlim3 & Hdom3); try lia.
  { rewrite Hsm2. exact Htag1. }
  exists st1, w3, (splice (Z.to_nat p) xs B2).
  split.
  { unfold fio_str_insert.
    rewrite (bind_ok _ _ _ _ _ (refuses_not w bs n Hfr ltac:(lia))).
    rewrite (bind_ok _ _ _ _ _ Hres).
    rewrite (bind_ok _ _ _ _ _ Hlen).
    rewrite size_add_small by lia. rewrite (Z.add_comm n).
    rewrite (bind_ok _ _ _ _ _ Hrs).
    rewrite Hclamp. rewrite (to_size_small p) by lia.
    rewrite eqb_false by lia. cbn [negb].
    rewrite ptr_add_add. unfold memmove.
    rewrite (bind_ok _ (fun _ => _) w1 tt w2)
      by (rewrite (bind_ok _ _ _ _ _ Hld); exact Hsto2).
    rewrite memcpy_from_store by lia. fold xs.
    rewrite (bind_ok _ _ _ _ _ Hsto3). reflexivity. }
  split; [exact H3|]. split; [exact Hl1|]. split; [exact Hc1|].
  split; [exact He1|]. split; [exact Hd1|].
  split; [lia|]. split; [lia|].
  split; [rewrite Hdom3, Hdom2; exact Hdom1|].
  assert (HtpB : length (take (Z.to_nat p) B) = Z.to_nat p)
    by (rewrite length_take; lia).
  assert (HtlB : length (take (Z.to_nat (len st)) B) = Z.to_nat (len st))
    by (rewrite length_take; lia).
  apply list_eq. intros i.
  rewrite lookup_take, !lookup_app_decide, length_drop, HtpB, HtlB.
  rewrite lookup_take, lookup_drop, lookup_take.
  rewrite lookup_splice by lia. subst B2.
  rewrite lookup_splice by lia. rewrite Hxs, Hmv. cbn [length].
  repeat destruct (decide _); try lia.
  - apply Hpre1; lia.
  - reflexivity.
  - rewrite lookup_slice by lia.
    rewrite Hpre1 by lia. f_equal. lia.
  - rewrite lookup_slice by lia.
    replace (Z.to_nat p + (i - Z.to_nat (p + n)))%nat with (Z.to_nat (len st)) by lia.
    rewrite (Ht1 Hterm).
    replace (_ - _ - _ - _)%nat with 0%nat by lia. reflexivity.
  - replace i with (Z.to_nat (len st + n)) by lia. rewrite Hz1.
    replace (_ - _ - _ - _)%nat with 0%nat by lia. reflexivity.
  - symmetry. apply lookup_ge_None. cbn [length]. lia.
Qed.

(** * What [fio_str_capa_assert] does to a well-formed container *)

Lemma capa_assert_reads w st B needed :
  reads w st B →
  0 <= needed → needed + 1 < size_modulus →
  (capa st < needed → needed + 1 <= alloc_limit w) →
  ∃ st' w' B',
    fio_str_capa_assert self needed w = Ok st' w'
    ∧ reads w' st' B'
    ∧ len st' = len st
    ∧ capa st' = Z.max (capa st) needed
    ∧ is_embedded st' = is_embedded st && (needed <? FIO_STR_SMALL_CAPA)
    ∧ (needed <= capa st → w' = w ∧ st' = st ∧ B' = B)
    ∧ frozen (str w')
      = (if is_embedded st && (FIO_STR_SMALL_CAPA <=? needed) then 0
         else frozen (str w))
    ∧ alloc_limit w' = alloc_limit w
    ∧ dom (heap w') = block_of st' ∪ (dom (heap w) ∖ block_of st)
    ∧ (∀ i, (i < Z.to_nat (len st))%nat → B' !! i = B !! i)
    ∧ (B !! Z.to_nat (len st) = Some zero → B' !! Z.to_nat (len st) = Some zero).
Proof.
  intros H Hs0 Hsmax Hlim. pose proof H as ([Hbody _] & _ & _).
  assert (Hcap : FIO_STR_SMALL_CAPA = 30) by reflexivity.
  destruct (reads_cases w st B H)
    as [(Hsm & Est & Hn & EB)
       |(b & c & l & blk & Hsm & Hd & Hc & Hl & Hb & Hblk & Hlc & Hcmax & Est & EB)].
  - set (n := Z.shiftr (small (str w)) 1) in *.
    destruct (Z.ltb_spec needed FIO_STR_SMALL_CAPA) as [Hlt|Hge].
    + exists st, w, B.
      rewrite (capa_assert_small_keep w Hsm needed Hlt). fold n. rewrite <- Est.
      split; [reflexivity|]. split; [exact H|]. subst st. cbn [len capa data is_embedded andb].
      split; [reflexivity|]. split; [lia|]. split; [reflexivity|].
      split; [auto|]. rewrite leb_false by lia.
      split; [reflexivity|]. split; [reflexivity|].
      split; [apply dom_embedded|]. auto.
    + subst st B. cbn [len capa data is_embedded andb] in *.
      assert (Hsl : needed + 1 <= alloc_limit w) by lia.
      pose proof (capa_assert_small_promote w Hbody Hsm needed Hge Hsmax Hsl Hn) as Hca.
      fold n in Hca.
      set (X := if n =? 0 then [zero] else slice 0 (n + 1) (body (str w))) in *.
      set (blk1 := splice 0 X (replicate (Z.to_nat (needed + 1)) Undef)) in *.
      set (nb := next_block w) in *.
      set (w1 := mk_world _ _ _ _) in Hca.
      assert (HX : length X = Z.to_nat (n + 1)).
      { subst X. destruct (Z.eqb_spec n 0) as [->|]; [reflexivity|].
        rewrite slice_0, length_take. lia. }
      assert (Hblk1 : length blk1 = Z.to_nat (needed + 1)).
      { subst blk1. rewrite length_splice; rewrite length_replicate; lia. }
      assert (Hmod : needed < size_modulus ∧ n < size_modulus)
        by (unfold size_modulus in *; lia).
      assert (Hr : reads w1 (mk_state needed n (heap_ptr nb 0))
                     (take (Z.to_nat (needed + 1)) blk1)).
      { apply reads_heap_intro; subst w1; cbn [str heap small];
          fields; first [reflexivity | lia]. }
      rewrite take_ge in Hr by lia.
      eexists _, w1, _. split; [exact Hca|].
      split; [exact Hr|].
      cbn [len capa data is_embedded].
      split; [reflexivity|]. split; [lia|].
      split; [reflexivity|]. split; [intros; lia|].
      rewrite leb_true by lia.
      split; [reflexivity|]. split; [reflexivity|].
      split; [apply dom_added|].
      assert (HX' : ∀ i, (i < Z.to_nat (n + 1))%nat → blk1 !! i = X !! i).
      { intros i Hi. subst blk1.
        rewrite lookup_splice by (rewrite length_replicate; lia).
        rewrite decide_False, decide_True by lia. f_equal. lia. }
      split.
      * intros i Hi. rewrite HX' by lia.
        subst X. rewrite eqb_false by lia.
        apply lookup_slice; lia.
      * intros Ht. rewrite HX' by lia. subst X.
        destruct (Z.eqb_spec n 0) as [Hz|Hnz].
        -- rewrite Hz. reflexivity.
        -- rewrite lookup_slice by lia. exact Ht.
  - destruct (Z.leb_spec needed c) as [Hle|Hgt].
    + exists st, w, B.
      rewrite (capa_assert_heap_keep w b c l Hsm Hd Hc Hl needed Hle). rewrite <- Est.
      split; [reflexivity|]. split; [exact H|]. subst st. cbn [len capa data is_embedded andb].
      split; [reflexivity|]. split; [lia|]. split; [reflexivity|].
      split; [auto|].
      split; [reflexivity|]. split; [reflexivity|].
      split; [|auto].
      apply (reads_dom w _ _ H).
    + subst st B. cbn [len capa data is_embedded andb] in *.
      assert (Hsl : needed + 1 <= alloc_limit w) by lia.
      assert (Hc0 : 0 <= c) by lia.
      pose proof (capa_assert_heap_grow w b c l blk Hbody Hsm Hd Hc Hl Hb
                    needed Hgt Hsmax Hc0 Hsl) as Hca.
      set (R := take (Z.to_nat (needed + 1)) blk
                  ++ replicate (Z.to_nat (needed + 1) - length blk) Undef) in *.
      set (blk1 := splice (Z.to_nat needed) [zero] R) in *.
      set (nb := next_block w) in *.
      set (w1 := mk_world _ _ _ _) in Hca.
      assert (HR : length R = Z.to_nat (needed + 1)).
      { subst R. rewrite length_app, length_take, length_replicate. lia. }
      assert (Hblk1 : length blk1 = Z.to_nat (needed + 1))
        by (subst blk1; rewrite length_splice; cbn [length]; lia).
      assert (Hmod : needed < size_modulus) by lia.
      assert (Hr : reads w1 (mk_state needed l (heap_ptr nb 0))
                     (take (Z.to_nat (needed + 1)) blk1)).
      { apply reads_heap_intro; subst w1; cbn [str heap small];
          fields; hyps;
          first [reflexivity | lia | assumption
                | rewrite !length_body_with_field by side; lia]. }
      rewrite take_ge in Hr by lia.
      eexists _, w1, _. split; [exact Hca|].
      split; [exact Hr|].
      cbn [len capa data is_embedded].
      split; [reflexivity|]. split; [lia|].
      split; [reflexivity|]. split; [intros; lia|].
      split; [reflexivity|]. split; [reflexivity|].
      split; [apply dom_moved|].
      assert (Hpre : ∀ i, (i < Z.to_nat (c + 1))%nat →
                blk1 !! i = take (Z.to_nat (c + 1)) blk !! i).
      { intros i Hi. subst blk1.
        rewrite !lookup_splice by (cbn [length]; lia).
        rewrite !decide_True by lia. subst R.
        rewrite lookup_app_l by (rewrite length_take; lia).
        rewrite !lookup_take_lt by lia. reflexivity. }
      split.
      * intros i Hi. apply Hpre. lia.
      * intros Ht. rewrite Hpre by lia. exact Ht.
Qed.

(** * From what a container shows to its buffer *)

Lemma reads_of w st cs :
  wf w → fio_str_state self w = Ok st w → contents st w = Ok cs w →
  ∃ B, reads w st B ∧ cs = take (Z.to_nat (len st)) B.
Proof.
  intros Hwf Hst Hcs. destruct (wf_reads w Hwf) as (st0 & B & H).
  pose proof H as (_ & Hst0 & _).
  rewrite Hst in Hst0. apply ok_inj in Hst0 as [<- _].
  exists B. split; [exact H|].
  rewrite (reads_contents w st B H) in Hcs. apply ok_inj in Hcs as [Hcs _].
  symmetry. exact Hcs.
Qed.

Lemma reads_of_c_string w st cs t :
  wf w → fio_str_state self w = Ok st w → c_string st w = Ok (cs ++ [t]) w →
  ∃ B, reads w st B ∧ cs = take (Z.to_nat (len st)) B
       ∧ B !! Z.to_nat (len st) = Some t.
Proof.
  intros Hwf Hst Hcs. destruct (wf_reads w Hwf) as (st0 & B & H).
  pose proof H as (_ & Hst0 & _).
  rewrite Hst in Hst0. apply ok_inj in Hst0 as [<- _].
  destruct (reads_bounds w st B H) as (Hl & _ & HB & _).
  exists B. split; [exact H|].
  rewrite (reads_c_string w st B H) in Hcs. apply ok_inj in Hcs as [Hcs _].
  assert (Hlen : length cs = Z.to_nat (len st)).
  { apply (f_equal length) in Hcs. rewrite length_take, length_app in Hcs.
    cbn [length] in Hcs. lia. }
  split.
  - symmetry. eapply take_snoc_inv; [|shelve].
    rewrite <- Hcs. f_equal. lia. Unshelve. lia.
  - apply (f_equal (λ l, l !! Z.to_nat (len st))) in Hcs.
    rewrite lookup_take_lt in Hcs by lia. rewrite Hcs.
    rewrite lookup_app_r by lia. rewrite Hlen, Nat.sub_diag. reflexivity.
Qed.

(** * [fio_str_free] *)

Lemma free_reads w st B :
  reads w st B →
  fio_str_free self w =
    Ok tt (mk_world FIO_STR_INIT
             (match data st with
              | heap_ptr b _ => delete b (heap w)
              | _ => heap w
              end) (next_block w) (alloc_limit w)).
Proof.
  intros H.
  destruct (reads_cases w st B H)
    as [(Hsm & -> & Hl & ->)
       |(b & c & l & blk & Hsm & Hd & Hc & Hl & Hb & Hblk & Hlc & Hcmax & -> & ->)];
    cbn [data].
  - unfold fio_str_free. revert Hsm. mcbv.
    destruct (small (str w) =? 0); [|reflexivity].
    destruct (decode_ptr (field data_at (str w))) as [[| |]|]; mcbv;
      try discriminate.
    reflexivity.
  - unfold fio_str_free. msimp. reflexivity.
Qed.

(** * When the allocator refuses *)

Lemma grants_false size w :
  0 <= size < size_modulus → alloc_limit w < size + 1 →
  grants (size_add size 1) w = false.
Proof.
  intros Hs Hlim. unfold grants, size_add, to_size_t.
  destruct (decide (size + 1 = size_modulus)) as [E|E].
  - rewrite E, Z_mod_same_full. reflexivity.
  - rewrite Z.mod_small by lia. rewrite (leb_false (size + 1)) by lia.
    apply andb_false_r.
Qed.

Lemma capa_assert_exit w st B needed :
  reads w st B →
  capa st < needed → 0 <= needed < size_modulus →
  grants (size_add needed 1) w = false →
  fio_str_capa_assert self needed w = Exit.
Proof.
  intros H Hgt Hn Hno. pose proof H as ([Hbody _] & _ & _).
  assert (Hcap : FIO_STR_SMALL_CAPA = 30) by reflexivity.
  destruct (reads_cases w st B H)
    as [(Hsm & -> & Hl & ->)
       |(b & c & l & blk & Hsm & Hd & Hc & Hl & Hb & Hblk & Hlc & Hcmax & -> & ->)];
    cbn [capa] in Hgt.
  - apply capa_assert_small_exit; [assumption|lia|assumption].
  - eapply capa_assert_heap_exit; eassumption.
Qed.

Lemma resize_exit w st B size :
  reads w st B →
  frozen (str w) = 0 →
  capa st < size → 0 <= size < size_modulus →
  grants (size_add size 1) w = false →
  fio_str_resize self size w = Exit.
Proof.
  intros H Hfr Hgt Hs Hno. unfold fio_str_resize.
  rewrite (bind_ok get_frozen _ w (frozen (str w)) w eq_refl), Hfr.
  cbn [Z.eqb negb]. unfold bind at 1.
  rewrite (capa_assert_exit w st B size H Hgt Hs Hno). reflexivity.
Qed.

Lemma write_exit w st B bs n :
  reads w st B →
  frozen (str w) = 0 →
  0 < n → capa st < len st + n → len st + n < size_modulus →
  grants (size_add (len st + n) 1) w = false →
  fio_str_write self (Some bs) n w = Exit.
Proof.
  intros H Hfr Hn Hgt Hmax Hno.
  destruct (reads_bounds w st B H) as (Hl & _ & _ & _).
  pose proof H as (_ & Hst & _).
  destruct (state_accessors w st Hst) as (Hlen & _ & _).
  unfold fio_str_write.
  rewrite (bind_ok _ _ _ _ _ (refuses_not w bs n Hfr ltac:(lia))).
  rewrite (bind_ok _ _ _ _ _ Hlen).
  rewrite size_add_small by lia. rewrite (Z.add_comm n).
  unfold bind at 1.
  rewrite (resize_exit w st B (len st + n) H Hfr) by (assumption || lia).
  reflexivity.
Qed.

Lemma concat_exit w st B srcw sst :
  reads w st B →
  frozen (str w) = 0 →
  fio_str_state self srcw = Ok sst srcw →
  0 < len sst → capa st < len st + len sst → len st + len sst < size_modulus →
  grants (size_add (len st + len sst) 1) w = false →
  fio_str_concat self (Some srcw) w = Exit.
Proof.
  intros H Hfr Hsst Hn Hgt Hmax Hno.
  destruct (reads_bounds w st B H) as (Hl & _ & _ & _).
  pose proof H as (_ & Hst & _).
  destruct (state_accessors w st Hst) as (Hlen & _ & _).
  unfold fio_str_concat.
  rewrite (bind_ok get_frozen _ w (frozen (str w)) w eq_refl), Hfr.
  cbn [Z.eqb negb].
  rewrite (bind_ok _ _ _ _ _ (read_in_ok srcw _ _ _ w Hsst)).
  rewrite eqb_false by lia.
  rewrite (bind_ok _ _ _ _ _ Hlen).
  rewrite size_add_small by lia. rewrite (Z.add_comm (len sst)).
  unfold bind at 1.
  rewrite (resize_exit w st B (len st + len sst) H Hfr) by (assumption || lia).
  reflexivity.
Qed.

(** * What [fio_str_compact] does to a well-formed container *)

Lemma compact_reads w st B :
  reads w st B →
  (is_embedded st = false → FIO_STR_SMALL_CAPA <= len st →
   len st + 1 <= alloc_limit w) →
  ∃ st' w' B',
    fio_str_compact self w = Ok tt w'
    ∧ reads w' st' B'
    ∧ len st' = len st
    ∧ capa st'
      = (if is_embedded st then capa st
         else Z.max (len st) (FIO_STR_SMALL_CAPA - 1))
    ∧ is_embedded st' = is_embedded st || (len st <? FIO_STR_SMALL_CAPA)
    ∧ frozen (str w') = frozen (str w)
    ∧ alloc_limit w' = alloc_limit w
    ∧ dom (heap w') = block_of st' ∪ (dom (heap w) ∖ block_of st)
    ∧ (∀ i, (i < Z.to_nat (len st))%nat → B' !! i = B !! i)
    ∧ (B !! Z.to_nat (len st) = Some zero → B' !! Z.to_nat (len st) = Some zero)
    ∧ (is_embedded st = true → w' = w).
Proof.
  intros H Hlim. pose proof H as ([Hbody _] & _ & _).
  assert (Hcap : FIO_STR_SMALL_CAPA = 30) by reflexivity.
  destruct (reads_cases w st B H)
    as [(Hsm & Est & Hn & EB)
       |(b & c & l & blk & Hsm & Hd & Hc & Hl & Hb & Hblk & Hlc & Hcmax & Est & EB)].
  - exists st, w, B. rewrite (compact_small w Hsm).
    split; [reflexivity|]. split; [exact H|]. subst st.
    cbn [len capa data is_embedded orb].
    repeat split; try reflexivity; auto. apply dom_embedded.
  - subst st B. cbn [len capa data is_embedded orb] in *.
    specialize (Hlim eq_refl).
    destruct (Z.ltb_spec l FIO_STR_SMALL_CAPA) as [Hlt|Hge].
    + destruct (Z.eqb_spec l 0) as [Hz|Hnz].
      * (* an empty string goes back into the container *)
        by_shape compact_heap_empty.
        set (w1 := mk_world _ _ _ _).
        assert (Hr : reads w1 (mk_state (FIO_STR_SMALL_CAPA - 1) 0 (small_data 0))
                       (body (str w1))).
        { apply reads_small_intro; subst w1; cbn [str small];
            [reflexivity|discriminate|reflexivity|lia]. }
        eexists _, w1, _. split; [reflexivity|]. split; [exact Hr|].
        cbn [len capa data is_embedded].
        split; [lia|]. split; [lia|]. split; [reflexivity|].
        split; [reflexivity|]. split; [reflexivity|].
        split.
        { subst w1. cbn [heap]. unfold block_of. cbn [data].
          rewrite dom_delete_L, union_empty_l_L. reflexivity. }
        split; [intros i Hi; lia|]. split; [|discriminate].
        intros _. subst l. reflexivity.
      * (* the bytes go back into the container *)
        by_shape compact_heap_demote.
        set (X := slice 0 (l + 1) blk).
        set (w1 := mk_world _ _ _ _).
        assert (HX : length X = Z.to_nat (l + 1))
          by (subst X; rewrite slice_0, length_take; lia).
        assert (Hb1 : length (body (str w1)) = 30%nat).
        { subst w1. cbn [str body].
          rewrite length_splice; rewrite length_body_lit; lia. }
        assert (Hr : reads w1 (mk_state (FIO_STR_SMALL_CAPA - 1) l (small_data 0))
                       (body (str w1))).
        { apply reads_small_intro; [lia| | |lia]; subst w1; cbn [str small].
          - rewrite small_tag_spec; lia.
          - apply small_tag_len. lia. }
        eexists _, w1, _. split; [reflexivity|]. split; [exact Hr|].
        cbn [len capa data is_embedded].
        split; [reflexivity|]. split; [lia|]. split; [reflexivity|].
        split; [reflexivity|]. split; [reflexivity|].
        split.
        { subst w1. cbn [heap]. unfold block_of. cbn [data].
          rewrite dom_delete_L, union_empty_l_L. reflexivity. }
        assert (Hpre : ∀ i, (i < Z.to_nat (l + 1))%nat →
                  body (str w1) !! i = take (Z.to_nat (c + 1)) blk !! i).
        { intros i Hi. subst w1. cbn [str body].
          rewrite lookup_splice by (rewrite length_body_lit; lia).
          rewrite decide_False, decide_True by lia.
          subst X. rewrite lookup_slice by lia.
          rewrite lookup_take_lt by lia. f_equal. lia. }
        split; [intros i Hi; apply Hpre; lia|]. split; [|discriminate].
        intros Ht. rewrite Hpre by lia. exact Ht.
    + (* the buffer is cut to length + 1 bytes *)
      specialize (Hlim Hge).
      by_shape compact_heap_realloc.
      set (blk1 := take (Z.to_nat (l + 1)) blk ++ _).
      set (nb := next_block w).
      set (w1 := mk_world _ _ _ _).
      assert (Hblk1 : blk1 = take (Z.to_nat (l + 1)) blk).
      { subst blk1. replace (Z.to_nat (l + 1) - length blk)%nat with 0%nat by lia.
        apply app_nil_r. }
      assert (Hlen1 : length blk1 = Z.to_nat (l + 1))
        by (rewrite Hblk1, length_take; lia).
      assert (Hmod : l < size_modulus) by lia.
      assert (Hr : reads w1 (mk_state l l (heap_ptr nb 0))
                     (take (Z.to_nat (l + 1)) blk1)).
      { apply reads_heap_intro; subst w1; cbn [str heap small];
          fields; hyps;
          first [reflexivity | lia | assumption
                | rewrite !length_body_with_field by side; lia]. }
      rewrite take_ge in Hr by lia.
      eexists _, w1, _. split; [reflexivity|]. split; [exact Hr|].
      cbn [len capa data is_embedded].
      split; [reflexivity|]. split; [lia|]. split; [reflexivity|].
      split; [reflexivity|]. split; [reflexivity|].
      split; [apply dom_moved|].
      assert (Hpre : ∀ i, (i < Z.to_nat (l + 1))%nat →
                blk1 !! i = take (Z.to_nat (c + 1)) blk !! i).
      { intros i Hi. rewrite Hblk1, !lookup_take_lt by lia. reflexivity. }
      split; [intros i Hi; apply Hpre; lia|]. split; [|discriminate].
      intros Ht. rewrite Hpre by lia. exact Ht.
Qed.

(** * The frozen flag does not change what is read *)

Lemma reads_set_frozen w st B v :
  reads w st B → reads (set_frozen_world v w) st B.
Proof.
  intros ([Hbody Hshape] & Hst & HB). split; [|split].
  - split; [exact Hbody|].
    destruct Hshape as [Hsm Hn|Hsm Hd|b c l blk Hsm Hd Hc Hl Hb Hblk Hlc Hmax].
    + apply shape_small; assumption.
    + apply shape_blank; assumption.
    + apply (shape_heap _ b c l blk); assumption.
  - apply state_ignores_frozen. exact Hst.
  - revert HB. unfold buffer, load_cells, set_frozen_world.
    destruct (data st) as [|o|b o]; cbn [str body heap].
    + discriminate.
    + destruct (in_range _ _ _); [|discriminate].
      intros E. apply ok_inj in E as [<- _]. reflexivity.
    + destruct (heap w !! b); [|discriminate].
      destruct (in_range _ _ _); [|discriminate].
      intros E. apply ok_inj in E as [<- _]. reflexivity.
Qed.

(** * Stores that leave the terminator alone *)

Lemma in_range_inv o n (l : list cell) :
  in_range o n l = true → 0 <= o ∧ 0 <= n ∧ o + n <= Z.of_nat (length l).
Proof.
  unfold in_range. rewrite !andb_true_iff, !Z.leb_le. tauto.
Qed.

Lemma store_outside_terminator w st B o xs w' :
  reads w st B →
  (is_embedded st = true → small (str w) ≠ 0) →
  store_cells (ptr_add (data st) o) xs w = Ok tt w' →
  o + Z.of_nat (length xs) <= len st ∨ len st < o →
  ∃ B',
    reads w' st B'
    ∧ B' !! Z.to_nat (len st) = B !! Z.to_nat (len st)
    ∧ dom (heap w') = dom (heap w)
    ∧ small (str w') = small (str w)
    ∧ frozen (str w') = frozen (str w)
    ∧ alloc_limit w' = alloc_limit w.
Proof.
  intros H Htag Hsto Hout. pose proof H as ([Hbody _] & _ & _).
  assert (Hcap : FIO_STR_SMALL_CAPA = 30) by reflexivity.
  destruct (reads_cases w st B H)
    as [(Hsm & -> & Hl & ->)
       |(b & c & l & blk & Hsm & Hd & Hc & Hl & Hb & Hblk & Hlc & Hcmax & -> & ->)];
    cbn [len capa data ptr_add is_embedded] in *.
  - specialize (Htag eq_refl). unfold store_cells in Hsto.
    destruct (in_range (0 + o) _ _) eqn:Hin; [|discriminate].
    apply in_range_inv in Hin as (Ho & _ & Hfit).
    apply ok_inj in Hsto as [_ <-].
    set (w' := mk_world _ _ _ _).
    assert (Hb' : length (body (str w')) = length (body (str w))).
    { subst w'. cbn [str body]. apply length_splice. lia. }
    eexists. split.
    { apply reads_small_intro; [lia|exact Htag|reflexivity|exact Hl]. }
    split; [|auto].
    subst w'. cbn [str body]. rewrite lookup_splice by lia.
    repeat destruct (decide _); try reflexivity; lia.
  - unfold store_cells in Hsto. rewrite Hb in Hsto.
    destruct (in_range (0 + o) _ _) eqn:Hin; [|discriminate].
    apply in_range_inv in Hin as (Ho & _ & Hfit).
    apply ok_inj in Hsto as [_ <-].
    set (blk' := splice (Z.to_nat (0 + o)) xs blk).
    set (w' := mk_world _ _ _ _).
    assert (Hb' : heap w' !! b = Some blk') by (subst w'; cbn; apply lookup_insert_eq).
    assert (Hlen' : length blk' = length blk) by (apply length_splice; lia).
    eexists. split.
    { apply (reads_heap_intro w' b c l blk'); try assumption; lia. }
    split.
    { rewrite !lookup_take_lt by lia. subst blk'.
      rewrite lookup_splice by lia.
      repeat destruct (decide _); try reflexivity; lia. }
    split; [|auto].
    subst w'. cbn [heap]. apply dom_insert_lookup_L. rewrite Hb. eauto.
Qed.

(** * Calls that return keep the container in order *)

Lemma bind_ok_inv {A B} (m : M A) (k : A → M B) w b w' :
  bind m k w = Ok b w' → ∃ a w1, m w = Ok a w1 ∧ k a w1 = Ok b w'.
Proof. unfold bind. destruct (m w); [eauto|discriminate..]. Qed.

Lemma tidy_step (X X' D D' : gset nat) :
  D = X → D' = X' ∪ (D ∖ X) → D' = X'.
Proof.
  intros -> ->. rewrite difference_diag_L, union_empty_r_L. reflexivity.
Qed.

Lemma capa_assert_sound w needed st1 w1 :
  sound w →
  0 <= needed < size_modulus →
  fio_str_capa_assert self needed w = Ok st1 w1 →
  sound w1.
Proof.
  intros (st & B & H & Ht & Hdom) Hn Hrun.
  destruct (reads_bounds w st B H) as (Hl & Hcm & _ & _).
  assert (Hok : needed + 1 < size_modulus
                ∧ (capa st < needed → needed + 1 <= alloc_limit w)).
  { destruct (Z.lt_ge_cases (capa st) needed) as [Hgt|Hle]; [|lia].
    destruct (grants (size_add needed 1) w) eqn:Hg.
    - apply grants_size_add in Hg; [|lia]. lia.
    - rewrite (capa_assert_exit w st B needed H Hgt Hn Hg) in Hrun.
      discriminate. }
  destruct Hok as [Hmax Hlim].
  destruct (capa_assert_reads w st B needed H (proj1 Hn) Hmax Hlim)
    as (st' & w' & B' & Hrun' & H' & Hl' & _ & _ & _ & _ & _ & Hdom' & _ & Ht').
  rewrite Hrun in Hrun'. apply ok_inj in Hrun' as [-> ->].
  exists st', B'. split; [exact H'|]. split.
  - rewrite Hl'. apply Ht', Ht.
  - exact (tidy_step _ _ _ _ Hdom Hdom').
Qed.

Lemma compact_exit w st B :
  reads w st B →
  is_embedded st = false → FIO_STR_SMALL_CAPA <= len st →
  grants (size_add (len st) 1) w = false →
  fio_str_compact self w = Exit.
Proof.
  intros H He Hge Hno.
  destruct (reads_cases w st B H)
    as [(Hsm & -> & Hl & ->)
       |(b & c & l & blk & Hsm & Hd & Hc & Hl & Hb & Hblk & Hlc & Hcmax & -> & ->)];
    cbn [len is_embedded data] in *; [discriminate|].
  eapply compact_heap_exit; eassumption.
Qed.

Lemma compact_sound w w1 :
  sound w → fio_str_compact self w = Ok tt w1 → sound w1.
Proof.
  intros (st & B & H & Ht & Hdom) Hrun.
  destruct (reads_bounds w st B H) as (Hl & Hcm & _ & _).
  assert (Hlim : is_embedded st = false → FIO_STR_SMALL_CAPA <= len st →
                 len st + 1 <= alloc_limit w).
  { intros He Hge.
    destruct (grants (size_add (len st) 1) w) eqn:Hg.
    - apply grants_size_add in Hg; lia.
    - rewrite (compact_exit w st B H He Hge Hg) in Hrun. discriminate. }
  destruct (compact_reads w st B H Hlim)
    as (st' & w' & B' & Hrun' & H' & Hl' & _ & _ & _ & _ & Hdom' & _ & Ht' & _).
  rewrite Hrun in Hrun'. apply ok_inj in Hrun' as [_ ->].
  exists st', B'. split; [exact H'|]. split.
  - rewrite Hl'. apply Ht', Ht.
  - exact (tidy_step _ _ _ _ Hdom Hdom').
Qed.

Lemma resize_sound w st B size st1 w1 :
  reads w st B →
  dom (heap w) = block_of st →
  frozen (str w) = 0 →
  0 <= size < size_modulus →
  fio_str_resize self size w = Ok st1 w1 →
  ∃ B1,
    reads w1 st1 B1
    ∧ len st1 = size
    ∧ B1 !! Z.to_nat size = Some zero
    ∧ dom (heap w1) = block_of st1
    ∧ (is_embedded st1 = true → small (str w1) ≠ 0).
Proof.
  intros H Hdom Hfr Hs Hrun.
  destruct (reads_bounds w st B H) as (Hl & Hcm & _ & _).
  assert (Hok : size + 1 < size_modulus
                ∧ (capa st < size → size + 1 <= alloc_limit w)).
  { destruct (Z.lt_ge_cases (capa st) size) as [Hgt|Hle]; [|lia].
    destruct (grants (size_add size 1) w) eqn:Hg.
    - apply grants_size_add in Hg; [|lia]. lia.
    - rewrite (resize_exit w st B size H Hfr Hgt Hs Hg) in Hrun. discriminate. }
  destruct Hok as [Hmax Hlim].
  destruct (resize_reads w st B size H Hfr (proj1 Hs) Hmax Hlim)
    as (st' & w' & B' & Hrun' & H' & Hl' & _ & _ & _ & Htag' & _ & _ & Hdom'
        & Hz' & _).
  rewrite Hrun in Hrun'. apply ok_inj in Hrun' as [-> ->].
  exists B'. split; [exact H'|]. split; [exact Hl'|]. split; [exact Hz'|].
  split; [|exact Htag'].
  exact (tidy_step _ _ _ _ Hdom Hdom').
Qed.

Lemma state_sound w st w' :
  sound w → fio_str_state self w = Ok st w' → sound w'.
Proof.
  intros Hs Hst. pose proof Hs as (st0 & B & (_ & Hst0 & _) & _).
  rewrite Hst0 in Hst. apply ok_inj in Hst as [_ <-]. exact Hs.
Qed.

Lemma memcpy_from_inv p bs n w w' :
  memcpy_from p (Some bs) n w = Ok tt w' →
  0 <= n <= Z.of_nat (length bs)
  ∧ store_cells p (map Byte (take (Z.to_nat n) bs)) w = Ok tt w'.
Proof.
  unfold memcpy_from.
  destruct ((0 <=? n) && (n <=? Z.of_nat (length bs))) eqn:E; [|discriminate].
  apply andb_true_iff in E as [E1 E2]. apply Z.leb_le in E1, E2. auto.
Qed.

Lemma write_sound w src n st1 w1 :
  sound w →
  0 <= n < size_modulus →
  fio_str_write self src n w = Ok st1 w1 →
  sound w1.
Proof.
  intros Hs Hn Hrun. pose proof Hs as (st & B & H & Ht & Hdom).
  destruct (reads_bounds w st B H) as (Hl & Hcm & _ & _).
  pose proof H as (_ & Hst & _).
  destruct (state_accessors w st Hst) as (Hlen & _ & _).
  unfold fio_str_write in Hrun.
  apply bind_ok_inv in Hrun as (no & w0 & Hno & Hrun).
  assert (Hcase : w0 = w ∧ (no = true
                  ∨ no = false ∧ n ≠ 0 ∧ frozen (str w) = 0 ∧ ∃ bs, src = Some bs)).
  { revert Hno. unfold refuses.
    destruct (Z.eqb_spec n 0) as [Hz|Hnz].
    - intros E. apply ok_inj in E as [<- <-]. auto.
    - destruct src as [bs|].
      + mcbv. destruct (Z.eqb_spec (frozen (str w)) 0) as [Hfr|Hfr];
          intros E; apply ok_inj in E as [<- <-]; cbn [negb]; eauto 10.
      + intros E. apply ok_inj in E as [<- <-]. auto. }
  destruct Hcase as [-> [->|(-> & Hnz & Hfr & bs & ->)]].
  { eapply state_sound; eassumption. }
  rewrite (bind_ok _ _ _ _ _ Hlen) in Hrun.
  apply bind_ok_inv in Hrun as (st' & w' & Hrs & Hrun).
  set (size := size_add n (len st)) in *.
  assert (Hsize : 0 <= size < size_modulus)
    by (apply Z.mod_pos_bound; unfold size_modulus; lia).
  destruct (resize_sound w st B size st' w' H Hdom Hfr Hsize Hrs)
    as (B' & H' & Hl' & Hz' & Hdom' & Htag').
  apply bind_ok_inv in Hrun as ([] & w2 & Hcp & Hret).
  apply ok_inj in Hret as [-> ->].
  apply memcpy_from_inv in Hcp as [Hbs Hsto].
  set (xs := map Byte (take (Z.to_nat n) bs)) in *.
  assert (Hxs : Z.of_nat (length xs) = n)
    by (subst xs; rewrite length_map, length_take; lia).
  destruct (store_outside_terminator w' st1 B' _ xs w1 H' Htag' Hsto)
    as (B2 & H2 & Ht2 & Hdom2 & _).
  { rewrite Hxs, Hl'. unfold size_sub, to_size_t.
    destruct (Z.lt_ge_cases size n) as [Hlt|Hge].
    - right. rewrite <- (Z.mod_add (size - n) 1) by (unfold size_modulus; lia).
      rewrite Z.mod_small by lia. lia.
    - left. rewrite Z.mod_small by lia. lia. }
  exists st1, B2. split; [exact H2|]. split.
  - rewrite Ht2, Hl'. exact Hz'.
  - rewrite Hdom2. exact Hdom'.
Qed.

Lemma read_in_inv {A} (src : world) (m : M A) w a w' :
  read_in src m w = Ok a w' → w' = w ∧ ∃ src', m src = Ok a src'.
Proof.
  unfold read_in. destruct (m src) as [a' s'| |]; [|discriminate..].
  intros E. apply ok_inj in E as [<- <-]. eauto.
Qed.

Lemma load_cells_inv p n w xs w' :
  load_cells p n w = Ok xs w' → 0 <= n ∧ length xs = Z.to_nat n.
Proof.
  intros H. split; [|eapply load_cells_length; exact H].
  revert H. unfold load_cells. destruct p as [|o|b o]; [discriminate| |].
  - destruct (in_range o n _) eqn:Hin; [|discriminate].
    apply in_range_inv in Hin. tauto.
  - destruct (heap w !! b); [|discriminate].
    destruct (in_range o n _) eqn:Hin; [|discriminate].
    apply in_range_inv in Hin. tauto.
Qed.

Lemma concat_sound w src st1 w1 :
  sound w → fio_str_concat self src w = Ok st1 w1 → sound w1.
Proof.
  intros Hs Hrun. pose proof Hs as (st & B & H & Ht & Hdom).
  destruct (reads_bounds w st B H) as (Hl & Hcm & _ & _).
  pose proof H as (_ & Hst & _).
  destruct (state_accessors w st Hst) as (Hlen & _ & _).
  unfold fio_str_concat in Hrun.
  destruct src as [srcw|]; [|eapply state_sound; eassumption].
  rewrite (bind_ok get_frozen _ w (frozen (str w)) w eq_refl) in Hrun.
  destruct (Z.eqb_spec (frozen (str w)) 0) as [Hfr|Hfr]; cbn [negb] in Hrun;
    [|eapply state_sound; eassumption].
  apply bind_ok_inv in Hrun as (sst & w0 & Hsst & Hrun).
  apply read_in_inv in Hsst as [-> [srcw' Hsst]].
  destruct (Z.eqb_spec (len sst) 0) as [Hz|Hnz];
    [eapply state_sound; eassumption|].
  rewrite (bind_ok _ _ _ _ _ Hlen) in Hrun.
  apply bind_ok_inv in Hrun as (st' & w' & Hrs & Hrun).
  set (size := size_add (len sst) (len st)) in *.
  assert (Hsize : 0 <= size < size_modulus)
    by (apply Z.mod_pos_bound; unfold size_modulus; lia).
  destruct (resize_sound w st B size st' w' H Hdom Hfr Hsize Hrs)
    as (B' & H' & Hl' & Hz' & Hdom' & Htag').
  apply bind_ok_inv in Hrun as (xs & w2 & Hld & Hrun).
  apply read_in_inv in Hld as [-> [srcw'' Hld]].
  apply load_cells_inv in Hld as [Hn0 Hxs].
  apply bind_ok_inv in Hrun as ([] & w2 & Hsto & Hret).
  apply ok_inj in Hret as [-> ->].
  rewrite ptr_add_add in Hsto.
  destruct (store_outside_terminator w' st1 B' _ xs w1 H' Htag' Hsto)
    as (B2 & H2 & Ht2 & Hdom2 & _).
  { left. lia. }
  exists st1, B2. split; [exact H2|]. split.
  - rewrite Ht2, Hl'. exact Hz'.
  - rewrite Hdom2. exact Hdom'.
Qed.

Lemma free_sound w w1 :
  sound w → fio_str_free self w = Ok tt w1 → sound w1.
Proof.
  intros (st & B & H & Ht & Hdom) Hrun.
  rewrite (free_reads w st B H) in Hrun. apply ok_inj in Hrun as [_ <-].
  eexists _, _. split; [|split].
  - apply reads_small_intro; cbn [str]; [reflexivity|discriminate|reflexivity|].
    split; [discriminate|reflexivity].
  - reflexivity.
  - cbn [heap]. unfold block_of in *. cbn [data].
    destruct (data st) as [|o|b o]; try exact Hdom.
    rewrite dom_delete_L, Hdom. apply difference_diag_L.
Qed.

Lemma freeze_sound w w1 :
  sound w → fio_str_freeze self w = Ok tt w1 → sound w1.
Proof.
  intros (st & B & H & Ht & Hdom) Hrun.
  rewrite freeze_eq in Hrun. apply ok_inj in Hrun as [_ <-].
  exists st, B. split; [apply reads_set_frozen; exact H|]. auto.
Qed.

Lemma run_op_sound w o w1 :
  sound w → orderly o → run_op self o w = Ok tt w1 → sound w1.
Proof.
  intros Hs Ho Hrun. unfold run_op in Hrun.
  apply bind_ok_inv in Hrun as (r & w' & Hcall & Hret).
  apply ok_inj in Hret as [_ ->].
  destruct o as [| |needed|size|src n|src| | | |]; cbn [orderly well_typed] in Ho;
    try contradiction; unfold call in Hcall;
    apply bind_ok_inv in Hcall as (a & w2 & Hcall & Hret);
    apply ok_inj in Hret as [_ ->].
  - destruct a. eapply free_sound; eassumption.
  - eapply capa_assert_sound; eassumption.
  - pose proof Hs as (st & B & H & _ & Hdom).
    destruct (Z.eqb_spec (frozen (str w)) 0) as [Hfr|Hfr].
    + destruct (resize_sound w st B size a w1 H Hdom Hfr Ho Hcall)
        as (B1 & H1 & Hl1 & Hz1 & Hdom1 & _).
      exists a, B1. rewrite Hl1. auto.
    + pose proof H as (_ & Hst & _).
      rewrite (resize_frozen w st Hfr Hst) in Hcall.
      apply ok_inj in Hcall as [_ <-]. exact Hs.
  - eapply write_sound; eassumption.
  - eapply concat_sound; eassumption.
  - destruct a. eapply compact_sound; eassumption.
  - destruct a. eapply freeze_sound; eassumption.
Qed.

Lemma run_sound ops w w1 :
  sound w → Forall orderly ops → run self ops w = Ok tt w1 → sound w1.
Proof.
  intros Hs Hops. revert w Hs.
  induction Hops as [|o ops Ho _ IH]; intros w Hs Hrun.
  - apply ok_inj in Hrun as [_ <-]. exact Hs.
  - cbn [run] in Hrun. apply bind_ok_inv in Hrun as ([] & w' & Hop & Hrun).
    eapply IH; [|exact Hrun]. eapply run_op_sound; eassumption.
Qed.

(** * Further properties of the functions *)

Lemma wf_frozen_worl : wf frozen_worl.
Proof.
  split; [reflexivity|]. apply shape_small; cbn; [discriminate|].
  split; [discriminate|reflexivity].
Qed.

Lemma take_snoc_lookup (l : list cell) n x :
  l !! n = Some x → take (S n) l = take n l ++ [x].
Proof. apply take_S_r. Qed.

(** X1. The accessors return the fields of the snapshot: whenever
    [fio_str_state] can read the container, [fio_str_len], [fio_str_capa],
    [fio_str_data] and [fio_str_bytes] return its length, capacity and
    pointer, and leave the memory as it is. *)
Theorem accessors_agree (w : world) (st : fio_str_state_s) :
  fio_str_state self w = Ok st w →
  fio_str_len self w = Ok (len st) w
  ∧ fio_str_capa self w = Ok (capa st) w
  ∧ fio_str_data self w = Ok (data st) w
  ∧ fio_str_bytes self w = Ok (data st) w.
Proof.
  intros Hst. destruct (state_accessors w st Hst) as (Hl & Hc & Hd).
  auto.
Qed.

Lemma accessors_agree_witness :
  fio_str_len self forty = Ok 40 forty
  ∧ fio_str_capa self forty = Ok 100 forty
  ∧ fio_str_data self forty = Ok (heap_ptr 0 0) forty
  ∧ fio_str_bytes self forty = Ok (heap_ptr 0 0) forty.
Proof.
  apply (accessors_agree forty (mk_state 100 40 (heap_ptr 0 0))).
  reflexivity.
Defined.

(** X2. [fio_str_free] on a well-formed container returns, releases the
    heap buffer if there is one (and nothing else), and leaves the container
    equal to [FIO_STR_INIT]: embedded, empty, terminated and not frozen.  A
    second call changes nothing. *)
Theorem free_reinitialises (w : world) (st : fio_str_state_s) :
  wf w →
  fio_str_state self w = Ok st w →
  ∃ w',
    fio_str_free self w = Ok tt w'
    ∧ str w' = FIO_STR_INIT
    ∧ heap w' = match data st with
                | heap_ptr b _ => delete b (heap w)
                | _ => heap w
                end
    ∧ fio_str_state self w'
      = Ok (mk_state (FIO_STR_SMALL_CAPA - 1) 0 (small_data 0)) w'
    ∧ c_string (mk_state (FIO_STR_SMALL_CAPA - 1) 0 (small_data 0)) w'
      = Ok [zero] w'
    ∧ fio_str_free self w' = Ok tt w'.
Proof.
  intros Hwf Hst. destruct (wf_reads w Hwf) as (st0 & B & H).
  pose proof H as (_ & Hst0 & _).
  rewrite Hst in Hst0. apply ok_inj in Hst0 as [<- _].
  rewrite (free_reads w st B H).
  eexists. split; [reflexivity|]. repeat split.
Qed.

Lemma free_reinitialises_witness :
  ∃ w',
    fio_str_free self forty = Ok tt w'
    ∧ str w' = FIO_STR_INIT
    ∧ heap w' = delete 0%nat (heap forty)
    ∧ fio_str_state self w'
      = Ok (mk_state (FIO_STR_SMALL_CAPA - 1) 0 (small_data 0)) w'
    ∧ c_string (mk_state (FIO_STR_SMALL_CAPA - 1) 0 (small_data 0)) w'
      = Ok [zero] w'
    ∧ fio_str_free self w' = Ok tt w'.
Proof.
  apply (free_reinitialises forty (mk_state 100 40 (heap_ptr 0 0))).
  - exact wf_forty.
  - reflexivity.
Defined.



(** X4. [fio_str_clear] (that is, [fio_str_resize] to 0) on a well-formed
    container that is not frozen empties the string and keeps capacity,
    pointer and representation; it never calls the allocator, so it cannot
    end the process. *)
Theorem clear_keeps_buffer (w : world) (st : fio_str_state_s) :
  wf w →
  frozen (str w) = 0 →
  fio_str_state self w = Ok st w →
  ∃ w',
    fio_str_clear self w = Ok (mk_state (capa st) 0 (data st)) w'
    ∧ wf w'
    ∧ fio_str_state self w' = Ok (mk_state (capa st) 0 (data st)) w'
    ∧ c_string (mk_state (capa st) 0 (data st)) w' = Ok [zero] w'
    ∧ dom (heap w') = dom (heap w)
    ∧ alloc_limit w' = alloc_limit w.
Proof.
  intros Hwf Hfr Hst. destruct (wf_reads w Hwf) as (st0 & B & H).
  pose proof H as (_ & Hst0 & _).
  rewrite Hst in Hst0. apply ok_inj in Hst0 as [<- _].
  destruct (reads_bounds w st B H) as (Hl & Hcm & HB & _).
  destruct (resize_reads w st B 0 H Hfr)
    as (st1 & w1 & B1 & Hrs & H1 & Hl1 & Hc1 & He1 & Hd1 & Htag1 & Hfr1 & Hlim1
        & Hdom1 & Hz1 & _); try lia.
  assert (Est : st1 = mk_state (capa st) 0 (data st)).
  { destruct st1 as [c1 l1 d1]. cbn [len capa data] in *.
    rewrite Hd1 by lia. f_equal; lia. }
  subst st1. exists w1. unfold fio_str_clear.
  split; [exact Hrs|]. split; [apply H1|]. split; [apply H1|].
  split.
  - rewrite (reads_c_string w1 _ B1 H1). cbn [len]. f_equal.
    change (Z.to_nat (0 + 1)) with 1%nat.
    destruct B1 as [|x B1]; [discriminate Hz1|].
    cbn in Hz1. injection Hz1 as ->. reflexivity.
  - split; [|exact Hlim1]. rewrite Hdom1. symmetry. apply (reads_dom w st B H).
Qed.

Lemma clear_keeps_buffer_witness :
  ∃ w',
    fio_str_clear self forty = Ok (mk_state 100 0 (heap_ptr 0 0)) w'
    ∧ wf w'
    ∧ fio_str_state self w' = Ok (mk_state 100 0 (heap_ptr 0 0)) w'
    ∧ c_string (mk_state 100 0 (heap_ptr 0 0)) w' = Ok [zero] w'
    ∧ dom (heap w') = dom (heap forty)
    ∧ alloc_limit w' = alloc_limit forty.
Proof.
  apply (clear_keeps_buffer forty (mk_state 100 40 (heap_ptr 0 0))).
  - exact wf_forty.
  - reflexivity.
  - reflexivity.
Defined.

(** X5. [fio_str_write] on a well-formed container that is not frozen
    appends the first [n] bytes of the source: the content becomes the old
    content followed by these bytes and a terminator, the length grows by
    [n], the capacity becomes the new length when that is larger and stays
    otherwise. *)
Theorem write_appends (w : world) (st : fio_str_state_s) (cs : list cell)
    (bs : list byte) (n : Z) :
  wf w →
  frozen (str w) = 0 →
  fio_str_state self w = Ok st w →
  contents st w = Ok cs w →
  0 < n <= Z.of_nat (length bs) →
  len st + n + 1 < size_modulus →
  (capa st < len st + n → len st + n + 1 <= alloc_limit w) →
  ∃ st' w',
    fio_str_write self (Some bs) n w = Ok st' w'
    ∧ wf w'
    ∧ fio_str_state self w' = Ok st' w'
    ∧ len st' = len st + n
    ∧ capa st' = Z.max (capa st) (len st + n)
    ∧ dom (heap w') = block_of st' ∪ (dom (heap w) ∖ block_of st)
    ∧ c_string st' w' = Ok (cs ++ map Byte (take (Z.to_nat n) bs) ++ [zero]) w'.
Proof.
  intros Hwf Hfr Hst Hcs [Hn Hbs] Hmax Hlim.
  destruct (reads_of w st cs Hwf Hst Hcs) as (B & H & ->).
  destruct (write_reads w st B bs n H Hfr Hn Hbs Hmax Hlim)
    as (st1 & w1 & B1 & Hrun & H1 & Hl1 & Hc1 & _ & _ & _ & _ & Hdom1 & HB1).
  exists st1, w1.
  split; [exact Hrun|]. split; [apply H1|]. split; [apply H1|].
  split; [exact Hl1|]. split; [exact Hc1|]. split; [exact Hdom1|].
  rewrite (reads_c_string w1 st1 B1 H1), HB1. reflexivity.
Qed.

Lemma write_appends_witness :
  ∃ st' w',
    fio_str_write self (lit "d!") 2 worl = Ok st' w'
    ∧ wf w'
    ∧ fio_str_state self w' = Ok st' w'
    ∧ len st' = 4 + 2
    ∧ capa st' = Z.max 29 (4 + 2)
    ∧ dom (heap w') = block_of st' ∪ (dom (heap worl) ∖ ∅)
    ∧ c_string st' w' = Ok (text "Worl" ++ text "d!" ++ [zero]) w'.
Proof.
  apply (write_appends worl (mk_state 29 4 (small_data 0)) (text "Worl")
           (list_byte_of_string "d!") 2).
  - exact wf_worl.
  - reflexivity.
  - reflexivity.
  - reflexivity.
  - simpl. lia.
  - reflexivity.
  - simpl. lia.
Defined.

(** X6. [fio_str_concat] appends the content of the source container, as
    [fio_str_write] appends a buffer: the content of the destination
    becomes its old content followed by the content of the source and a
    terminator. *)
Theorem concat_appends (w : world) (st : fio_str_state_s) (cs : list cell)
    (srcw : world) (sst : fio_str_state_s) (xs : list cell) :
  wf w →
  frozen (str w) = 0 →
  fio_str_state self w = Ok st w →
  contents st w = Ok cs w →
  fio_str_state self srcw = Ok sst srcw →
  contents sst srcw = Ok xs srcw →
  0 < len sst →
  len st + len sst + 1 < size_modulus →
  (capa st < len st + len sst → len st + len sst + 1 <= alloc_limit w) →
  ∃ st' w',
    fio_str_concat self (Some srcw) w = Ok st' w'
    ∧ wf w'
    ∧ fio_str_state self w' = Ok st' w'
    ∧ len st' = len st + len sst
    ∧ capa st' = Z.max (capa st) (len st + len sst)
    ∧ dom (heap w') = block_of st' ∪ (dom (heap w) ∖ block_of st)
    ∧ c_string st' w' = Ok (cs ++ xs ++ [zero]) w'.
Proof.
  intros Hwf Hfr Hst Hcs Hsst Hxs Hn Hmax Hlim.
  destruct (reads_of w st cs Hwf Hst Hcs) as (B & H & ->).
  destruct (concat_reads w st B srcw sst xs H Hfr Hsst Hxs Hn Hmax Hlim)
    as (st1 & w1 & B1 & Hrun & H1 & Hl1 & Hc1 & _ & _ & _ & _ & Hdom1 & HB1).
  exists st1, w1.
  split; [exact Hrun|]. split; [apply H1|]. split; [apply H1|].
  split; [exact Hl1|]. split; [exact Hc1|]. split; [exact Hdom1|].
  rewrite (reads_c_string w1 st1 B1 H1), HB1. reflexivity.
Qed.

Lemma concat_appends_witness :
  ∃ st' w',
    fio_str_concat self (Some forty) worl = Ok st' w'
    ∧ wf w'
    ∧ fio_str_state self w' = Ok st' w'
    ∧ len st' = 4 + 40
    ∧ capa st' = Z.max 29 (4 + 40)
    ∧ dom (heap w') = block_of st' ∪ (dom (heap worl) ∖ ∅)
    ∧ c_string st' w'
      = Ok (text "Worl" ++ text "0123456789012345678901234567890123456789"
              ++ [zero]) w'.
Proof.
  apply (concat_appends worl (mk_state 29 4 (small_data 0)) (text "Worl")
           forty (mk_state 100 40 (heap_ptr 0 0))
           (text "0123456789012345678901234567890123456789")).
  - exact wf_worl.
  - reflexivity.
  - reflexivity.
  - reflexivity.
  - reflexivity.
  - reflexivity.
  - reflexivity.
  - reflexivity.
  - intros _. simpl. lia.
Defined.

(** X7. An empty or missing source is ignored: [fio_str_write],
    [fio_str_overwrite] and [fio_str_insert] with a length of 0 or a null
    source, and [fio_str_concat] with a null or an empty source container,
    return the snapshot of the container and leave the memory as it is,
    whatever the position and whether or not the container is frozen. *)
Theorem empty_source_ignored (w : world) (st : fio_str_state_s) :
  fio_str_state self w = Ok st w →
  (∀ src n pos,
     n = 0 ∨ src = None →
     fio_str_write self src n w = Ok st w
     ∧ fio_str_overwrite self src n pos w = Ok st w
     ∧ fio_str_insert self src n pos w = Ok st w)
  ∧ fio_str_concat self None w = Ok st w
  ∧ (∀ srcw sst,
       fio_str_state self srcw = Ok sst srcw → len sst = 0 →
       fio_str_concat self (Some srcw) w = Ok st w).
Proof.
  intros Hst. split; [|split].
  - intros src n pos Hsrc.
    assert (Hno : refuses self src n w = Ok true w).
    { unfold refuses. destruct Hsrc as [->| ->]; [reflexivity|].
      destruct (n =? 0); reflexivity. }
    unfold fio_str_write, fio_str_overwrite, fio_str_insert.
    rewrite !(bind_ok _ _ _ _ _ Hno). auto.
  - exact Hst.
  - intros srcw sst Hsst Hz. unfold fio_str_concat.
    rewrite (bind_ok get_frozen _ w (frozen (str w)) w eq_refl).
    destruct (negb (frozen (str w) =? 0)); [exact Hst|].
    rewrite (bind_ok _ _ _ _ _ (read_in_ok srcw _ _ _ w Hsst)).
    rewrite Hz. exact Hst.
Qed.

Lemma empty_source_ignored_witness :
  (∀ src n pos,
     n = 0 ∨ src = None →
     fio_str_write self src n forty = Ok (mk_state 100 40 (heap_ptr 0 0)) forty
     ∧ fio_str_overwrite self src n pos forty
       = Ok (mk_state 100 40 (heap_ptr 0 0)) forty
     ∧ fio_str_insert self src n pos forty
       = Ok (mk_state 100 40 (heap_ptr 0 0)) forty)
  ∧ fio_str_concat self None forty = Ok (mk_state 100 40 (heap_ptr 0 0)) forty
  ∧ (∀ srcw sst,
       fio_str_state self srcw = Ok sst srcw → len sst = 0 →
       fio_str_concat self (Some srcw) forty
       = Ok (mk_state 100 40 (heap_ptr 0 0)) forty).
Proof.
  apply (empty_source_ignored forty (mk_state 100 40 (heap_ptr 0 0))).
  reflexivity.
Defined.

(** X8. [fio_str_overwrite] on a heap string that is not frozen does what
    the header documents.  A negative position counts from the end ([-1] is
    the end), a position past the end is the end; the bytes of the source
    replace the bytes from that position on, the bytes before it and those
    behind the written range are kept, and when the written range ends past
    the old length the string grows to its end and gets a new terminator. *)
Theorem overwrite_on_heap (w : world) (st : fio_str_state_s) (cs : list cell)
    (t : cell) (bs : list byte) (n pos : Z) :
  wf w →
  frozen (str w) = 0 →
  fio_str_state self w = Ok st w →
  is_embedded st = false →
  c_string st w = Ok (cs ++ [t]) w →
  0 < n <= Z.of_nat (length bs) →
  - 2 ^ 63 <= pos < 2 ^ 63 →
  len st + n + 1 < 2 ^ 63 →
  let p := Z.min (len st) (if pos <? 0 then Z.max 0 (pos + len st + 1) else pos) in
  (capa st < p + n → p + n + 1 <= alloc_limit w) →
  ∃ st' w',
    fio_str_overwrite self (Some bs) n pos w = Ok st' w'
    ∧ wf w'
    ∧ fio_str_state self w' = Ok st' w'
    ∧ len st' = Z.max (len st) (p + n)
    ∧ capa st' = Z.max (capa st) (p + n)
    ∧ c_string st' w'
      = Ok (take (Z.to_nat p) cs ++ map Byte (take (Z.to_nat n) bs)
              ++ drop (Z.to_nat (p + n)) cs
              ++ [if p + n <=? len st then t else zero]) w'.
Proof.
  intros Hwf Hfr Hst He Hcs [Hn Hbs] Hpos Hmax p Hlim.
  destruct (reads_of_c_string w st cs t Hwf Hst Hcs) as (B & H & Ecs & Ht).
  destruct (reads_bounds w st B H) as (Hl & _ & HB & _).
  assert (Hlcs : length cs = Z.to_nat (len st))
    by (rewrite Ecs, length_take; lia).
  destruct (overwrite_reads w st B bs n pos H He Hfr Hn Hbs Hpos Hmax Hlim)
    as (st1 & w1 & B1 & Hrun & H1 & Hl1 & Hc1 & _ & _ & _ & _ & _ & HB1).
  fold p in Hl1, Hc1, HB1.
  exists st1, w1.
  split; [exact Hrun|]. split; [apply H1|]. split; [apply H1|].
  split; [exact Hl1|]. split; [exact Hc1|].
  rewrite (reads_c_string w1 st1 B1 H1), HB1. f_equal.
  assert (Hp : 0 <= p <= len st)
    by (subst p; destruct (pos <? 0) eqn:E; [|apply Z.ltb_ge in E]; lia).
  f_equal.
  { rewrite Ecs, take_take. f_equal. lia. }
  f_equal.
  destruct (Z.leb_spec (p + n) (len st)) as [Hin|Hout].
  - replace (Z.to_nat (len st + 1)) with (S (Z.to_nat (len st))) by lia.
    rewrite (take_S_r _ _ _ Ht), <- Ecs.
    apply drop_app_le. lia.
  - rewrite drop_ge by lia. reflexivity.
Qed.

Lemma overwrite_on_heap_witness :
  ∃ st' w',
    fio_str_overwrite self (lit "XY") 2 (-1) forty = Ok st' w'
    ∧ wf w'
    ∧ fio_str_state self w' = Ok st' w'
    ∧ len st' = Z.max 40 (40 + 2)
    ∧ capa st' = Z.max 100 (40 + 2)
    ∧ c_string st' w'
      = Ok (take (Z.to_nat 40) (text "0123456789012345678901234567890123456789")
              ++ text "XY"
              ++ drop (Z.to_nat (40 + 2))
                   (text "0123456789012345678901234567890123456789")
              ++ [zero]) w'.
Proof.
  apply (overwrite_on_heap forty (mk_state 100 40 (heap_ptr 0 0))
           (text "0123456789012345678901234567890123456789") zero
           (list_byte_of_string "XY") 2 (-1)).
  - exact wf_forty.
  - reflexivity.
  - reflexivity.
  - reflexivity.
  - reflexivity.
  - simpl. lia.
  - lia.
  - simpl. lia.
  - simpl. lia.
Defined.



Lemma view_reads w st B :
  reads w st B →
  view w = Ok (is_embedded st, capa st, len st, take (Z.to_nat (len st + 1)) B) w.
Proof.
  intros H. pose proof H as (_ & Hst & _). unfold view.
  rewrite (bind_ok _ _ _ _ _ Hst).
  rewrite (bind_ok _ _ _ _ _ (reads_c_string w st B H)). reflexivity.
Qed.

(** X10. On a terminated heap string that is not frozen and whose buffer
    has room for twice the source behind the end, [fio_str_insert] at
    position [-1] and [fio_str_write] leave the same representation,
    capacity, length and bytes. *)
Theorem insert_at_end_is_write (w : world) (st : fio_str_state_s)
    (cs : list cell) (bs : list byte) (n : Z) :
  wf w →
  frozen (str w) = 0 →
  fio_str_state self w = Ok st w →
  is_embedded st = false →
  c_string st w = Ok (cs ++ [zero]) w →
  0 < n <= Z.of_nat (length bs) →
  len st + n + 1 < 2 ^ 63 →
  (capa st < len st + n → len st + n + 1 <= alloc_limit w) →
  len st + 2 * n <= Z.max (capa st) (len st + n) + 1 →
  ∃ v w1 w2,
    (fio_str_insert self (Some bs) n (-1) ;; view) w = Ok v w1
    ∧ (fio_str_write self (Some bs) n ;; view) w = Ok v w2
    ∧ v = (false, Z.max (capa st) (len st + n), len st + n,
           cs ++ map Byte (take (Z.to_nat n) bs) ++ [zero]).
Proof.
  intros Hwf Hfr Hst He Hcs [Hn Hbs] Hmax Hlim Hroom.
  destruct (reads_of_c_string w st cs zero Hwf Hst Hcs) as (B & H & Ecs & Ht).
  destruct (reads_bounds w st B H) as (Hl & _ & HB & _).
  assert (Hp : Z.min (len st) (if -1 <? 0 then Z.max 0 (-1 + len st + 1) else -1)
               = len st) by (cbn [Z.ltb Z.compare]; lia).
  destruct (insert_reads w st B bs n (-1) H (or_intror He) Hfr Hn Hbs)
    as (st1 & w1 & B1 & Hrun1 & H1 & Hl1 & Hc1 & He1 & _ & _ & _ & _ & HB1);
    rewrite ?Hp; try lia; try assumption.
  rewrite Hp in HB1.
  destruct (write_reads w st B bs n H Hfr Hn Hbs)
    as (st2 & w2 & B2 & Hrun2 & H2 & Hl2 & Hc2 & He2 & _ & _ & _ & _ & HB2);
    try assumption.
  { unfold size_modulus. lia. }
  rewrite He in He1, He2. cbn [andb] in He1, He2.
  eexists _, w1, w2.
  rewrite (bind_ok _ _ _ _ _ Hrun1), (bind_ok _ _ _ _ _ Hrun2).
  rewrite (view_reads w1 st1 B1 H1), (view_reads w2 st2 B2 H2).
  rewrite HB1, HB2, He1, He2, Hl1, Hl2, Hc1, Hc2.
  rewrite <- Ecs. rewrite (drop_ge cs) by (rewrite Ecs, length_take; lia).
  cbn [app]. auto.
Qed.

Lemma insert_at_end_is_write_witness :
  ∃ v w1 w2,
    (fio_str_insert self (lit "XY") 2 (-1) ;; view) forty = Ok v w1
    ∧ (fio_str_write self (lit "XY") 2 ;; view) forty = Ok v w2
    ∧ v = (false, Z.max 100 (40 + 2), 40 + 2,
           text "0123456789012345678901234567890123456789" ++ text "XY" ++ [zero]).
Proof.
  apply (insert_at_end_is_write forty (mk_state 100 40 (heap_ptr 0 0))
           (text "0123456789012345678901234567890123456789")
           (list_byte_of_string "XY") 2).
  - exact wf_forty.
  - reflexivity.
  - reflexivity.
  - reflexivity.
  - reflexivity.
  - simpl. lia.
  - simpl. lia.
  - simpl. lia.
  - simpl. lia.
Defined.

(** X11. [fio_str_capa_assert] and the frozen flag.  The function never
    tests the flag; it keeps it, except when it moves an embedded string to
    the heap: the container it builds there is not frozen. *)
Theorem capa_assert_frozen_flag (w : world) (st : fio_str_state_s) (needed : Z) :
  wf w →
  fio_str_state self w = Ok st w →
  0 <= needed → needed + 1 < size_modulus →
  (capa st < needed → needed + 1 <= alloc_limit w) →
  ∃ st' w',
    fio_str_capa_assert self needed w = Ok st' w'
    ∧ wf w'
    ∧ fio_str_state self w' = Ok st' w'
    ∧ frozen (str w')
      = if is_embedded st && (FIO_STR_SMALL_CAPA <=? needed) then 0
        else frozen (str w).
Proof.
  intros Hwf Hst Hn0 Hmax Hlim. destruct (wf_reads w Hwf) as (st0 & B & H).
  pose proof H as (_ & Hst0 & _).
  rewrite Hst in Hst0. apply ok_inj in Hst0 as [<- _].
  destruct (capa_assert_reads w st B needed H Hn0 Hmax Hlim)
    as (st1 & w1 & B1 & Hrun & H1 & _ & _ & _ & _ & Hfr & _).
  exists st1, w1. split; [exact Hrun|]. split; [apply H1|]. split; [apply H1|].
  exact Hfr.
Qed.

Lemma capa_assert_frozen_flag_witness :
  frozen (str frozen_worl) = 1
  ∧ ∃ st' w',
      fio_str_capa_assert self 40 frozen_worl = Ok st' w'
      ∧ wf w'
      ∧ fio_str_state self w' = Ok st' w'
      ∧ frozen (str w') = 0.
Proof.
  split; [reflexivity|].
  apply (capa_assert_frozen_flag frozen_worl (mk_state 29 4 (small_data 0)) 40).
  - exact wf_frozen_worl.
  - reflexivity.
  - lia.
  - reflexivity.
  - intros _. simpl. lia.
Defined.

(** X12. The tag of an embedded string, [(uint8_t)(((len << 1) | 1) & 0xFF)],
    is never 0 and gives back the length modulo 128 when it is shifted
    right by one: lengths up to 127, so every length that fits the
    container, are stored exactly. *)
Theorem small_tag_roundtrip (n : Z) :
  0 <= n →
  small_tag n ≠ 0
  ∧ Z.shiftr (small_tag n) 1 = n mod 128
  ∧ (n < FIO_STR_SMALL_CAPA → Z.shiftr (small_tag n) 1 = n).
Proof.
  intros Hn.
  assert (E : small_tag n = 2 * (n mod 128) + 1).
  { unfold small_tag, size_shl, to_size_t, to_uint8_t, size_modulus.
    rewrite Z.shiftl_mul_pow2 by lia.
    change 255 with (Z.ones 8). rewrite Z.land_ones by lia.
    rewrite Z.mod_mod by lia.
    assert (Hlor : ∀ k, 0 <= k → Z.lor (2 * k) 1 = 2 * k + 1).
    { intros [|q|q] Hk; [reflexivity|reflexivity|lia]. }
    change (2 ^ 1) with 2. change (2 ^ 8) with 256.
    change (2 ^ 64) with 18446744073709551616.
    assert (HX : (n * 2) mod 18446744073709551616
                 = 2 * (n mod 9223372036854775808))
      by (Z.div_mod_to_equations; lia).
    rewrite HX, Hlor by (apply Z.mod_pos_bound; lia).
    Z.div_mod_to_equations. lia. }
  pose proof (Z.mod_pos_bound n 128 ltac:(lia)) as Hb.
  assert (Hs : Z.shiftr (small_tag n) 1 = n mod 128).
  { rewrite E, Z.shiftr_div_pow2 by lia. change (2 ^ 1) with 2.
    rewrite Z.add_comm, Z.mul_comm, Z.div_add by lia. reflexivity. }
  split; [lia|]. split; [exact Hs|].
  intros Hlt. rewrite Hs. apply Z.mod_small.
  unfold FIO_STR_SMALL_CAPA, sizeof_fio_str_s, offsetof_reserved in Hlt. lia.
Qed.

Lemma small_tag_roundtrip_witness :
  small_tag 29 ≠ 0
  ∧ Z.shiftr (small_tag 29) 1 = 29 mod 128
  ∧ (29 < FIO_STR_SMALL_CAPA → Z.shiftr (small_tag 29) 1 = 29).
Proof. apply (small_tag_roundtrip 29). lia. Defined.

Lemma run_write w bs n st' w' :
  fio_str_write self (Some bs) n w = Ok st' w' →
  run_op self (Write (Some bs) n) w = Ok tt w'.
Proof.
  intros H. unfold run_op, call.
  rewrite (bind_ok _ _ w (Some st') w')
    by (rewrite (bind_ok _ _ _ _ _ H); reflexivity).
  reflexivity.
Qed.

(** X13. Two calls of [fio_str_write] in a row are one call with the two
    sources joined: both leave the same representation, capacity, length
    and bytes. *)
Theorem write_write (w : world) (st : fio_str_state_s) (a b : list byte) :
  wf w →
  frozen (str w) = 0 →
  fio_str_state self w = Ok st w →
  let na := Z.of_nat (length a) in
  let nb := Z.of_nat (length b) in
  0 < na → 0 < nb →
  len st + na + nb + 1 < size_modulus →
  len st + na + nb + 1 <= alloc_limit w →
  ∃ v w1 w2,
    (run self [Write (Some a) na; Write (Some b) nb] ;; view) w = Ok v w1
    ∧ (run self [Write (Some (a ++ b)) (na + nb)] ;; view) w = Ok v w2.
Proof.
  intros Hwf Hfr Hst na nb Ha Hb Hmax Hlim.
  destruct (wf_reads w Hwf) as (st0 & B & H).
  pose proof H as (_ & Hst0 & _).
  rewrite Hst in Hst0. apply ok_inj in Hst0 as [<- _].
  destruct (reads_bounds w st B H) as (Hl & _ & HB & _).
  destruct (write_reads w st B a na H Hfr)
    as (st1 & w1 & B1 & Hrun1 & H1 & Hl1 & Hc1 & He1 & _ & Hfr1 & Hlim1 & _ & HB1);
    try lia.
  destruct (reads_bounds w1 st1 B1 H1) as (Hlc1 & _ & HB1' & _).
  destruct (write_reads w1 st1 B1 b nb H1 Hfr1)
    as (st2 & w2 & B2 & Hrun2 & H2 & Hl2 & Hc2 & He2 & _ & _ & _ & _ & HB2);
    try lia.
  destruct (write_reads w st B (a ++ b) (na + nb) H Hfr)
    as (st3 & w3 & B3 & Hrun3 & H3 & Hl3 & Hc3 & He3 & _ & _ & _ & _ & HB3);
    try lia.
  { rewrite length_app. lia. }
  eexists _, w2, w3.
  cbn [run].
  rewrite (bind_ok _ (fun _ => view) w tt w2).
  2:{ rewrite (bind_ok _ _ _ _ _ (run_write w a na st1 w1 Hrun1)).
      rewrite (bind_ok _ _ _ _ _ (run_write w1 b nb st2 w2 Hrun2)). reflexivity. }
  rewrite (bind_ok _ (fun _ => view) w tt w3).
  2:{ rewrite (bind_ok _ _ _ _ _ (run_write w _ _ st3 w3 Hrun3)). reflexivity. }
  rewrite (view_reads w2 st2 B2 H2), (view_reads w3 st3 B3 H3).
  split; [reflexivity|]. f_equal. f_equal; [f_equal; [f_equal|]|].
  - rewrite He3, He2, He1. destruct (is_embedded st); [|reflexivity].
    cbn [andb].
    destruct (Z.ltb_spec (len st + na) FIO_STR_SMALL_CAPA),
      (Z.ltb_spec (len st1 + nb) FIO_STR_SMALL_CAPA),
      (Z.ltb_spec (len st + (na + nb)) FIO_STR_SMALL_CAPA); reflexivity || lia.
  - lia.
  - lia.
  - rewrite HB3, HB2.
    assert (E1 : take (Z.to_nat (len st1)) B1
                 = take (Z.to_nat (len st)) B ++ map Byte (take (Z.to_nat na) a)).
    { eapply take_snoc_inv; [|shelve].
      rewrite <- app_assoc, <- HB1. f_equal. lia. Unshelve. lia. }
    rewrite E1.
    subst na nb. rewrite !Nat2Z.id.
    replace (Z.to_nat (Z.of_nat (length a) + Z.of_nat (length b)))
      with (length (a ++ b)) by (rewrite length_app; lia).
    rewrite !firstn_all, map_app, <- !app_assoc. reflexivity.
Qed.

Lemma write_write_witness :
  ∃ v w1 w2,
    (run self [Write (lit "d!") 2; Write (lit "?") 1] ;; view) worl = Ok v w1
    ∧ (run self [Write (Some (list_byte_of_string "d!" ++ list_byte_of_string "?"))
                   (2 + 1)] ;; view) worl = Ok v w2.
Proof.
  apply (write_write worl (mk_state 29 4 (small_data 0))
           (list_byte_of_string "d!") (list_byte_of_string "?")).
  - exact wf_worl.
  - reflexivity.
  - reflexivity.
  - simpl. lia.
  - simpl. lia.
  - reflexivity.
  - simpl. lia.
Defined.

Lemma sound_intro w st cs :
  wf w →
  fio_str_state self w = Ok st w →
  c_string st w = Ok (cs ++ [zero]) w →
  dom (heap w) = block_of st →
  sound w.
Proof.
  intros Hwf Hst Hcs Hdom.
  destruct (reads_of_c_string w st cs zero Hwf Hst Hcs) as (B & H & _ & Ht).
  exists st, B. auto.
Qed.

Lemma sound_elim w :
  sound w →
  ∃ st cs,
    wf w
    ∧ fio_str_state self w = Ok st w
    ∧ 0 <= len st <= capa st
    ∧ c_string st w = Ok (cs ++ [zero]) w
    ∧ dom (heap w) = block_of st.
Proof.
  intros (st & B & H & Ht & Hdom).
  destruct (reads_bounds w st B H) as (Hl & _ & HB & _).
  exists st, (take (Z.to_nat (len st)) B).
  split; [apply H|]. split; [apply H|]. split; [exact Hl|].
  split; [|exact Hdom].
  rewrite (reads_c_string w st B H). f_equal.
  replace (Z.to_nat (len st + 1)) with (S (Z.to_nat (len st))) by lia.
  apply take_S_r. exact Ht.
Qed.

(** X14. The invariant of the container.  Start from a well-formed
    container whose byte at [pointer[length]] is 0 and whose buffer, if it
    has one, is the only block of the heap.  After any sequence of calls of
    [fio_str_free], [fio_str_capa_assert], [fio_str_resize],
    [fio_str_write], [fio_str_concat], [fio_str_compact] and
    [fio_str_freeze] that returns, with any arguments of their C types, the
    container is again well formed, its length is at most its capacity, the
    byte at [pointer[length]] is 0, and its buffer is the only block of the
    heap: nothing has leaked. *)
Theorem orderly_calls_keep_invariant (w w' : world) (st : fio_str_state_s)
    (cs : list cell) (ops : list op) :
  wf w →
  fio_str_state self w = Ok st w →
  c_string st w = Ok (cs ++ [zero]) w →
  dom (heap w) = block_of st →
  Forall orderly ops →
  run self ops w = Ok tt w' →
  ∃ st' cs',
    wf w'
    ∧ fio_str_state self w' = Ok st' w'
    ∧ 0 <= len st' <= capa st'
    ∧ c_string st' w' = Ok (cs' ++ [zero]) w'
    ∧ dom (heap w') = block_of st'.
Proof.
  intros Hwf Hst Hcs Hdom Hops Hrun.
  apply sound_elim. eapply run_sound; [|exact Hops|exact Hrun].
  eapply sound_intro; eassumption.
Qed.

Lemma orderly_calls_keep_invariant_witness :
  ∃ st' cs',
    wf (after [Write (lit "World") 5; EnsureCapacity 32; Write (lit "!") 1;
               Concat (Some worl); Compact; Freeze; Resize 3] (boot 64))
    ∧ fio_str_state self
        (after [Write (lit "World") 5; EnsureCapacity 32; Write (lit "!") 1;
                Concat (Some worl); Compact; Freeze; Resize 3] (boot 64))
      = Ok st'
          (after [Write (lit "World") 5; EnsureCapacity 32; Write (lit "!") 1;
                  Concat (Some worl); Compact; Freeze; Resize 3] (boot 64))
    ∧ 0 <= len st' <= capa st'
    ∧ c_string st'
        (after [Write (lit "World") 5; EnsureCapacity 32; Write (lit "!") 1;
                Concat (Some worl); Compact; Freeze; Resize 3] (boot 64))
      = Ok (cs' ++ [zero])
          (after [Write (lit "World") 5; EnsureCapacity 32; Write (lit "!") 1;
                  Concat (Some worl); Compact; Freeze; Resize 3] (boot 64))
    ∧ dom (heap (after [Write (lit "World") 5; EnsureCapacity 32;
                        Write (lit "!") 1; Concat (Some worl); Compact; Freeze;
                        Resize 3] (boot 64)))
      = block_of st'.
Proof.
  apply (orderly_calls_keep_invariant (boot 64) _
           (mk_state (FIO_STR_SMALL_CAPA - 1) 0 (small_data 0)) []
           [Write (lit "World") 5; EnsureCapacity 32; Write (lit "!") 1;
            Concat (Some worl); Compact; Freeze; Resize 3]).
  - split; [reflexivity|]. apply shape_small; cbn; [discriminate|].
    split; [discriminate|reflexivity].
  - reflexivity.
  - reflexivity.
  - reflexivity.
  - repeat constructor; simpl; lia.
  - vm_compute. reflexivity.
Defined.



(** X16. Growth needs memory: on a well-formed container that is not
    frozen, [fio_str_resize], [fio_str_write] and [fio_str_concat] end the
    process through [FIO_ASSERT_ALLOC] when the new length exceeds the
    capacity and the allocator refuses the [new length + 1] bytes, a request
    of at least one byte.  [fio_str_write] does so for every source buffer,
    also one that is shorter than [src_len]. *)
Theorem growth_without_memory_exits (w : world) (st : fio_str_state_s) :
  wf w →
  frozen (str w) = 0 →
  fio_str_state self w = Ok st w →
  (∀ size,
     capa st < size → size + 1 < size_modulus → alloc_limit w < size + 1 →
     fio_str_resize self size w = Exit)
  ∧ (∀ bs n,
       0 < n → capa st < len st + n → len st + n + 1 < size_modulus →
       alloc_limit w < len st + n + 1 →
       fio_str_write self (Some bs) n w = Exit)
  ∧ (∀ srcw sst,
       fio_str_state self srcw = Ok sst srcw → 0 < len sst →
       capa st < len st + len sst → len st + len sst + 1 < size_modulus →
       alloc_limit w < len st + len sst + 1 →
       fio_str_concat self (Some srcw) w = Exit).
Proof.
  intros Hwf Hfr Hst. destruct (wf_reads w Hwf) as (st0 & B & H).
  pose proof H as (_ & Hst0 & _).
  rewrite Hst in Hst0. apply ok_inj in Hst0 as [<- _].
  destruct (reads_bounds w st B H) as (Hl & _ & _ & _).
  split; [|split].
  - intros size Hs Hmax Hlim.
    apply (resize_exit w st B size H Hfr); try lia.
    apply grants_false; lia.
  - intros bs n Hn Hs Hmax Hlim.
    apply (write_exit w st B bs n H Hfr); try lia.
    apply grants_false; lia.
  - intros srcw sst Hsst Hn Hs Hmax Hlim.
    apply (concat_exit w st B srcw sst H Hfr Hsst); try lia.
    apply grants_false; lia.
Qed.

Lemma growth_without_memory_exits_witness :
  (∀ size,
     29 < size → size + 1 < size_modulus → alloc_limit worl < size + 1 →
     fio_str_resize self size worl = Exit)
  ∧ (∀ bs n,
       0 < n → 29 < 4 + n → 4 + n + 1 < size_modulus →
       alloc_limit worl < 4 + n + 1 →
       fio_str_write self (Some bs) n worl = Exit)
  ∧ (∀ srcw sst,
       fio_str_state self srcw = Ok sst srcw → 0 < len sst →
       29 < 4 + len sst → 4 + len sst + 1 < size_modulus →
       alloc_limit worl < 4 + len sst + 1 →
       fio_str_concat self (Some srcw) worl = Exit).
Proof.
  apply (growth_without_memory_exits worl (mk_state 29 4 (small_data 0))).
  - exact wf_worl.
  - reflexivity.
  - reflexivity.
Defined.

(** X17. [FIO_STR_INIT_EXISTING] adopts a buffer from [malloc]: with a
    buffer of at least [capacity + 1] bytes and [length <= capacity], the
    container is well formed and not frozen, shows this capacity, length and
    pointer and the first [length] bytes of the buffer, and [fio_str_free]
    releases the buffer. *)
Theorem init_existing_adopts (h : gmap nat (list cell)) (nb : nat) (lim : Z)
    (b : nat) (blk : list cell) (l c : Z) :
  h !! b = Some blk →
  0 <= l <= c →
  c + 1 <= Z.of_nat (length blk) →
  c + 1 < size_modulus →
  let w := mk_world (FIO_STR_INIT_EXISTING (heap_ptr b 0) l c) h nb lim in
  let st := mk_state c l (heap_ptr b 0) in
  wf w
  ∧ frozen (str w) = 0
  ∧ fio_str_state self w = Ok st w
  ∧ contents st w = Ok (take (Z.to_nat l) blk) w
  ∧ ∃ w', fio_str_free self w = Ok tt w'
          ∧ str w' = FIO_STR_INIT ∧ heap w' = delete b h.
Proof.
  intros Hb Hl Hblk Hmax w st.
  assert (Hmod : c < size_modulus ∧ l < size_modulus) by lia.
  assert (H : reads w st (take (Z.to_nat (c + 1)) blk)).
  { apply reads_heap_intro; subst w; cbn [str heap small];
      unfold FIO_STR_INIT_EXISTING; fields;
      first [reflexivity | lia | assumption]. }
  split; [apply H|]. split; [reflexivity|]. split; [apply H|].
  split.
  - rewrite (reads_contents w st _ H). subst st. cbn [len]. f_equal.
    rewrite take_take. f_equal. lia.
  - rewrite (free_reads w st _ H). eexists. repeat split.
Qed.

Lemma init_existing_adopts_witness :
  wf adopted
  ∧ frozen (str adopted) = 0
  ∧ fio_str_state self adopted = Ok (mk_state 7 3 (heap_ptr 0 0)) adopted
  ∧ contents (mk_state 7 3 (heap_ptr 0 0)) adopted
    = Ok (take (Z.to_nat 3) abc_buffer) adopted
  ∧ ∃ w', fio_str_free self adopted = Ok tt w'
          ∧ str w' = FIO_STR_INIT
          ∧ heap w' = delete 0%nat ({[0%nat := abc_buffer]} : gmap nat (list cell)).
Proof.
  apply (init_existing_adopts {[0%nat := abc_buffer]} 1 64 0 abc_buffer 3 7).
  - reflexivity.
  - lia.
  - simpl. lia.
  - reflexivity.
Defined.

(** X19. On a heap string that is not frozen, [fio_str_overwrite] at
    position [-1] is [fio_str_write]: both leave the same representation,
    capacity, length and bytes. *)
Theorem overwrite_at_end_is_write (w : world) (st : fio_str_state_s)
    (cs : list cell) (bs : list byte) (n : Z) :
  wf w →
  frozen (str w) = 0 →
  fio_str_state self w = Ok st w →
  is_embedded st = false →
  contents st w = Ok cs w →
  0 < n <= Z.of_nat (length bs) →
  len st + n + 1 < 2 ^ 63 →
  (capa st < len st + n → len st + n + 1 <= alloc_limit w) →
  ∃ v w1 w2,
    (fio_str_overwrite self (Some bs) n (-1) ;; view) w = Ok v w1
    ∧ (fio_str_write self (Some bs) n ;; view) w = Ok v w2
    ∧ v = (false, Z.max (capa st) (len st + n), len st + n,
           cs ++ map Byte (take (Z.to_nat n) bs) ++ [zero]).
Proof.
  intros Hwf Hfr Hst He Hcs [Hn Hbs] Hmax Hlim.
  destruct (reads_of w st cs Hwf Hst Hcs) as (B & H & ->).
  destruct (reads_bounds w st B H) as (Hl & _ & HB & _).
  assert (Hp : Z.min (len st) (if -1 <? 0 then Z.max 0 (-1 + len st + 1) else -1)
               = len st) by (cbn [Z.ltb Z.compare]; lia).
  destruct (overwrite_reads w st B bs n (-1) H He Hfr Hn Hbs)
    as (st1 & w1 & B1 & Hrun1 & H1 & Hl1 & Hc1 & He1 & _ & _ & _ & _ & HB1);
    rewrite ?Hp; try lia; try assumption.
  rewrite Hp in Hl1, Hc1, HB1. rewrite leb_false in HB1 by lia.
  destruct (write_reads w st B bs n H Hfr Hn Hbs)
    as (st2 & w2 & B2 & Hrun2 & H2 & Hl2 & Hc2 & He2 & _ & _ & _ & _ & HB2);
    try assumption.
  { unfold size_modulus. lia. }
  rewrite He in He2. cbn [andb] in He2.
  eexists _, w1, w2.
  rewrite (bind_ok _ _ _ _ _ Hrun1), (bind_ok _ _ _ _ _ Hrun2).
  rewrite (view_reads w1 st1 B1 H1), (view_reads w2 st2 B2 H2).
  rewrite HB1, HB2, He1, He2, Hl1, Hl2, Hc1, Hc2.
  replace (Z.max (len st) (len st + n)) with (len st + n) by lia.
  auto.
Qed.

Lemma overwrite_at_end_is_write_witness :
  ∃ v w1 w2,
    (fio_str_overwrite self (lit "XY") 2 (-1) ;; view) forty = Ok v w1
    ∧ (fio_str_write self (lit "XY") 2 ;; view) forty = Ok v w2
    ∧ v = (false, Z.max 100 (40 + 2), 40 + 2,
           text "0123456789012345678901234567890123456789" ++ text "XY" ++ [zero]).
Proof.
  apply (overwrite_at_end_is_write forty (mk_state 100 40 (heap_ptr 0 0))
           (text "0123456789012345678901234567890123456789")
           (list_byte_of_string "XY") 2).
  - exact wf_forty.
  - reflexivity.
  - reflexivity.
  - reflexivity.
  - reflexivity.
  - simpl. lia.
  - simpl. lia.
  - simpl. lia.
Defined.

Lemma run_resize w size st' w' :
  fio_str_resize self size w = Ok st' w' →
  run_op self (Resize size) w = Ok tt w'.
Proof.
  intros H. unfold run_op, call.
  rewrite (bind_ok _ _ w (Some st') w')
    by (rewrite (bind_ok _ _ _ _ _ H); reflexivity).
  reflexivity.
Qed.

(** X20. Growing a string with [fio_str_resize] and resizing it back to its
    old length gives back its content, with a terminator; the capacity
    stays where the first call left it. *)
Theorem resize_round_trip (w : world) (st : fio_str_state_s) (cs : list cell)
    (size : Z) :
  wf w →
  frozen (str w) = 0 →
  fio_str_state self w = Ok st w →
  contents st w = Ok cs w →
  len st <= size → size + 1 < size_modulus →
  (capa st < size → size + 1 <= alloc_limit w) →
  ∃ st' w',
    run self [Resize size; Resize (len st)] w = Ok tt w'
    ∧ wf w'
    ∧ fio_str_state self w' = Ok st' w'
    ∧ len st' = len st
    ∧ capa st' = Z.max (capa st) size
    ∧ c_string st' w' = Ok (cs ++ [zero]) w'.
Proof.
  intros Hwf Hfr Hst Hcs Hle Hmax Hlim.
  destruct (reads_of w st cs Hwf Hst Hcs) as (B & H & ->).
  destruct (reads_bounds w st B H) as (Hl & _ & HB & _).
  destruct (resize_reads w st B size H Hfr)
    as (st1 & w1 & B1 & Hrs1 & H1 & Hl1 & Hc1 & _ & _ & _ & Hfr1 & Hlim1 & _
        & _ & Hpre1 & _ & _); try lia; try assumption.
  destruct (reads_bounds w1 st1 B1 H1) as (Hlc1 & _ & HB1 & _).
  destruct (resize_reads w1 st1 B1 (len st) H1 Hfr1)
    as (st2 & w2 & B2 & Hrs2 & H2 & Hl2 & Hc2 & _ & _ & _ & _ & _ & _
        & Hz2 & Hpre2 & _ & _); try lia.
  destruct (reads_bounds w2 st2 B2 H2) as (Hlc2 & _ & HB2 & _).
  exists st2, w2.
  split.
  { cbn [run].
    rewrite (bind_ok _ _ _ _ _ (run_resize w size st1 w1 Hrs1)).
    rewrite (bind_ok _ _ _ _ _ (run_resize w1 (len st) st2 w2 Hrs2)).
    reflexivity. }
  split; [apply H2|]. split; [apply H2|]. split; [exact Hl2|].
  split; [lia|].
  rewrite (reads_c_string w2 st2 B2 H2), Hl2. f_equal.
  replace (Z.to_nat (len st + 1)) with (S (Z.to_nat (len st))) by lia.
  rewrite (take_S_r _ _ _ Hz2). f_equal.
  apply list_eq. intros i. rewrite !lookup_take.
  destruct (decide _); [|reflexivity].
  rewrite Hpre2, Hpre1 by lia. reflexivity.
Qed.

Lemma resize_round_trip_witness :
  ∃ st' w',
    run self [Resize 50; Resize 4] worl = Ok tt w'
    ∧ wf w'
    ∧ fio_str_state self w' = Ok st' w'
    ∧ len st' = 4
    ∧ capa st' = Z.max 29 50
    ∧ c_string st' w' = Ok (text "Worl" ++ [zero]) w'.
Proof.
  apply (resize_round_trip worl (mk_state 29 4 (small_data 0)) (text "Worl") 50).
  - exact wf_worl.
  - reflexivity.
  - reflexivity.
  - reflexivity.
  - simpl. lia.
  - reflexivity.
  - intros _. simpl. lia.
Defined.

Lemma run_capa_assert w needed st' w' :
  fio_str_capa_assert self needed w = Ok st' w' →
  run_op self (EnsureCapacity needed) w = Ok tt w'.
Proof.
  intros H. unfold run_op, call.
  rewrite (bind_ok _ _ w (Some st') w')
    by (rewrite (bind_ok _ _ _ _ _ H); reflexivity).
  reflexivity.
Qed.

Lemma run_compact w w' :
  fio_str_compact self w = Ok tt w' → run_op self Compact w = Ok tt w'.
Proof.
  intros H. unfold run_op, call.
  rewrite (bind_ok _ _ w None w')
    by (rewrite (bind_ok _ _ _ _ _ H); reflexivity).
  reflexivity.
Qed.

(** X21. [fio_str_compact] undoes a promotion: a terminated embedded string
    that [fio_str_capa_assert] moved to the heap is back in the container
    after [fio_str_compact], with the capacity, length and bytes it had
    (the frozen flag, which the promotion cleared, stays clear). *)
Theorem compact_undoes_promotion (w : world) (st : fio_str_state_s)
    (cs : list cell) (needed : Z) :
  wf w →
  fio_str_state self w = Ok st w →
  is_embedded st = true →
  c_string st w = Ok (cs ++ [zero]) w →
  FIO_STR_SMALL_CAPA <= needed → needed + 1 < size_modulus →
  needed + 1 <= alloc_limit w →
  ∃ w' v,
    run self [EnsureCapacity needed; Compact] w = Ok tt w'
    ∧ view w = Ok v w
    ∧ view w' = Ok v w'
    ∧ frozen (str w') = 0.
Proof.
  intros Hwf Hst He Hcs Hge Hmax Hlim.
  assert (Hcap : FIO_STR_SMALL_CAPA = 30) by reflexivity.
  destruct (reads_of_c_string w st cs zero Hwf Hst Hcs) as (B & H & Ecs & Ht).
  destruct (reads_bounds w st B H) as (Hl & _ & HB & Hemb).
  specialize (Hemb He).
  assert (Hlt : len st < FIO_STR_SMALL_CAPA).
  { destruct (wf_capa w st Hwf Hst) as [_ Hx]. destruct (Hx He). assumption. }
  destruct (capa_assert_reads w st B needed H)
    as (st1 & w1 & B1 & Hrun1 & H1 & Hl1 & Hc1 & He1 & _ & Hfr1 & Hlim1 & _
        & Hpre1 & Ht1); try lia.
  rewrite He in He1, Hfr1. rewrite ltb_false in He1 by lia.
  rewrite leb_true in Hfr1 by lia. cbn [andb] in He1, Hfr1.
  destruct (compact_reads w1 st1 B1 H1)
    as (st2 & w2 & B2 & Hrun2 & H2 & Hl2 & Hc2 & He2 & Hfr2 & _ & _ & Hpre2
        & Ht2 & _); [lia|].
  rewrite He1 in Hc2, He2. rewrite Hl1 in He2, Hc2.
  rewrite ltb_true in He2 by lia. cbn [orb] in He2.
  exists w2. eexists.
  split.
  { cbn [run].
    rewrite (bind_ok _ _ _ _ _ (run_capa_assert w needed st1 w1 Hrun1)).
    rewrite (bind_ok _ _ _ _ _ (run_compact w1 w2 Hrun2)).
    reflexivity. }
  rewrite (view_reads w st B H), (view_reads w2 st2 B2 H2).
  split; [reflexivity|]. split; [|lia].
  f_equal. rewrite He, He2, Hl2, Hl1.
  replace (capa st2) with (capa st) by lia. f_equal.
  apply list_eq. intros i. rewrite !lookup_take.
  destruct (decide _); [|reflexivity].
  destruct (decide (i = Z.to_nat (len st))) as [->|Hne].
  - rewrite Ht. rewrite <- Hl1. apply Ht2. rewrite Hl1. apply Ht1, Ht.
  - rewrite Hpre2, Hpre1 by lia. reflexivity.
Qed.

Lemma compact_undoes_promotion_witness :
  ∃ w' v,
    run self [EnsureCapacity 40; Compact] frozen_worl = Ok tt w'
    ∧ view frozen_worl = Ok v frozen_worl
    ∧ view w' = Ok v w'
    ∧ frozen (str w') = 0.
Proof.
  apply (compact_undoes_promotion frozen_worl (mk_state 29 4 (small_data 0))
           (text "Worl") 40).
  - exact wf_frozen_worl.
  - reflexivity.
  - reflexivity.
  - reflexivity.
  - unfold FIO_STR_SMALL_CAPA, sizeof_fio_str_s, offsetof_reserved. lia.
  - reflexivity.
  - simpl. lia.
Defined.

Lemma returns_or_exits {A} (m : M A) (w : world) :
  (∃ a w', m w = Ok a w') ∨ m w = Exit →
  (∃ w', (m ;; ret tt) w = Ok tt w') ∨ (m ;; ret tt) w = Exit.
Proof.
  unfold bind. intros [(a & w' & ->)| ->]; [left; eexists; reflexivity|right; reflexivity].
Qed.

Lemma granted_or_not w size :
  0 <= size < size_modulus →
  (size + 1 < size_modulus ∧ size + 1 <= alloc_limit w)
  ∨ grants (size_add size 1) w = false.
Proof.
  intros Hs. destruct (grants (size_add size 1) w) eqn:Hg; [left|right; reflexivity].
  apply grants_size_add in Hg; assumption.
Qed.

(** X22. Memory safety of the calls of X14.  On a well-formed container, a
    call of [fio_str_free], [fio_str_capa_assert],
    [fio_str_resize], [fio_str_write], [fio_str_concat], [fio_str_compact]
    or [fio_str_freeze] whose arguments fit (a source buffer of at least
    [src_len] bytes, a well-formed source container, a requested capacity,
    size or new length below [SIZE_MAX]) either returns or ends the process
    through [FIO_ASSERT_ALLOC]: it never reads or writes outside the
    container and its buffer, and never frees a pointer it does not own.
    With [SIZE_MAX] itself the request of [needed + 1] bytes wraps to an
    empty one, and a block of no bytes would be written to. *)
Theorem orderly_calls_are_safe (w : world) (st : fio_str_state_s) (o : op) :
  wf w →
  fio_str_state self w = Ok st w →
  orderly o →
  fits st o →
  (∃ w', run_op self o w = Ok tt w') ∨ run_op self o w = Exit.
Proof.
  intros Hwf Hst Ho Hfit. destruct (wf_reads w Hwf) as (st0 & B & H).
  pose proof H as (_ & Hst0 & _).
  rewrite Hst in Hst0. apply ok_inj in Hst0 as [<- _].
  destruct (reads_bounds w st B H) as (Hl & Hcm & _ & _).
  unfold run_op. apply returns_or_exits.
  assert (Hstate : ∃ a w', (let* s := fio_str_state self in ret (Some s)) w = Ok a w')
    by (rewrite (bind_ok _ _ _ _ _ Hst); eauto).
  destruct o as [| |needed|size|src n|src| | | |]; cbn [orderly well_typed] in Ho;
    try contradiction; unfold call.
  - (* fio_str_free *)
    left. rewrite (bind_ok _ _ w tt _ (free_reads w st B H)). eauto.
  - (* fio_str_capa_assert *)
    destruct (Z.lt_ge_cases (capa st) needed) as [Hgt|Hle].
    + destruct (granted_or_not w needed Ho) as [[Hmax Hlim]|Hno].
      * destruct (capa_assert_reads w st B needed H) as (st1 & w1 & _ & Hrun & _);
          try lia.
        left. rewrite (bind_ok _ _ _ _ _ Hrun). eauto.
      * right. unfold bind.
        rewrite (capa_assert_exit w st B needed H Hgt Ho Hno). reflexivity.
    + destruct (capa_assert_reads w st B needed H) as (st1 & w1 & _ & Hrun & _);
        try lia.
      left. rewrite (bind_ok _ _ _ _ _ Hrun). eauto.
  - (* fio_str_resize *)
    destruct (Z.eqb_spec (frozen (str w)) 0) as [Hfr|Hfr].
    + destruct (Z.lt_ge_cases (capa st) size) as [Hgt|Hle].
      * destruct (granted_or_not w size Ho) as [[Hmax Hlim]|Hno].
        -- destruct (resize_reads w st B size H Hfr) as (st1 & w1 & _ & Hrun & _);
             try lia.
           left. rewrite (bind_ok _ _ _ _ _ Hrun). eauto.
        -- right. unfold bind.
           rewrite (resize_exit w st B size H Hfr Hgt Ho Hno). reflexivity.
      * destruct (resize_reads w st B size H Hfr) as (st1 & w1 & _ & Hrun & _);
          try lia.
        left. rewrite (bind_ok _ _ _ _ _ Hrun). eauto.
    + left. rewrite (bind_ok _ _ _ _ _ (resize_frozen w st Hfr Hst size)). eauto.
  - (* fio_str_write *)
    destruct (Z.eqb_spec (frozen (str w)) 0) as [Hfr|Hfr].
    2:{ left. rewrite (bind_ok _ _ _ _ _ (write_frozen w st Hfr Hst src n)). eauto. }
    destruct src as [bs|].
    2:{ left. unfold fio_str_write. cbn [refuses].
        destruct (n =? 0); cbn [bind ret]; exact Hstate. }
    destruct (Z.eqb_spec n 0) as [Hz|Hnz].
    { left. unfold fio_str_write. cbn [refuses]. rewrite Hz. exact Hstate. }
    cbn [fits] in Hfit. destruct Hfit as [Hbs Hmax].
    assert (Hn : 0 < n) by lia.
    assert (Hsz : 0 <= len st + n < size_modulus) by lia.
    destruct (Z.lt_ge_cases (capa st) (len st + n)) as [Hgt|Hle].
    + destruct (granted_or_not w (len st + n) Hsz) as [[Hmax' Hlim]|Hno].
      * destruct (write_reads w st B bs n H Hfr) as (st1 & w1 & _ & Hrun & _);
          try lia.
        left. rewrite (bind_ok _ _ _ _ _ Hrun). eauto.
      * right. unfold bind.
        rewrite (write_exit w st B bs n H Hfr) by (assumption || lia).
        reflexivity.
    + destruct (write_reads w st B bs n H Hfr) as (st1 & w1 & _ & Hrun & _);
        try lia.
      left. rewrite (bind_ok _ _ _ _ _ Hrun). eauto.
  - (* fio_str_concat *)
    destruct (Z.eqb_spec (frozen (str w)) 0) as [Hfr|Hfr].
    2:{ left. rewrite (bind_ok _ _ _ _ _ (concat_frozen w st Hfr Hst src)). eauto. }
    destruct src as [srcw|]; [|left; exact Hstate].
    cbn [fits] in Hfit. destruct Hfit as [Hsrc Hmax].
    destruct (wf_observable srcw Hsrc) as (sst & xs & t & Hsst & Hn0 & Hxs & _).
    specialize (Hmax sst Hsst).
    destruct (Z.eqb_spec (len sst) 0) as [Hz|Hnz].
    { left.
      assert (E : fio_str_concat self (Some srcw) w = Ok st w).
      { unfold fio_str_concat.
        rewrite (bind_ok get_frozen _ w (frozen (str w)) w eq_refl), Hfr.
        cbn [Z.eqb negb].
        rewrite (bind_ok _ _ _ _ _ (read_in_ok srcw _ _ _ w Hsst)), Hz.
        exact Hst. }
      rewrite (bind_ok _ _ _ _ _ E). eauto. }
    assert (Hsz : 0 <= len st + len sst < size_modulus) by lia.
    destruct (Z.lt_ge_cases (capa st) (len st + len sst)) as [Hgt|Hle].
    + destruct (granted_or_not w (len st + len sst) Hsz) as [[Hmax' Hlim]|Hno].
      * destruct (concat_reads w st B srcw sst xs H Hfr Hsst Hxs)
          as (st1 & w1 & _ & Hrun & _); try lia.
        left. rewrite (bind_ok _ _ _ _ _ Hrun). eauto.
      * right. unfold bind.
        rewrite (concat_exit w st B srcw sst H Hfr Hsst) by (assumption || lia).
        reflexivity.
    + destruct (concat_reads w st B srcw sst xs H Hfr Hsst Hxs)
        as (st1 & w1 & _ & Hrun & _); try lia.
      left. rewrite (bind_ok _ _ _ _ _ Hrun). eauto.
  - (* fio_str_compact *)
    destruct (is_embedded st) eqn:He.
    + destruct (compact_reads w st B H) as (st1 & w1 & _ & Hrun & _);
        [rewrite He; discriminate|].
      left. rewrite (bind_ok _ _ _ _ _ Hrun). eauto.
    + destruct (Z.lt_ge_cases (len st) FIO_STR_SMALL_CAPA) as [Hlt|Hge].
      * destruct (compact_reads w st B H) as (st1 & w1 & _ & Hrun & _); [lia|].
        left. rewrite (bind_ok _ _ _ _ _ Hrun). eauto.
      * destruct (granted_or_not w (len st) ltac:(lia)) as [[Hmax Hlim]|Hno].
        -- destruct (compact_reads w st B H) as (st1 & w1 & _ & Hrun & _); [lia|].
           left. rewrite (bind_ok _ _ _ _ _ Hrun). eauto.
        -- right. unfold bind.
           rewrite (compact_exit w st B H He Hge Hno). reflexivity.
  - (* fio_str_freeze *)
    left. rewrite (bind_ok _ _ _ _ _ (freeze_eq w)). eauto.
Qed.

Lemma orderly_calls_are_safe_witness :
  (∃ w', run_op self (Write (lit "more data to be written here") 28) worl
         = Ok tt w')
  ∨ run_op self (Write (lit "more data to be written here") 28) worl = Exit.
Proof.
  apply (orderly_calls_are_safe worl (mk_state 29 4 (small_data 0))
           (Write (lit "more data to be written here") 28)).
  - exact wf_worl.
  - reflexivity.
  - simpl. unfold size_modulus. lia.
  - simpl. unfold size_modulus. lia.
Defined.

(** * Freezing and promotion *)

Lemma run_freeze w : run_op self Freeze w = Ok tt (set_frozen_world 1 w).
Proof. reflexivity. Qed.

(** What [frozen_lost_by_promotion] shows at one input holds for every
    embedded string: after [fio_str_freeze], a [fio_str_capa_assert] that
    moves the string to the heap lets the next [fio_str_write] append. *)
Lemma promotion_reopens_frozen w st cs needed bs n :
  wf w →
  fio_str_state self w = Ok st w →
  is_embedded st = true →
  contents st w = Ok cs w →
  FIO_STR_SMALL_CAPA <= needed → needed + 1 < size_modulus →
  needed + 1 <= alloc_limit w →
  0 < n <= Z.of_nat (length bs) →
  len st + n <= needed →
  ∃ st' w',
    run self [Freeze; EnsureCapacity needed; Write (Some bs) n] w = Ok tt w'
    ∧ fio_str_state self w' = Ok st' w'
    ∧ len st' = len st + n
    ∧ c_string st' w' = Ok (cs ++ map Byte (take (Z.to_nat n) bs) ++ [zero]) w'.
Proof.
  intros Hwf Hst He Hcs Hge Hmax Hlim [Hn Hbs] Hroom.
  destruct (reads_of w st cs Hwf Hst Hcs) as (B & H & ->).
  destruct (reads_bounds w st B H) as (Hl & _ & HB & _).
  pose proof (reads_set_frozen w st B 1 H) as H0.
  set (w0 := set_frozen_world 1 w) in *.
  destruct (capa_assert_reads w0 st B needed H0 ltac:(lia) Hmax (fun _ => Hlim))
    as (st1 & w1 & B1 & Hrun1 & H1 & Hl1 & Hc1 & _ & _ & Hfr1 & Hlim1 & _
        & Hpre1 & _).
  change (alloc_limit w0) with (alloc_limit w) in Hlim1.
  rewrite He in Hfr1. rewrite leb_true in Hfr1 by lia. cbn [andb] in Hfr1.
  destruct (write_reads w1 st1 B1 bs n H1 Hfr1 Hn Hbs)
    as (st2 & w2 & B2 & Hrun2 & H2 & Hl2 & _ & _ & _ & _ & _ & _ & HB2);
    try lia.
  exists st2, w2.
  split.
  { cbn [run]. rewrite (bind_ok _ _ _ _ _ (run_freeze w)). fold w0.
    rewrite (bind_ok _ _ _ _ _ (run_capa_assert w0 needed st1 w1 Hrun1)).
    rewrite (bind_ok _ _ _ _ _ (run_write w1 bs n st2 w2 Hrun2)).
    reflexivity. }
  split; [apply H2|]. split; [lia|].
  rewrite (reads_c_string w2 st2 B2 H2), HB2. do 2 f_equal.
  rewrite Hl1. apply list_eq. intros i. rewrite !lookup_take.
  destruct (decide _); [|reflexivity]. apply Hpre1. lia.
Qed.
